(** * apprenticeVr: the download processor

    A shallow embedding of [src/main/services/download/downloadProcessor.ts]
    (class [DownloadProcessor]) and the properties of its transfer engine,
    cancellation registry and orchestration.

    Layout:
    - [Js]        the few JavaScript primitives the code relies on
                  ([a || b] on strings, [String.prototype.replace] with a
                  string pattern, [Math.round] of a percentage);
    - [Model]     the data model: items, partial updates, the queue
                  collaborator, the registry of active downloads, the world
                  the processor runs in and the log of its external effects;
    - [Sync]      [cancelDownload], [pauseDownload], [updateItemStatus];
    - [Async]     a state / exception / never-settling monad for the
                  [async] functions, with the points where other actors run;
    - [Processor] the asynchronous methods of [DownloadProcessor];
    - [Props]     the vocabulary of the properties; [Examples] concrete
                  hosts, items and worlds;
    - [Config]    [setVrpConfig] and [getVrpConfig]; [Terms], [Laws], [Calm]
                  and [Paths] more vocabulary; [Hosts] more hosts;
    - the properties: [cancelDownload] ([CancelClaims]), enumeration
      ([EnumClaims]), mount readiness ([ReadinessClaims]), the disk-space
      test ([PreflightClaims]), the registry ([RegistryClaims]), completion
      ([CompletionClaims]), cancellation of a copy ([CancellationClaims]) and
      resume ([ResumeClaims]), each after the lemmas it rests on;
    - more properties of the code: the synchronous methods ([SyncProps]),
      invariants of the asynchronous ones ([Invariants]), how an attempt ends
      ([EndProps], [EarlyProps]), enumeration and paths ([PathProps]), the
      copy of a file ([StreamProps]), a whole download ([WholeProps]), the
      choice of the endpoint ([MirrorProps]) and single steps of an attempt
      ([StepProps]). *)

From Stdlib Require Import ZArith Lia Strings.Byte Ascii String.
From stdpp Require Import base option list strings gmap fin_maps pretty.

Local Open Scope string_scope.
Local Open Scope Z_scope.

(* ===================================================================== *)
(** ** JavaScript primitives *)
(* ===================================================================== *)

Module Js.

(** A JavaScript [number] as far as the processor produces one: byte counts
    and rounded percentages are integers; a percentage over a zero total is
    [Infinity] or [NaN]. *)
Inductive num : Type :=
| Num (z : Z)
| Infinity
| NaN.

#[global] Instance num_eq_dec : EqDecision num.
Proof. solve_decision. Defined.

(** Truthiness of an optional string: [undefined] and [''] are falsy. *)
Definition truthy (s : option string) : bool :=
  match s with
  | Some s => negb (String.eqb s "")
  | None => false
  end.

(** [a || b] on optional strings. *)
Definition or (a b : option string) : option string :=
  if truthy a then a else b.

(** [a || b] where both are strings. *)
Definition orS (a b : string) : string :=
  if String.eqb a "" then b else a.

(** [s.replace(pat, '')] with a string pattern: the first occurrence of
    [pat] is removed; an empty pattern matches at position 0 and removes
    nothing. *)
Fixpoint replaceFirst (pat s : string) : string :=
  if String.prefix pat s then String.substring (String.length pat)
                                (String.length s - String.length pat) s
  else match s with
       | EmptyString => EmptyString
       | String c s' => String c (replaceFirst pat s')
       end.

(** [s.substring(0, n)]. *)
Definition substring0 (n : nat) (s : string) : string :=
  String.substring 0 n s.

(** [Math.round((a / b) * 100)] for integers [a >= 0], [b >= 0], with the
    quotient taken exactly (round half up). *)
Definition roundPercent (a b : Z) : num :=
  if b =? 0 then (if a =? 0 then NaN else Infinity)
  else Num ((200 * a + b) / (2 * b)).

End Js.

(* ===================================================================== *)
(** ** Data model *)
(* ===================================================================== *)

Module Model.

(** [DownloadStatus] of [@shared/types], as far as this core drives it. *)
Inductive DownloadStatus : Type :=
| Queued | Downloading | Paused | Extracting | Completed | Error | Cancelled.

#[global] Instance DownloadStatus_eq_dec : EqDecision DownloadStatus.
Proof. solve_decision. Defined.

(** The second parameter of [cancelDownload]: ['Cancelled' | 'Error']. *)
Inductive FinalStatus : Type := FCancelled | FError.

#[global] Instance FinalStatus_eq_dec : EqDecision FinalStatus.
Proof. solve_decision. Defined.

Definition statusOf (f : FinalStatus) : DownloadStatus :=
  match f with FCancelled => Cancelled | FError => Error end.

(** The fields of [DownloadItem] the processor reads or writes. Optional
    fields ([error?], [pid?], ...) hold [None] for [undefined]. *)
Record DownloadItem : Type := mkItem {
  releaseName : string;
  status : DownloadStatus;
  progress : Js.num;
  error : option string;
  speed : option string;
  eta : option string;
  extractProgress : option Js.num;
  pid : option Z;
  size : option string;
  downloadPath : string
}.

(** [Partial<DownloadItem>]: [None] is a key that is absent from the object
    literal, [Some v] a key that is present; for an optional field a present
    key can hold [undefined], which is [Some None]. *)
Record ItemUpdates : Type := mkUpdates {
  u_status : option DownloadStatus;
  u_progress : option Js.num;
  u_error : option (option string);
  u_speed : option (option string);
  u_eta : option (option string);
  u_extractProgress : option (option Js.num);
  u_pid : option (option Z);
  u_downloadPath : option string
}.

Definition noUpdates : ItemUpdates :=
  mkUpdates None None None None None None None None.

(** [{ ...item, ...updates }]. *)
Definition applyUpdates (u : ItemUpdates) (it : DownloadItem) : DownloadItem :=
  {| releaseName := releaseName it;
     status := default (status it) (u_status u);
     progress := default (progress it) (u_progress u);
     error := default (error it) (u_error u);
     speed := default (speed it) (u_speed u);
     eta := default (eta it) (u_eta u);
     extractProgress := default (extractProgress it) (u_extractProgress u);
     pid := default (pid it) (u_pid u);
     size := size it;
     downloadPath := default (downloadPath it) (u_downloadPath u) |}.

(** *** The queue collaborator *)

(** Modelled from the spec: [QueueManager] ([./queueManager], not among the
    sources). Section 6 gives its interface: [findItem(key) -> item|null]
    and [updateItem(key, partialFields) -> updated:boolean]; the queue is an
    ordered sequence of items looked up by release name, and an update
    merges the given fields into the first item with that name. *)
Fixpoint findItem (key : string) (q : list DownloadItem) : option DownloadItem :=
  match q with
  | [] => None
  | it :: q' => if String.eqb (releaseName it) key then Some it else findItem key q'
  end.

(** Modelled from the spec: [QueueManager.updateItem], the queue after the
    update. *)
Fixpoint updateQueue (key : string) (u : ItemUpdates) (q : list DownloadItem)
  : list DownloadItem :=
  match q with
  | [] => []
  | it :: q' =>
      if String.eqb (releaseName it) key then applyUpdates u it :: q'
      else it :: updateQueue key u q'
  end.

(** Modelled from the spec: [QueueManager.updateItem], its boolean result. *)
Definition updateItemOk (key : string) (q : list DownloadItem) : bool :=
  bool_decide (is_Some (findItem key q)).

(** Another service taking the item off the queue. *)
Fixpoint removeItem (key : string) (q : list DownloadItem) : list DownloadItem :=
  match q with
  | [] => []
  | it :: q' =>
      if String.eqb (releaseName it) key then q' else it :: removeItem key q'
  end.

(** *** The registry of active downloads *)

(** The variables the [cancel] closure of a controller captures
    (lines 426-435): [cancellationToken.cancelled] and [downloadCancelled]. *)
Record CancelCell : Type := mkCell {
  tokenCancelled : bool;
  downloadCancelled : bool
}.

(** [DownloadController]: [cancel] is the closure over cell [cancelRef];
    [mountProcess] the handle of the spawned mount process. *)
Record DownloadController : Type := mkController {
  cancelRef : nat;
  mountProcess : option nat
}.

Record VrpConfig : Type := mkVrp {
  baseUri : option string;
  password : option string
}.

(** *** External effects, in the order they happen *)

Inductive OpenFlag : Type := FlagAppend | FlagWrite.

#[global] Instance OpenFlag_eq_dec : EqDecision OpenFlag.
Proof. solve_decision. Defined.

Inductive Event : Type :=
| EvEmitUpdate                                  (* debouncedEmitUpdate() *)
| EvKill (proc : nat)                           (* mountProcess.kill('SIGTERM') *)
| EvMkdir (path : string)                       (* fs.mkdir(path, {recursive}) *)
| EvSpawnMount (proc : nat) (args : list string) (* execa(rclonePath, mountArgs) *)
| EvSleep (ms : Z)                              (* setTimeout(resolve, ms) *)
| EvReaddir (path : string)                     (* fs.readdir(path) *)
| EvCleanup (mountPoint : string)               (* entry of cleanup() *)
| EvExec (cmd : string) (args : list string)    (* execa(cmd, args) in cleanup *)
| EvRmdir (path : string)                       (* fs.rmdir(path) *)
| EvStat (path : string)                        (* fsPromises.stat(path) *)
| EvOpenRead (path : string) (start : Z)        (* createReadStream(path, {start}) *)
| EvOpenWrite (path : string) (flag : OpenFlag) (* createWriteStream(path, {flags}) *)
| EvDestroyRead (path : string)                 (* readStream.destroy() *)
| EvDestroyWrite (path : string)                (* writeStream.destroy() *)
| EvWriteEnd (path : string).                   (* writeStream.end() *)

#[global] Instance Event_eq_dec : EqDecision Event.
Proof. solve_decision. Defined.

(** *** The world *)

(** The state of the processor ([vrpConfig], [activeDownloads]), of its
    collaborators (the queue, the destination file system) and of the run
    (closure cells, the mount points a mount process serves, process
    handles, the event-loop clock, the log). *)
Record World : Type := mkWorld {
  vrpConfig : option VrpConfig;
  activeDownloads : gmap string DownloadController;
  queue : list DownloadItem;
  cells : list CancelCell;
  destFs : gmap string (list byte);
  mounts : list string;
  nextProc : nat;
  clock : nat;
  trace : list Event
}.

Definition setActive (r : gmap string DownloadController) (w : World) : World :=
  mkWorld (vrpConfig w) r (queue w) (cells w) (destFs w)
          (mounts w) (nextProc w) (clock w) (trace w).
Definition setQueue (q : list DownloadItem) (w : World) : World :=
  mkWorld (vrpConfig w) (activeDownloads w) q (cells w) (destFs w)
          (mounts w) (nextProc w) (clock w) (trace w).
Definition setCells (c : list CancelCell) (w : World) : World :=
  mkWorld (vrpConfig w) (activeDownloads w) (queue w) c (destFs w)
          (mounts w) (nextProc w) (clock w) (trace w).
Definition setDestFs (f : gmap string (list byte)) (w : World) : World :=
  mkWorld (vrpConfig w) (activeDownloads w) (queue w) (cells w) f
          (mounts w) (nextProc w) (clock w) (trace w).
Definition setMounts (m : list string) (w : World) : World :=
  mkWorld (vrpConfig w) (activeDownloads w) (queue w) (cells w) (destFs w)
          m (nextProc w) (clock w) (trace w).
Definition setNextProc (n : nat) (w : World) : World :=
  mkWorld (vrpConfig w) (activeDownloads w) (queue w) (cells w) (destFs w)
          (mounts w) n (clock w) (trace w).
Definition setClock (n : nat) (w : World) : World :=
  mkWorld (vrpConfig w) (activeDownloads w) (queue w) (cells w) (destFs w)
          (mounts w) (nextProc w) n (trace w).
Definition emit (e : Event) (w : World) : World :=
  mkWorld (vrpConfig w) (activeDownloads w) (queue w) (cells w) (destFs w)
          (mounts w) (nextProc w) (clock w) (trace w ++ [e]).

(** [cancellationToken.cancelled] of cell [r]; a cell that was never
    allocated reads as not cancelled. *)
Definition tokenOf (r : nat) (w : World) : bool :=
  match cells w !! r with
  | Some c => tokenCancelled c
  | None => false
  end.

Definition downloadCancelledOf (r : nat) (w : World) : bool :=
  match cells w !! r with
  | Some c => downloadCancelled c
  | None => false
  end.

(** The body of the [cancel] closure (lines 432-435). *)
Definition runCancel (r : nat) (w : World) : World :=
  setCells (<[r := mkCell true true]> (cells w)) w.

(** [downloadCancelled = true] alone (lines 450 and 505). *)
Definition markDownloadCancelled (r : nat) (w : World) : World :=
  setCells (<[r := mkCell (tokenOf r w) true]> (cells w)) w.

(** [queueManager.updateItem(key, updates)] and its result. *)
Definition updateItem (key : string) (u : ItemUpdates) (w : World) : bool * World :=
  (updateItemOk key (queue w), setQueue (updateQueue key u (queue w)) w).

End Model.

Import Model.

(* ===================================================================== *)
(** ** The synchronous methods: cancel and pause *)
(* ===================================================================== *)

Module Sync.

(** Lines 74-98 of [cancelDownload], repeated verbatim as lines 637-660 of
    [pauseDownload]: run the controller's [cancel], kill its mount process,
    drop the registry entry. Both [try] blocks only log on failure. *)
Definition stopController (key : string) (w : World) : World :=
  match activeDownloads w !! key with
  | Some ctl =>
      let w1 := runCancel (cancelRef ctl) w in
      let w2 := match mountProcess ctl with
                | Some p => emit (EvKill p) w1
                | None => w1
                end in
      setActive (delete key (activeDownloads w2)) w2
  | None => w
  end.

(** The [updates] object of [cancelDownload] (lines 103-114). *)
Definition cancelUpdates (item : DownloadItem) (finalStatus : FinalStatus)
           (errorMsg : option string) : ItemUpdates :=
  {| u_status :=
       if bool_decide (status item = Error ∧ finalStatus = FCancelled)
       then None else Some (statusOf finalStatus);
     u_progress :=
       match finalStatus with FCancelled => Some (Js.Num 0) | FError => None end;
     u_error :=
       match finalStatus with
       | FError => Some (Js.or errorMsg (error item))
       | FCancelled => Some None
       end;
     u_speed := None;
     u_eta := None;
     u_extractProgress := None;
     u_pid := Some None;
     u_downloadPath := None |}.

(** [cancelDownload(releaseName, finalStatus = 'Cancelled', errorMsg?)]. *)
Definition cancelDownload (releaseName : string) (finalStatus : FinalStatus)
           (errorMsg : option string) (w : World) : World :=
  let w1 := stopController releaseName w in
  match findItem releaseName (queue w1) with
  | Some item =>
      let '(updated, w2) :=
        updateItem releaseName (cancelUpdates item finalStatus errorMsg) w1 in
      if updated then emit EvEmitUpdate w2 else w2
  | None => w1
  end.

(** [pauseDownload(releaseName)]. *)
Definition pauseDownload (releaseName : string) (w : World) : World :=
  let w1 := stopController releaseName w in
  match findItem releaseName (queue w1) with
  | Some item =>
      let '(updated, w2) :=
        updateItem releaseName
          {| u_status := Some Paused; u_progress := None; u_error := None;
             u_speed := None; u_eta := None; u_extractProgress := None;
             u_pid := Some None; u_downloadPath := None |} w1 in
      if updated then emit EvEmitUpdate w2 else w2
  | None => w1
  end.

(** [isDownloadActive(releaseName)]. *)
Definition isDownloadActive (releaseName : string) (w : World) : bool :=
  bool_decide (is_Some (activeDownloads w !! releaseName)).

(** [updateItemStatus] (lines 47-66). *)
Definition updateItemStatus (releaseName : string) (st : DownloadStatus)
           (prog : Js.num) (err speed eta : option string)
           (extract : option Js.num) (w : World) : World :=
  let updates :=
    {| u_status := Some st; u_progress := Some prog; u_error := Some err;
       u_speed := Some speed; u_eta := Some eta;
       u_extractProgress :=
         match extract with
         | Some x => Some (Some x)
         | None =>
             if bool_decide (st ≠ Extracting ∧ st ≠ Completed)
             then Some None else None
         end;
       u_pid := None; u_downloadPath := None |} in
  let '(updated, w1) := updateItem releaseName updates w in
  if updated then emit EvEmitUpdate w1 else w1.

End Sync.

Import Sync.

(* ===================================================================== *)
(** ** The environment and the monad of the asynchronous methods *)
(* ===================================================================== *)

Module Async.

(** What a [catch] clause can receive. *)
Inductive Err : Type :=
| JsError (message : string)                       (* an [Error] *)
| ExecaErr (shortMessage message : string) (exitCode : option Z)
| Thrown (text : string).                          (* any other value; [String(error)] *)

(** What other actors do while an [async] method is suspended: the public
    entry points [cancelDownload] and [pauseDownload], and writes of other
    services through the queue collaborator. *)
Inductive Action : Type :=
| ActCancel (key : string) (finalStatus : FinalStatus) (errorMsg : option string)
| ActPause (key : string)
| ActUpdateItem (key : string) (u : ItemUpdates)
| ActRemoveItem (key : string).

Definition runAction (a : Action) (w : World) : World :=
  match a with
  | ActCancel k f m => cancelDownload k f m w
  | ActPause k => pauseDownload k w
  | ActUpdateItem k u => snd (updateItem k u w)
  | ActRemoveItem k => setQueue (removeItem k (queue w)) w
  end.

Definition runActions (l : list Action) (w : World) : World :=
  fold_left (fun w a => runAction a w) l w.

(** An entry of a mounted directory, as [readdir({withFileTypes})] and
    [stat] show it. *)
#[warnings="-register-all"] Inductive Dirent : Type :=
| DFile (name : string) (content : list byte)
| DDir (name : string) (entries : list Dirent).

Definition direntName (d : Dirent) : string :=
  match d with DFile n _ => n | DDir n _ => n end.

Inductive Platform : Type := Linux | Darwin | Win32 | OtherPlatform.

(** Everything the processor takes from outside the class: library
    functions, the other services, the mounted remote, the operating system
    and the schedule of the other actors. *)
Record Env : Type := mkEnv {
  (* node:path, node:crypto, node:os, process *)
  join : string -> string -> string;
  md5hex : string -> string;
  tmpdir : string;
  platform : Platform;
  now : nat -> Z;                         (* [Date.now()] at an event-loop turn *)
  (* ./utils *)
  parseSizeToBytes : string -> Z;
  formatBytes : Z -> string;
  getAvailableDiskSpace : string -> option Z;
  (* formatSpeed / formatEta of the quotients computed at lines 484-487,
     given (bytes, elapsed ms) and (remaining, bytes, elapsed ms) *)
  speedText : Z -> Z -> string;
  etaText : Z -> Z -> Z -> string;
  (* dependencyService, mirrorService *)
  rclonePath : option string;
  activeMirror : option string;
  activeMirrorConfigPath : option string;
  activeMirrorRemoteName : option string;
  (* the file system *)
  mkdirFault : string -> option Err;      (* [fs.mkdir] rejects *)
  readyPoll : nat -> option (list string); (* the i-th readiness [readdir]; [None]: it rejects *)
  contentsFault : option Err;             (* the [readdir] of line 365 rejects *)
  mountTree : list Dirent;                (* the mounted remote *)
  chunkSize : nat;                        (* a read delivers [chunkSize + 1] bytes *)
  readFault : string -> nat -> option Err;   (* read stream 'error' at a chunk *)
  writeFault : string -> nat -> option Err;  (* write stream 'error' at a chunk *)
  (* the other actors: what runs at each turn of the event loop *)
  sched : nat -> list Action
}.

Inductive Outcome (A : Type) : Type :=
| Ret (a : A)          (* the promise resolves *)
| Throw (e : Err)      (* the promise rejects / an exception propagates *)
| Pending.             (* the promise never settles *)
Arguments Ret {A} a.
Arguments Throw {A} e.
Arguments Pending {A}.

Definition M (A : Type) : Type := World -> Outcome A * World.

Definition ret {A} (a : A) : M A := fun w => (Ret a, w).

Definition bind {A B} (m : M A) (k : A -> M B) : M B :=
  fun w =>
    match m w with
    | (Ret a, w') => k a w'
    | (Throw e, w') => (Throw e, w')
    | (Pending, w') => (Pending, w')
    end.

Definition throw {A} (e : Err) : M A := fun w => (Throw e, w).

(** A promise nobody resolves or rejects: the awaiting function stays
    suspended. *)
Definition pending {A} : M A := fun w => (Pending, w).

Definition tryCatch {A} (m : M A) (h : Err -> M A) : M A :=
  fun w =>
    match m w with
    | (Throw e, w') => h e w'
    | r => r
    end.

Definition gets {A} (f : World -> A) : M A := fun w => (Ret (f w), w).
Definition modify (f : World -> World) : M unit := fun w => (Ret tt, f w).

Declare Scope async_scope.
Delimit Scope async_scope with async.
Notation "x <- c1 ;; c2" := (bind c1 (fun x => c2))
  (at level 100, c1 at next level, right associativity) : async_scope.
Notation "c1 ;; c2" := (bind c1 (fun _ => c2))
  (at level 100, right associativity) : async_scope.

Section WithEnv.
Variable E : Env.

(** One turn of the event loop: the other actors run. *)
Definition turn (w : World) : World :=
  runActions (sched E (clock w)) (setClock (S (clock w)) w).

(** [await p]: the operation is issued, the function is suspended for a
    turn of the event loop, and resumes with the result or the rejection. *)
Definition await {A} (m : M A) : M A :=
  fun w =>
    match m w with
    | (Ret a, w') => (Ret a, turn w')
    | (Throw e, w') => (Throw e, turn w')
    | (Pending, w') => (Pending, w')
    end.

Definition dateNow : M Z := gets (fun w => now E (clock w)).

End WithEnv.

End Async.

Import Async.
Local Open Scope async_scope.

(* ===================================================================== *)
(** ** The asynchronous methods of [DownloadProcessor] *)
(* ===================================================================== *)

Module Processor.

(** The result of [startDownload], [startMountBasedDownload] and
    [resumeDownload]. *)
Record DownloadResult : Type := mkResult {
  success : bool;
  startExtraction : bool;
  finalState : option DownloadItem
}.

(** An element of the array [getFilesRecursively] returns:
    [{ relativePath, size }]. *)
Record FileDescriptor : Type := mkFile {
  relativePath : string;
  fileSize : Z
}.

Definition backslash : string := String (Ascii.ascii_of_nat 92) EmptyString.

(** [releaseName.replace(/[^a-zA-Z0-9-]/g, '_')] (line 252). *)
Definition keepChar (c : Ascii.ascii) : bool :=
  let n := Ascii.nat_of_ascii c in
  ((48 <=? n) && (n <=? 57) || (65 <=? n) && (n <=? 90)
   || (97 <=? n) && (n <=? 122) || (n =? 45))%nat.

Fixpoint sanitize (s : string) : string :=
  match s with
  | EmptyString => EmptyString
  | String c s' => String (if keepChar c then c else "_"%char) (sanitize s')
  end.

Definition failed : DownloadResult := mkResult false false None.

Section WithEnv.
Variable E : Env.

(** *** Enumeration *)

(** The body of the [for] loop of [getFilesRecursively] (lines 705-722) for
    one entry of [dir]; the recursive call of line 713 receives
    [currentBase] as [baseDir] and recomputes [baseDir || dir]. *)
Fixpoint scanEntry (dir currentBase : string) (entry : Dirent) : list FileDescriptor :=
  let fullPath := join E dir (direntName entry) in
  let relPath :=
    Js.replaceFirst currentBase
      (Js.replaceFirst (currentBase +:+ backslash)
         (Js.replaceFirst (currentBase +:+ "/") fullPath)) in
  match entry with
  | DDir _ sub => flat_map (scanEntry fullPath (Js.orS currentBase fullPath)) sub
  | DFile name content =>
      [mkFile (Js.orS relPath name) (Z.of_nat (length content))]
  end.

(** [getFilesRecursively(dir, baseDir?)] over the entries of [dir]. *)
Definition getFilesRecursively (dir : string) (baseDir : option string)
           (entries : list Dirent) : list FileDescriptor :=
  let currentBase := default dir (Js.or baseDir (Some dir)) in
  flat_map (scanEntry dir currentBase) entries.

(** *** The mounted files, by full path *)

Fixpoint entryFiles (dir : string) (entry : Dirent) : list (string * list byte) :=
  match entry with
  | DFile name content => [(join E dir name, content)]
  | DDir name sub => flat_map (entryFiles (join E dir name)) sub
  end.

Definition mountFiles (mountPoint : string) : list (string * list byte) :=
  flat_map (entryFiles mountPoint) (mountTree E).

Fixpoint assoc (path : string) (l : list (string * list byte)) : option (list byte) :=
  match l with
  | [] => None
  | (p, c) :: l' => if String.eqb p path then Some c else assoc path l'
  end.

(** The content of [path] on the mounts that are being served. *)
Definition readSource (path : string) (w : World) : option (list byte) :=
  assoc path (flat_map mountFiles (mounts w)).

(** *** The stream copy *)

(** The chunks a read stream delivers for [l]: [chunkSize + 1] bytes each, the
    last one shorter. [fuel] bounds the number of chunks. *)
Fixpoint chunksOf (fuel : nat) (l : list byte) : list (list byte) :=
  match fuel with
  | O => []
  | S f =>
      match l with
      | [] => []
      | _ => take (S (chunkSize E)) l :: chunksOf f (drop (S (chunkSize E)) l)
      end
  end.

(** [flags: startOffset > 0 ? 'a' : 'w'] (line 739). *)
Definition openFlag (startOffset : Z) : OpenFlag :=
  if 0 <? startOffset then FlagAppend else FlagWrite.

(** Opening the destination: ['w'] creates or truncates, ['a'] creates the
    file when it is missing and keeps its content otherwise. *)
Definition openDest (destPath : string) (flag : OpenFlag) (w : World) : World :=
  match flag with
  | FlagWrite => setDestFs (<[destPath := []]> (destFs w)) w
  | FlagAppend =>
      setDestFs (<[destPath := default [] (destFs w !! destPath)]> (destFs w)) w
  end.

(** [readStream.pipe(writeStream)]: a chunk is appended to the destination. *)
Definition appendDest (destPath : string) (chunk : list byte) (w : World) : World :=
  setDestFs (<[destPath := (default [] (destFs w !! destPath) ++ chunk)%list]> (destFs w)) w.

(** The events of the two streams after they are opened (lines 746-796).
    Before each event the event loop turns. At a ['data'] event the handler
    of line 746 runs first (it was registered before [pipe]), then the
    listener of [pipe] writes the chunk. The promise is resolved by
    ['finish'] only and rejected by an ['error'] only; [destroy()] without an
    argument emits neither, so after lines 748-750 the promise stays pending.
    The speed limit of [settingsService] is taken as 0 (not throttled), so
    the progress notification is the direct call of line 774. *)
Fixpoint pump (sourcePath destPath : string) (startOffset : Z)
         (onProgress : Z -> M unit) (ref : nat)
         (chunks : list (list byte)) (idx : nat) (copiedBytes : Z) : M Z :=
  match chunks with
  | [] =>
      (* 'end': writeStream.end(); a turn later 'finish': resolve *)
      modify (emit (EvWriteEnd destPath)) ;;
      modify (turn E) ;;
      ret (copiedBytes - startOffset)
  | chunk :: rest =>
      match readFault E sourcePath idx with
      | Some e =>
          (* readStream 'error' *)
          modify (emit (EvDestroyWrite destPath)) ;; throw e
      | None =>
          cancelled <- gets (tokenOf ref) ;;
          if (cancelled : bool) then
            modify (emit (EvDestroyRead sourcePath)) ;;
            modify (emit (EvDestroyWrite destPath)) ;;
            pending
          else
            let copied := copiedBytes + Z.of_nat (length chunk) in
            onProgress (copied - startOffset) ;;
            match writeFault E destPath idx with
            | Some e =>
                (* writeStream 'error' *)
                modify (emit (EvDestroyRead sourcePath)) ;; throw e
            | None =>
                modify (appendDest destPath chunk) ;;
                modify (turn E) ;;
                pump sourcePath destPath startOffset onProgress ref rest (S idx) copied
            end
      end
  end.

(** [copyFileWithProgress(sourcePath, destPath, startOffset, onProgress,
    cancellationToken)]. *)
Definition copyFileWithProgress (sourcePath destPath : string) (startOffset : Z)
           (onProgress : Z -> M unit) (ref : nat) : M Z :=
  modify (emit (EvOpenRead sourcePath startOffset)) ;;
  modify (emit (EvOpenWrite destPath (openFlag startOffset))) ;;
  modify (openDest destPath (openFlag startOffset)) ;;
  modify (turn E) ;;
  source <- gets (readSource sourcePath) ;;
  match source with
  | None =>
      (* readStream 'error': the file cannot be opened *)
      modify (emit (EvDestroyWrite destPath)) ;;
      throw (JsError ("ENOENT: no such file or directory, open " +:+ sourcePath))
  | Some content =>
      let rest := drop (Z.to_nat startOffset) content in
      pump sourcePath destPath startOffset onProgress ref
           (chunksOf (length rest) rest) 0 startOffset
  end.

(** *** Teardown *)

(** [cleanup(mountPoint, releaseName?)] (lines 588-630): every step is in a
    [try] of its own that only logs, so [cleanup] never throws. *)
Definition cleanup (mountPoint : string) (releaseName : option string) : M unit :=
  modify (emit (EvCleanup mountPoint)) ;;
  modify (fun w =>
            if Js.truthy releaseName then
              match activeDownloads w !! default "" releaseName with
              | Some ctl =>
                  match mountProcess ctl with
                  | Some p => emit (EvKill p) w
                  | None => w
                  end
              | None => w
              end
            else w) ;;
  match platform E with
  | Linux => await E (modify (emit (EvExec "fusermount" ["-u"; mountPoint])))
  | Darwin => await E (modify (emit (EvExec "umount" [mountPoint])))
  | Win32 => await E (modify (emit (EvExec "taskkill" ["/F"; "/IM"; "rclone.exe"])))
  | OtherPlatform => ret tt
  end ;;
  await E (modify (emit (EvRmdir mountPoint))).

(** *** One attempt *)

(** [!this.vrpConfig?.baseUri || !this.vrpConfig?.password] is false. *)
Definition configured (w : World) : bool :=
  match vrpConfig w with
  | Some c => Js.truthy (baseUri c) && Js.truthy (password c)
  | None => false
  end.

(** [item.size ? parseSizeToBytes(item.size) : 0]. *)
Definition gameSizeBytes (item : DownloadItem) : Z :=
  if Js.truthy (size item) then parseSizeToBytes E (default "" (size item)) else 0.

(** The disk-space test (lines 166-173 and 264-268): the message of the
    failure when the attempt is to be rejected. *)
Definition diskSpacePreflight (item : DownloadItem) : option string :=
  let requiredSpace := gameSizeBytes item * 2 in
  match getAvailableDiskSpace E (downloadPath item) with
  | None => None
  | Some availableSpace =>
      if (0 <? requiredSpace) && (availableSpace <? requiredSpace)
      then Some ("Insufficient disk space. Required: "
                 +:+ formatBytes E requiredSpace
                 +:+ ", Available: " +:+ formatBytes E availableSpace)
      else None
  end.

(** [await fs.mkdir(path, { recursive: true })]. *)
Definition mkdir (path : string) : M unit :=
  await E (modify (emit (EvMkdir path)) ;;
           match mkdirFault E path with
           | Some e => throw e
           | None => ret tt
           end).

(** [await fsPromises.stat(destPath)] inside [try]: the size, or [None] when
    the file does not exist. *)
Definition statDest (destPath : string) : M (option Z) :=
  await E (modify (emit (EvStat destPath)) ;;
           gets (fun w => (fun c => Z.of_nat (length c)) <$> destFs w !! destPath)).

(** The test of one readiness poll (lines 346-356): the [catch] clause only
    logs, and so does a listing that fails [testRead.length >= 0]. *)
Definition listingReady (testRead : option (list string)) : bool :=
  match testRead with
  | Some names => (0 <=? length names)%nat
  | None => false
  end.

(** The readiness loop (lines 343-357): [i] is the loop counter, [n] the
    number of iterations left; the result is [mountReady]. *)
Fixpoint pollMount (mountPoint : string) (i n : nat) : M bool :=
  match n with
  | O => ret false
  | S n' =>
      await E (modify (emit (EvSleep 1000))) ;;
      testRead <- await E (modify (emit (EvReaddir mountPoint)) ;; ret (readyPoll E i)) ;;
      if listingReady testRead then ret true else pollMount mountPoint (S i) n'
  end.

(** Lines 398-408: the bytes already present at the destinations. *)
Fixpoint alreadyCopied (destRoot : string) (files : list FileDescriptor)
         (totalCopied : Z) : M Z :=
  match files with
  | [] => ret totalCopied
  | file :: rest =>
      st <- statDest (join E destRoot (relativePath file)) ;;
      alreadyCopied destRoot rest (totalCopied + default 0 st)
  end.

(** The progress callback of lines 481-497. *)
Definition onProgress (key : string) (totalCopied totalSize startOffset startTime : Z)
           (progress : Z) : M unit :=
  fun w =>
    let fileProgress := totalCopied + progress in
    let overallProgress := Js.roundPercent fileProgress totalSize in
    let elapsed := now E (clock w) - startTime in
    let remaining := totalSize - fileProgress in
    (Ret tt,
     updateItemStatus key Downloading overallProgress None
       (Some (speedText E (fileProgress - startOffset) elapsed))
       (Some (etaText E remaining (fileProgress - startOffset) elapsed))
       None w).

(** Lines 464-499 for one file: the resume offset, then the copy. *)
Definition copyOne (key mountPoint destRoot : string) (ref : nat)
           (totalSize startTime totalCopied : Z) (file : FileDescriptor) : M Z :=
  let sourcePath := join E mountPoint (relativePath file) in
  let destPath := join E destRoot (relativePath file) in
  st <- statDest destPath ;;
  let startOffset := default 0 st in
  copyFileWithProgress sourcePath destPath startOffset
    (onProgress key totalCopied totalSize startOffset startTime) ref.

(** The copy loop (lines 440-508). *)
Fixpoint copyLoop (key mountPoint destRoot : string) (ref : nat)
         (totalSize startTime : Z) (files : list FileDescriptor)
         (totalCopied : Z) : M unit :=
  match files with
  | [] => ret tt
  | file :: rest =>
      currentItemState <- gets (fun w => findItem key (queue w)) ;;
      cancelled <- gets (tokenOf ref) ;;
      if match currentItemState with
         | None => true
         | Some it => bool_decide (status it ≠ Downloading)
         end || cancelled
      then modify (markDownloadCancelled ref)
      else
        mkdir (join E (join E destRoot (relativePath file)) "..") ;;
        bytesCopied <- copyOne key mountPoint destRoot ref totalSize startTime
                               totalCopied file ;;
        cancelled' <- gets (tokenOf ref) ;;
        if (cancelled' : bool) then modify (markDownloadCancelled ref)
        else copyLoop key mountPoint destRoot ref totalSize startTime rest
                      (totalCopied + bytesCopied)
  end.

(** Lines 282-327. *)
Definition mountSource (item : DownloadItem)
           (mirrorConfig : option (string * string)) : string :=
  match mirrorConfig with
  | Some (_, remoteName) => remoteName +:+ ":/Quest Games/" +:+ releaseName item
  | None => ":http:/" +:+ md5hex E (releaseName item +:+ String (Ascii.ascii_of_nat 10) EmptyString)
  end.

Definition mountArgs (item : DownloadItem) (mirrorConfig : option (string * string))
           (mountPoint : string) (w : World) : list string :=
  match mirrorConfig with
  | Some (configFilePath, _) =>
      ["mount"; mountSource item mirrorConfig; mountPoint;
       "--config"; configFilePath;
       "--no-check-certificate"; "--read-only";
       "--vfs-cache-mode"; "minimal"; "--vfs-read-ahead"; "128M"]
  | None =>
      ["mount"; mountSource item mirrorConfig; mountPoint;
       "--config"; match platform E with Win32 => "NUL" | _ => "/dev/null" end;
       "--http-url"; default "" (vrpConfig w ≫= baseUri);
       "--no-check-certificate"; "--read-only";
       "--vfs-cache-mode"; "minimal"; "--vfs-read-ahead"; "128M"]
  end.

(** [execa(rclonePath, mountArgs, ...)] (line 333): the process is started,
    not awaited. *)
Definition spawnMount (args : list string) (mountPoint : string) : M nat :=
  fun w =>
    let p := nextProc w in
    (Ret p, setMounts (mounts w ++ [mountPoint])
              (setNextProc (S p) (emit (EvSpawnMount p args) w))).

(** Lines 426-437: the token, the flag and the registry entry. *)
Definition registerController (key : string) (proc : nat) : M nat :=
  fun w =>
    let ref := length (cells w) in
    (Ret ref,
     setActive (<[key := mkController ref (Some proc)]> (activeDownloads w))
       (setCells (cells w ++ [mkCell false false]) w)).

Definition unregister (key : string) : M unit :=
  modify (fun w => setActive (delete key (activeDownloads w)) w).

(** Lines 523-526 and 548-551. *)
Definition unregisterIfActive (key : string) : M unit :=
  modify (fun w =>
            if isDownloadActive key w then
              snd (updateItem key
                     {| u_status := None; u_progress := None; u_error := None;
                        u_speed := None; u_eta := None; u_extractProgress := None;
                        u_pid := Some None; u_downloadPath := None |}
                     (setActive (delete key (activeDownloads w)) w))
            else w).

Definition clearPid (key : string) : M unit :=
  modify (fun w =>
            snd (updateItem key
                   {| u_status := None; u_progress := None; u_error := None;
                      u_speed := None; u_eta := None; u_extractProgress := None;
                      u_pid := Some None; u_downloadPath := None |} w)).

Definition setStatus (key : string) (st : DownloadStatus) (prog : Js.num)
           (err : option string) : M unit :=
  modify (updateItemStatus key st prog err None None None).

(** After the copy loop (lines 510-537). *)
Definition completeAttempt (key mountPoint : string) (ref : nat) : M DownloadResult :=
  downloadCancelled <- gets (downloadCancelledOf ref) ;;
  if (downloadCancelled : bool) then
    unregister key ;;
    finalItemState <- gets (fun w => findItem key (queue w)) ;;
    ret (mkResult false false finalItemState)
  else
    finalItemState <- gets (fun w => findItem key (queue w)) ;;
    if match finalItemState with
       | None => true
       | Some it => bool_decide (status it ≠ Downloading)
       end
    then
      cleanup mountPoint (Some key) ;;
      unregisterIfActive key ;;
      ret (mkResult false false finalItemState)
    else
      unregister key ;;
      clearPid key ;;
      cleanup mountPoint (Some key) ;;
      ret (mkResult true true finalItemState).

(** Lines 363-537: the mounted root is listed, the files are enumerated and
    copied. *)
Definition downloadFromMount (item : DownloadItem) (destRoot mountPoint : string)
           (mountProcess : nat) : M DownloadResult :=
  let key := releaseName item in
  (* lines 364-378 *)
  accessible <-
    tryCatch
      (await E (modify (emit (EvReaddir mountPoint)) ;;
                match contentsFault E with
                | Some e => throw e
                | None => ret tt
                end) ;;
       if bool_decide (length (mountTree E) = 0%nat)
       then throw (JsError "No files found in mounted directory")
       else ret true)
      (fun _ => ret false) ;;
  if negb accessible then
    setStatus key Error (Js.Num 0) (Some "Failed to access mounted directory") ;;
    cleanup mountPoint (Some key) ;;
    ret failed
  else
    filesToDownload <- await E (ret (getFilesRecursively mountPoint None (mountTree E))) ;;
    let totalSize := fold_left (fun acc f => acc + fileSize f) filesToDownload 0 in
    totalCopied <- alreadyCopied destRoot filesToDownload 0 ;;
    (if 0 <? totalCopied
     then setStatus key Downloading (Js.roundPercent totalCopied totalSize) None
     else ret tt) ;;
    startTime <- dateNow E ;;
    ref <- registerController key mountProcess ;;
    copyLoop key mountPoint destRoot ref totalSize startTime
             filesToDownload totalCopied ;;
    completeAttempt key mountPoint ref.

(** Lines 276-361: the item is set to Downloading, the mount process is
    started and polled. *)
Definition mountAndDownload (item : DownloadItem)
           (mirrorConfig : option (string * string))
           (destRoot mountPoint : string) : M DownloadResult :=
  let key := releaseName item in
  setStatus key Downloading (Js.Num 0) None ;;
  args <- gets (mountArgs item mirrorConfig mountPoint) ;;
  mountProcess <- spawnMount args mountPoint ;;
  mountReady <- pollMount mountPoint 0 10 ;;
  if negb mountReady
  then throw (JsError "Mount failed to become ready within 10 seconds")
  else downloadFromMount item destRoot mountPoint mountProcess.

(** The [try] block of [startMountBasedDownload] (lines 255-537). *)
Definition attemptBody (item : DownloadItem) (mirrorConfig : option (string * string))
           (destRoot mountPoint : string) : M DownloadResult :=
  let key := releaseName item in
  mkdir destRoot ;;
  mkdir mountPoint ;;
  await E (ret tt) ;;                       (* getAvailableDiskSpace *)
  match diskSpacePreflight item with
  | Some errorMsg =>
      setStatus key Error (Js.Num 0) (Some errorMsg) ;;
      cleanup mountPoint (Some key) ;;
      ret failed
  | None => mountAndDownload item mirrorConfig destRoot mountPoint
  end.

(** The message of lines 560-568. *)
Definition errorMessageOf (e : Err) : string :=
  Js.substring0 500
    match e with
    | ExecaErr shortMessage message _ => Js.orS shortMessage message
    | JsError message => message
    | Thrown text => text
    end.

(** The [catch] block of [startMountBasedDownload] (lines 538-584). *)
Definition attemptCatch (item : DownloadItem) (mountPoint : string) (e : Err)
  : M DownloadResult :=
  let key := releaseName item in
  currentItemState <- gets (fun w => findItem key (queue w)) ;;
  cleanup mountPoint (Some key) ;;
  unregisterIfActive key ;;
  match e with
  | ExecaErr _ _ (Some 143) => ret (mkResult false false currentItemState)
  | _ =>
      (match currentItemState with
       | Some it =>
           if bool_decide (status it ≠ Cancelled ∧ status it ≠ Error)
           then setStatus key Error (progress it) (Some (errorMessageOf e))
           else ret tt
       | None =>
           (* statusBeforeCatch is 'Unknown' *)
           setStatus key Error (Js.Num 0) (Some (errorMessageOf e))
       end) ;;
      finalItemState <- gets (fun w => findItem key (queue w)) ;;
      ret (mkResult false false finalItemState)
  end.

(** Lines 149-150 and 248-249: the destination root is written to the item. *)
Definition setDownloadPath (item : DownloadItem) (w : World) : World :=
  snd (updateItem (releaseName item)
         {| u_status := None; u_progress := None; u_error := None;
            u_speed := None; u_eta := None; u_extractProgress := None;
            u_pid := None;
            u_downloadPath := Some (join E (downloadPath item) (releaseName item)) |} w).

(** Line 253: the mount point of an attempt started at time [stamp]. *)
Definition mountPointFor (key : string) (stamp : Z) : string :=
  join E (tmpdir E)
       ("apprenticevr-mount-" +:+ sanitize key +:+ "-" +:+ pretty stamp).

(** [startMountBasedDownload(item, mirrorConfig?)]; [mirrorConfig] is
    [(configFilePath, remoteName)]. *)
Definition startMountBasedDownload (item : DownloadItem)
           (mirrorConfig : option (string * string)) : M DownloadResult :=
  let key := releaseName item in
  isConfigured <- gets configured ;;
  if negb isConfigured then
    setStatus key Error (Js.Num 0) (Some "Missing VRP configuration") ;;
    ret failed
  else if negb (Js.truthy (rclonePath E)) then
    setStatus key Error (Js.Num 0) (Some "Rclone dependency not found") ;;
    ret failed
  else
    let destRoot := join E (downloadPath item) key in
    modify (setDownloadPath item) ;;
    stamp <- dateNow E ;;
    let mountPoint := mountPointFor key stamp in
    tryCatch (attemptBody item mirrorConfig destRoot mountPoint)
             (attemptCatch item mountPoint).

(** Lines 188-225 of [startDownload]: the item is set to Downloading, then
    the active mirror is tried, then the public endpoint. *)
Definition viaMirrorOrPublic (item : DownloadItem) : M DownloadResult :=
  setStatus (releaseName item) Downloading (Js.Num 0) None ;;
  await E (ret tt) ;;                       (* mirrorService.getActiveMirror() *)
  viaMirror <-
    match activeMirror E with
    | Some _ =>
        if Js.truthy (activeMirrorConfigPath E)
           && Js.truthy (activeMirrorRemoteName E)
        then
          tryCatch
            (r <- startMountBasedDownload item
                    (Some (default "" (activeMirrorConfigPath E),
                           default "" (activeMirrorRemoteName E))) ;;
             ret (Some r))
            (fun _ => ret None)
        else ret None
    | None => ret None
    end ;;
  match viaMirror with
  | Some r => ret r
  | None => startMountBasedDownload item None
  end.

(** [startDownload(item)]. *)
Definition startDownload (item : DownloadItem) : M DownloadResult :=
  let key := releaseName item in
  isConfigured <- gets configured ;;
  if negb isConfigured then
    setStatus key Error (Js.Num 0) (Some "Missing VRP configuration") ;;
    ret failed
  else if negb (Js.truthy (rclonePath E)) then
    setStatus key Error (Js.Num 0) (Some "Rclone dependency not found") ;;
    ret failed
  else
    let destRoot := join E (downloadPath item) key in
    modify (setDownloadPath item) ;;
    created <- tryCatch (mkdir destRoot ;; ret None) (fun e => ret (Some e)) ;;
    match created with
    | Some mkdirError =>
        let errorMsg :=
          match mkdirError with
          | JsError message | ExecaErr _ message _ =>
              "Failed to create directory: " +:+ message
          | Thrown _ => "Failed to create directory " +:+ destRoot
          end in
        setStatus key Error (Js.Num 0) (Some (Js.substring0 500 errorMsg)) ;;
        ret failed
    | None =>
        await E (ret tt) ;;                 (* getAvailableDiskSpace *)
        match diskSpacePreflight item with
        | Some errorMsg =>
            setStatus key Error (Js.Num 0) (Some errorMsg) ;;
            ret failed
        | None => viaMirrorOrPublic item
        end
    end.

(** [resumeDownload(item)]. *)
Definition resumeDownload (item : DownloadItem) : M DownloadResult :=
  setStatus (releaseName item) Downloading (progress item) None ;;
  startMountBasedDownload item None.

End WithEnv.
End Processor.

Import Processor.

(* ===================================================================== *)
(** ** Vocabulary of the properties *)
(* ===================================================================== *)

Module Props.

(** Every file of the tree, at any depth, has a name, as every entry a
    directory listing returns has. *)
Fixpoint named (d : Dirent) : bool :=
  match d with
  | DFile name _ => negb (String.eqb name "")
  | DDir _ sub => forallb named sub
  end.



Definition isSpawn (e : Event) : bool :=
  match e with EvSpawnMount _ _ => true | _ => false end.

Definition isCleanup (e : Event) : bool :=
  match e with EvCleanup _ => true | _ => false end.

Definition notSpawn (e : Event) : bool := negb (isSpawn e).

Definition anyEvent (e : Event) : bool := true.

(** The number of events of a log that satisfy [p]. *)
Fixpoint countEv (p : Event -> bool) (t : list Event) : nat :=
  match t with
  | [] => 0
  | e :: t' => (if p e then 1 else 0) + countEv p t'
  end.

(** The events [cancelDownload] and [pauseDownload] log; every other event is
    logged by one of the asynchronous methods only. *)
Definition isActorEvent (e : Event) : bool :=
  match e with EvEmitUpdate | EvKill _ => true | _ => false end.

(** The log without the events of [isActorEvent]. *)
Fixpoint ownEvents (t : list Event) : list Event :=
  match t with
  | [] => []
  | e :: t' => if isActorEvent e then ownEvents t' else e :: ownEvents t'
  end.

(** The unmount command of [cleanup] (lines 606-614). *)
Definition unmountEvents (E : Env) (mountPoint : string) : list Event :=
  match platform E with
  | Linux => [EvExec "fusermount" ["-u"; mountPoint]]
  | Darwin => [EvExec "umount" [mountPoint]]
  | Win32 => [EvExec "taskkill" ["/F"; "/IM"; "rclone.exe"]]
  | OtherPlatform => []
  end.

(** [n] polls: a second of sleep, then a listing. *)
Fixpoint pollEvents (mountPoint : string) (n : nat) : list Event :=
  match n with
  | O => []
  | S n' => EvSleep 1000 :: EvReaddir mountPoint :: pollEvents mountPoint n'
  end.

(** The message of line 360. *)
Definition timeoutMessage : string := "Mount failed to become ready within 10 seconds".

(** [w'] comes after [w]: the configuration is the same and the log has grown
    by events that satisfy [ok]; in a [quiet] run (no other actor) the queue,
    the registry and the closure cells are the same too. *)
Definition frame (ok : Event -> bool) (quiet : bool) (w w' : World) : Prop :=
  vrpConfig w' = vrpConfig w /\
  (exists t, trace w' = (trace w ++ t)%list /\ forallb ok t = true) /\
  (quiet = true ->
   queue w' = queue w /\ activeDownloads w' = activeDownloads w /\ cells w' = cells w).

(** [m] takes every world to a later one. *)
Definition steps (ok : Event -> bool) (quiet : bool) {A} (m : M A) : Prop :=
  forall w, frame ok quiet w (snd (m w)).

(** The world at the disk-space test of [attemptBody]. *)
Definition atPreflight (E : Env) (root mp : string) (w : World) : World :=
  snd (await E (ret tt) (snd (mkdir E mp (snd (mkdir E root w))))).

(** The world at the disk-space test of [startDownload]. *)
Definition atStartPreflight (E : Env) (item : DownloadItem) (w : World) : World :=
  snd (await E (ret tt)
         (snd (mkdir E (join E (downloadPath item) (releaseName item))
                 (setDownloadPath E item w)))).

End Props.

Import Props.

(* ===================================================================== *)
(** ** Concrete hosts, items and worlds *)
(* ===================================================================== *)

Module Examples.

(** [path.join] for a normalized directory and one segment. *)
Definition simpleJoin (a b : string) : string := a +:+ "/" +:+ b.

(** "<n> GB" is [n] GiB for one digit [n]; anything else does not parse. *)
Definition parseGB (s : string) : Z :=
  match s with
  | String c " GB" =>
      let n := Z.of_nat (Ascii.nat_of_ascii c) - 48 in
      if (0 <=? n) && (n <=? 9) then n * 1073741824 else 0
  | _ => 0
  end.

Definition gameTree : list Dirent :=
  [DFile "a.bin" (list_byte_of_string "hello world");
   DDir "sub" [DFile "b.bin" (list_byte_of_string "xyz")]].

(** A Linux host with rclone installed and no mirror; reads deliver 4 bytes. *)
Definition hostEnv (space : option Z) (polls : nat -> option (list string))
           (schedule : nat -> list Action) : Env :=
  {| join := simpleJoin; md5hex := fun _ => "0f343b0931126a20f133d67c2b018a3b";
     tmpdir := "/tmp"; platform := Linux;
     now := fun n => 1000 * Z.of_nat n;
     parseSizeToBytes := parseGB; formatBytes := fun z => pretty z +:+ " B";
     getAvailableDiskSpace := fun _ => space;
     speedText := fun _ _ => "-"; etaText := fun _ _ _ => "--:--:--";
     rclonePath := Some "/usr/bin/rclone"; activeMirror := None;
     activeMirrorConfigPath := None; activeMirrorRemoteName := None;
     mkdirFault := fun _ => None; readyPoll := polls;
     contentsFault := None; mountTree := gameTree;
     chunkSize := 3; readFault := fun _ _ => None; writeFault := fun _ _ => None;
     sched := schedule |}.

Definition readyAt (k : nat) (i : nat) : option (list string) :=
  if (k <=? i)%nat then Some [] else None.

Definition nobody (n : nat) : list Action := [].

Definition gameA (st : DownloadStatus) (sz : option string) : DownloadItem :=
  mkItem "Game-A" st (Js.Num 0) None None None None None sz "/dl".

Definition vrp : option VrpConfig := Some (mkVrp (Some "https://example.org/") (Some "pw")).

(** A fresh processor with [Game-A] queued. *)
Definition idle (sz : option string) : World :=
  mkWorld vrp ∅ [gameA Queued sz] [] ∅ [] 0 0 [].

(** [Game-A] is being transferred by an attempt that registered cell 0 and
    mount process 0. *)
Definition busy : World :=
  mkWorld vrp {[ "Game-A" := mkController 0 (Some 0%nat) ]}
          [gameA Downloading None] [mkCell false false] ∅
          ["/tmp/apprenticevr-mount-Game-A-0"] 1 40 [].

(** [cancelDownload('Game-A')] at turn [t] of the event loop. *)
Definition cancelAt (t : nat) (n : nat) : list Action :=
  if (n =? t)%nat then [ActCancel "Game-A" FCancelled None] else [].

(** [Game-A] in the Error state at 40 percent, with a process identifier. *)
Definition failedGame : DownloadItem :=
  mkItem "Game-A" Error (Js.Num 40) (Some "disk full") None None None (Some 7) None "/dl".

(** [Game-B] downloading at 40 percent; no attempt is registered. *)
Definition gameB : DownloadItem :=
  mkItem "Game-B" Downloading (Js.Num 40) None None None None (Some 7) None "/dl".

Definition queued (it : DownloadItem) : World :=
  mkWorld None ∅ [it] [] ∅ [] 0 0 [].

(** The copy loop of [Game-A] has finished its last file. *)
Definition copied : World :=
  mkWorld vrp ∅ [gameA Downloading None] [mkCell false false] ∅ [] 1 9 [].


End Examples.

(* ===================================================================== *)
(** ** Further methods, vocabulary and hosts *)
(* ===================================================================== *)

Module Config.

(** [setVrpConfig(config)] (lines 37-39). *)
Definition setVrpConfig (config : option VrpConfig) (w : World) : World :=
  mkWorld config (activeDownloads w) (queue w) (cells w) (destFs w)
          (mounts w) (nextProc w) (clock w) (trace w).

(** [getVrpConfig()] (lines 42-44). *)
Definition getVrpConfig (w : World) : option VrpConfig := vrpConfig w.

End Config.

Module Terms.

(** The [updates] object of [pauseDownload] (lines 665-668). *)
Definition pauseUpdates : ItemUpdates :=
  {| u_status := Some Paused; u_progress := None; u_error := None;
     u_speed := None; u_eta := None; u_extractProgress := None;
     u_pid := Some None; u_downloadPath := None |}.

(** What [cancelDownload] and [pauseDownload] log for [key]: the kill of the
    mount process of its controller, then the notification of the update of
    its item. *)
Definition stopEvents (key : string) (w : World) : list Event :=
  (match activeDownloads w !! key ≫= mountProcess with
   | Some p => [EvKill p]
   | None => []
   end ++
   match findItem key (queue w) with
   | Some _ => [EvEmitUpdate]
   | None => []
   end)%list.

(** Exit code 143: the process was ended by SIGTERM (line 554). *)
Definition isSigterm (e : Err) : bool :=
  match e with
  | ExecaErr _ _ (Some 143) => true
  | _ => false
  end.

(** The teardown [cleanup] logs for a mount point. *)
Definition cleanupEvents (E : Env) (mountPoint : string) : list Event :=
  ([EvCleanup mountPoint] ++ unmountEvents E mountPoint ++ [EvRmdir mountPoint])%list.

(** The mirror configuration [startDownload] passes on (lines 191-213):
    that of the active mirror when it has a config file path and a remote
    name, none otherwise. *)
Definition chosenMirror (E : Env) : option (string * string) :=
  match activeMirror E with
  | Some _ =>
      if Js.truthy (activeMirrorConfigPath E) && Js.truthy (activeMirrorRemoteName E)
      then Some (default "" (activeMirrorConfigPath E), default "" (activeMirrorRemoteName E))
      else None
  | None => None
  end.



End Terms.

Module Laws.

(** [m] takes every world to one related to it by [R], whether it returns,
    throws or stays pending. *)
Definition keeps (R : World -> World -> Prop) {A} (m : M A) : Prop :=
  forall w, R w (snd (m w)).

(** [m] never rejects. *)
Definition noThrow {A} (m : M A) : Prop :=
  forall w e, fst (m w) <> Throw e.

(** When [m] starts in a world with [P] and returns, [Q] holds. *)
Definition returns {A} (P : World -> Prop) (m : M A) (Q : World -> Prop) : Prop :=
  forall w a w', P w -> m w = (Ret a, w') -> Q w'.

(** The promise has resolved. *)
Definition resolved {A} (o : Outcome A) : bool :=
  match o with Ret _ => true | _ => false end.

(** Every closure cell is still there, and what was set in it is still
    set. *)
Definition cellsGrow (w w' : World) : Prop :=
  forall (r : nat) (c : CancelCell),
    cells w !! r = Some c ->
    exists c' : CancelCell,
      cells w' !! r = Some c' /\
      (tokenCancelled c = true -> tokenCancelled c' = true) /\
      (downloadCancelled c = true -> downloadCancelled c' = true).


(** The destination files are the same. *)
Definition sameDest (w w' : World) : Prop := destFs w' = destFs w.

(** The registry has no entry for [key]. *)
Definition inactive (key : string) (w : World) : Prop :=
  activeDownloads w !! key = None.

(** A release without a registry entry is still without one. *)
Definition staysInactive (key : string) (w w' : World) : Prop :=
  inactive key w -> inactive key w'.

End Laws.

Module Calm.

(** Nothing but the log and the clock has changed. *)
Definition still (w w' : World) : Prop :=
  cells w' = cells w /\ activeDownloads w' = activeDownloads w /\
  mounts w' = mounts w /\ destFs w' = destFs w /\ queue w' = queue w /\
  vrpConfig w' = vrpConfig w.

(** The item of [key] is queued and Downloading. *)
Definition downloading (key : string) (w : World) : Prop :=
  exists it, findItem key (queue w) = Some it /\ status it = Downloading.

(** The registry, the cells and the mounts are the same, no destination
    other than [dest] has changed, and the item of [key] is still
    Downloading if it was. *)
Definition calm (key dest : string) (w w' : World) : Prop :=
  cells w' = cells w /\ activeDownloads w' = activeDownloads w /\
  mounts w' = mounts w /\
  (forall p, p <> dest -> destFs w' !! p = destFs w !! p) /\
  (downloading key w -> downloading key w').

(** The registry, the cells, the mounts and the destination files are the
    same, and the item of [key] is still Downloading if it was. *)
Definition steady (key : string) (w w' : World) : Prop :=
  cells w' = cells w /\ activeDownloads w' = activeDownloads w /\
  mounts w' = mounts w /\ destFs w' = destFs w /\
  (downloading key w -> downloading key w').

(** The strings of a list are pairwise different. *)
Fixpoint distinct (l : list string) : bool :=
  match l with
  | [] => true
  | x :: l' => negb (existsb (String.eqb x) l') && distinct l'
  end.

(** No file-system operation of the host fails. *)
Definition faultless (E : Env) : Prop :=
  (forall path, mkdirFault E path = None) /\
  contentsFault E = None /\
  (forall path i, readFault E path i = None) /\
  (forall path i, writeFault E path i = None).

End Calm.

Module Paths.

(** [pat] occurs in [s] at some position. *)
Fixpoint occurs (pat s : string) : bool :=
  String.prefix pat s ||
  match s with
  | EmptyString => false
  | String _ s' => occurs pat s'
  end.

(** The files under an entry, each with its path relative to the listed
    root, written with [/] between the segments; [prefix] is the path of the
    directory the entry is in, with its trailing [/]. *)
Fixpoint relEntry (prefix : string) (entry : Dirent) : list (string * list byte) :=
  match entry with
  | DFile name content => [(prefix +:+ name, content)]
  | DDir name sub => flat_map (relEntry (prefix +:+ name +:+ "/")) sub
  end.

(** The files of a tree, each with its relative path and its content. *)
Definition relFiles (entries : list Dirent) : list (string * list byte) :=
  flat_map (relEntry "") entries.

(** The relative paths of the files of a tree. *)
Definition relPaths (entries : list Dirent) : list string :=
  map fst (relFiles entries).

(** A character [sanitize] lets through or produces. *)
Definition safeChar (c : Ascii.ascii) : bool :=
  keepChar c || Ascii.eqb c "_"%char.

(** [path.join] on this host puts a [/] between a directory and a segment. *)
Definition posixJoin (E : Env) : Prop :=
  forall a b, join E a b = a +:+ "/" +:+ b.

End Paths.

Module Hosts.

Import Examples.

(** [E] with another rclone path, another mounted tree and other failures of
    [mkdir], of the listing of the mounted root and of the streams. *)
Definition withFaults (rclone : option string) (mkdirs : string -> option Err)
           (contents : option Err) (tree : list Dirent)
           (reads writes : string -> nat -> option Err) (E : Env) : Env :=
  {| join := join E; md5hex := md5hex E; tmpdir := tmpdir E; platform := platform E;
     now := now E; parseSizeToBytes := parseSizeToBytes E; formatBytes := formatBytes E;
     getAvailableDiskSpace := getAvailableDiskSpace E;
     speedText := speedText E; etaText := etaText E;
     rclonePath := rclone; activeMirror := activeMirror E;
     activeMirrorConfigPath := activeMirrorConfigPath E;
     activeMirrorRemoteName := activeMirrorRemoteName E;
     mkdirFault := mkdirs; readyPoll := readyPoll E;
     contentsFault := contents; mountTree := tree;
     chunkSize := chunkSize E; readFault := reads; writeFault := writes;
     sched := sched E |}.

(** The host of [Examples] with a mount that is ready at the first poll and
    nobody else running. *)
Definition quietHost : Env := hostEnv None (readyAt 0) nobody.

(** No rclone binary is installed. *)
Definition noRclone : Env :=
  withFaults None (fun _ => None) None gameTree (fun _ _ => None) (fun _ _ => None) quietHost.

(** The download directory cannot be created. *)
Definition readOnlyDisk : Env :=
  withFaults (Some "/usr/bin/rclone")
    (fun _ => Some (JsError "EACCES: permission denied, mkdir '/dl/Game-A'"))
    None gameTree (fun _ _ => None) (fun _ _ => None) quietHost.

(** The remote is mounted and has no entries. *)
Definition emptyRemote : Env :=
  withFaults (Some "/usr/bin/rclone") (fun _ => None) None [] (fun _ _ => None)
    (fun _ _ => None) quietHost.


(** A host with an active mirror. *)
Definition mirrorHost : Env :=
  {| join := simpleJoin; md5hex := fun _ => "0f343b0931126a20f133d67c2b018a3b";
     tmpdir := "/tmp"; platform := Linux;
     now := fun n => 1000 * Z.of_nat n;
     parseSizeToBytes := parseGB; formatBytes := fun z => pretty z +:+ " B";
     getAvailableDiskSpace := fun _ => None;
     speedText := fun _ _ => "-"; etaText := fun _ _ _ => "--:--:--";
     rclonePath := Some "/usr/bin/rclone"; activeMirror := Some "eu-1";
     activeMirrorConfigPath := Some "/cfg/eu-1.conf";
     activeMirrorRemoteName := Some "eu1";
     mkdirFault := fun _ => None; readyPoll := fun _ => None;
     contentsFault := None; mountTree := gameTree;
     chunkSize := 3; readFault := fun _ _ => None; writeFault := fun _ _ => None;
     sched := nobody |}.

End Hosts.

(* ===================================================================== *)
(** ** The queue and [cancelDownload] *)
(* ===================================================================== *)

Module QueueFacts.

Lemma releaseName_applyUpdates u it : releaseName (applyUpdates u it) = releaseName it.
Proof. reflexivity. Qed.

Lemma findItem_updateQueue key u q :
  findItem key (updateQueue key u q) = applyUpdates u <$> findItem key q.
Proof.
  induction q as [|it q IH]; simpl; [reflexivity|].
  destruct (String.eqb (releaseName it) key) eqn:Hk; simpl.
  - rewrite Hk. reflexivity.
  - rewrite Hk. exact IH.
Qed.

Lemma updateQueue_twice key u1 u2 q :
  (forall it, findItem key q = Some it ->
              applyUpdates u2 (applyUpdates u1 it) = applyUpdates u1 it) ->
  updateQueue key u2 (updateQueue key u1 q) = updateQueue key u1 q.
Proof.
  induction q as [|it q IH]; simpl; intros H; [reflexivity|].
  destruct (String.eqb (releaseName it) key) eqn:Hk; simpl; rewrite Hk.
  - f_equal. apply H. reflexivity.
  - f_equal. apply IH. exact H.
Qed.

Lemma updateItemOk_updateQueue key u q :
  updateItemOk key (updateQueue key u q) = updateItemOk key q.
Proof.
  unfold updateItemOk. rewrite findItem_updateQueue.
  destruct (findItem key q); reflexivity.
Qed.

Lemma or_idem a b : Js.or a (Js.or a b) = Js.or a b.
Proof. unfold Js.or. destruct (Js.truthy a); reflexivity. Qed.

End QueueFacts.

Import QueueFacts.

Module CancelFacts.

Lemma queue_stopController key w : queue (stopController key w) = queue w.
Proof.
  unfold stopController. destruct (activeDownloads w !! key) as [ctl|]; [|reflexivity].
  destruct (mountProcess ctl); reflexivity.
Qed.

Lemma active_stopController key w :
  activeDownloads (stopController key w) = delete key (activeDownloads w).
Proof.
  unfold stopController. destruct (activeDownloads w !! key) as [ctl|] eqn:H.
  - destruct (mountProcess ctl); reflexivity.
  - symmetry. apply delete_id. exact H.
Qed.

Lemma stopController_inactive key w :
  activeDownloads w !! key = None -> stopController key w = w.
Proof. unfold stopController. intros ->. reflexivity. Qed.

(** The queue after [cancelDownload], whatever the registry holds. *)
Lemma queue_cancelDownload key fs msg w :
  queue (cancelDownload key fs msg w) =
  match findItem key (queue w) with
  | Some item => updateQueue key (cancelUpdates item fs msg) (queue w)
  | None => queue w
  end.
Proof.
  unfold cancelDownload. rewrite queue_stopController.
  destruct (findItem key (queue w)) as [item|] eqn:Hf.
  - unfold updateItem. rewrite queue_stopController.
    destruct (updateItemOk key (queue w)); reflexivity.
  - apply queue_stopController.
Qed.

Lemma active_cancelDownload key fs msg w :
  activeDownloads (cancelDownload key fs msg w) = delete key (activeDownloads w).
Proof.
  unfold cancelDownload.
  destruct (findItem key (queue (stopController key w))) as [item|].
  - unfold updateItem. destruct (updateItemOk _ _); simpl; apply active_stopController.
  - apply active_stopController.
Qed.

Lemma cells_cancelDownload_inactive key fs msg w :
  activeDownloads w !! key = None ->
  cells (cancelDownload key fs msg w) = cells w.
Proof.
  intros H. unfold cancelDownload. rewrite (stopController_inactive _ _ H).
  destruct (findItem key (queue w)) as [item|]; [|reflexivity].
  unfold updateItem. destruct (updateItemOk _ _); reflexivity.
Qed.

Lemma untouched_cancelDownload key fs msg w :
  destFs (cancelDownload key fs msg w) = destFs w /\
  vrpConfig (cancelDownload key fs msg w) = vrpConfig w.
Proof.
  unfold cancelDownload, stopController, updateItem.
  destruct (activeDownloads w !! key) as [ctl|]; [destruct (mountProcess ctl)|];
    simpl; destruct (findItem key (queue w)); simpl;
    try destruct (updateItemOk _ _); split; reflexivity.
Qed.

Lemma cancelUpdates_stable item fs msg :
  let item' := applyUpdates (cancelUpdates item fs msg) item in
  applyUpdates (cancelUpdates item' fs msg) item' = item'.
Proof.
  destruct item as [n st pr er sp et ex pi sz dp].
  destruct fs; unfold cancelUpdates, applyUpdates; simpl;
    rewrite ?or_idem; destruct st; reflexivity.
Qed.

End CancelFacts.

Import CancelFacts.

Module CancelClaims.

(** Claim C4. [cancelDownload(key, finalStatus, errorMsg)] on a queued item:
    with ['Cancelled'] the progress becomes 0 and the error is cleared; with
    ['Error'] the status becomes Error and the error is [errorMsg] when that
    is a non-empty string, the item's previous error otherwise; an item that
    is in Error stays in Error whatever [finalStatus] is, and any other item
    takes [finalStatus]. *)
Theorem cancelDownload_terminal_update key fs msg w item :
  findItem key (queue w) = Some item ->
  exists item',
    findItem key (queue (cancelDownload key fs msg w)) = Some item' /\
    (fs = FCancelled -> progress item' = Js.Num 0 /\ error item' = None) /\
    (fs = FError ->
       status item' = Error /\
       error item' = (if Js.truthy msg then msg else error item)) /\
    (status item = Error -> status item' = Error) /\
    (status item <> Error -> status item' = statusOf fs).
Proof.
  intros Hf. rewrite queue_cancelDownload, Hf, findItem_updateQueue, Hf. simpl.
  eexists; split; [reflexivity|].
  destruct item as [n st pr er sp et ex pi sz dp]; simpl.
  split; [intros ->; split; reflexivity|].
  split; [intros ->; split; [destruct st|]; reflexivity|].
  split; [intros ->; destruct fs; reflexivity|].
  intros Hst. destruct fs, st; try reflexivity; congruence.
Qed.

(** A late cancel of an item that failed: the status stays Error, the
    progress is reset and the error cleared. *)
Lemma cancelDownload_terminal_update_witness :
  let it := Examples.failedGame in
  let w := Examples.queued it in
  exists item',
    findItem "Game-A" (queue (cancelDownload "Game-A" FCancelled None w)) = Some item' /\
    status item' = Error /\ progress item' = Js.Num 0 /\ error item' = None.
Proof.
  intros it w.
  destruct (cancelDownload_terminal_update "Game-A" FCancelled None w it eq_refl)
    as (item' & Hf & Hc & _ & He & _).
  exists item'. split; [exact Hf|]. split; [apply He; reflexivity|]. apply Hc. reflexivity.
Defined.

(** Claim C7. After [cancelDownload(key, ...)] the registry has no entry
    for [key], and the same call made a second time leaves the registry, the
    queue (the item state), the cancellation cells, the destination files
    and the configuration as the first call left them. *)
Theorem cancelDownload_idempotent key fs msg w :
  let w1 := cancelDownload key fs msg w in
  let w2 := cancelDownload key fs msg w1 in
  activeDownloads w1 !! key = None /\
  activeDownloads w2 = activeDownloads w1 /\
  queue w2 = queue w1 /\
  cells w2 = cells w1 /\
  (destFs w2 = destFs w1 /\
   vrpConfig w2 = vrpConfig w1).
Proof.
  intros w1 w2.
  assert (Hin : activeDownloads w1 !! key = None).
  { subst w1. rewrite active_cancelDownload. apply lookup_delete_eq. }
  split; [exact Hin|].
  split.
  { subst w2. rewrite active_cancelDownload. apply delete_id. exact Hin. }
  split.
  { subst w2. rewrite queue_cancelDownload.
    subst w1. rewrite queue_cancelDownload.
    destruct (findItem key (queue w)) as [item|] eqn:Hf.
    - rewrite findItem_updateQueue, Hf. simpl.
      apply updateQueue_twice. intros it Hit.
      rewrite Hf in Hit. injection Hit as <-. apply cancelUpdates_stable.
    - rewrite Hf. reflexivity. }
  split.
  { subst w2. apply cells_cancelDownload_inactive. exact Hin. }
  subst w2. split; apply untouched_cancelDownload.
Qed.

(** Claim C9. For a key without a registry entry and a queued item,
    [cancelDownload] still writes the terminal update: the status is
    [finalStatus] unless the item is in Error and [finalStatus] is
    ['Cancelled'], the pid is cleared, the progress is 0 for ['Cancelled'] and
    kept for ['Error'], the error is cleared for ['Cancelled'] and
    [errorMsg || item.error] for ['Error']; the queue is the one the same call
    gives in any world with the same queue, whatever its registry holds; the
    registry and the cells are not touched. *)
Theorem cancelDownload_inactive_key key fs msg w item :
  activeDownloads w !! key = None ->
  findItem key (queue w) = Some item ->
  let w' := cancelDownload key fs msg w in
  (exists item',
      findItem key (queue w') = Some item' /\
      status item' =
        (if bool_decide (status item = Error /\ fs = FCancelled)
         then Error else statusOf fs) /\
      pid item' = None /\
      progress item' =
        match fs with FCancelled => Js.Num 0 | FError => progress item end /\
      error item' =
        match fs with FCancelled => None | FError => Js.or msg (error item) end) /\
  (forall wa, queue wa = queue w ->
              queue (cancelDownload key fs msg wa) = queue w') /\
  activeDownloads w' = activeDownloads w /\
  cells w' = cells w.
Proof.
  intros Hin Hf w'. subst w'.
  split.
  { rewrite queue_cancelDownload, Hf, findItem_updateQueue, Hf. simpl.
    eexists; split; [reflexivity|].
    destruct item as [n st pr er sp et ex pi sz dp]; simpl.
    repeat split; destruct fs, st; reflexivity. }
  split.
  { intros wa Hq. rewrite !queue_cancelDownload, Hq. reflexivity. }
  split.
  { rewrite active_cancelDownload. apply delete_id. exact Hin. }
  apply cells_cancelDownload_inactive. exact Hin.
Qed.

(** [Game-B] was never registered: the cancel with ['Error'] still marks
    it. *)
Lemma cancelDownload_inactive_key_witness :
  let it := Examples.gameB in
  let w := Examples.queued it in
  exists item',
    findItem "Game-B" (queue (cancelDownload "Game-B" FError (Some "boom") w)) = Some item' /\
    status item' = Error /\ pid item' = None /\ error item' = Some "boom".
Proof.
  intros it w.
  destruct (cancelDownload_inactive_key "Game-B" FError (Some "boom") w it eq_refl eq_refl)
    as ((item' & Hf & Hs & Hp & _ & He) & _).
  exists item'. repeat split; assumption.
Defined.

End CancelClaims.

(* ===================================================================== *)
(** ** Enumeration *)
(* ===================================================================== *)

Module EnumFacts.

Lemma Dirent_deep_ind (P : Dirent -> Prop) :
  (forall name content, P (DFile name content)) ->
  (forall name sub, Forall P sub -> P (DDir name sub)) ->
  forall d, P d.
Proof.
  intros HF HD. fix IH 1. intros [name content|name sub].
  - apply HF.
  - apply HD. induction sub as [|d sub IHsub]; constructor; [apply IH|exact IHsub].
Qed.

Lemma orS_nonempty a b : b <> "" -> Js.orS a b <> "".
Proof.
  intros Hb. unfold Js.orS. destruct (String.eqb a "") eqn:Ha; [exact Hb|].
  intros ->. discriminate.
Qed.

Lemma Forall_flat_map {A B} (P : B -> Prop) (f : A -> list B) (l : list A) :
  Forall (fun x => Forall P (f x)) l -> Forall P (flat_map f l).
Proof.
  induction 1 as [|x l Hx _ IH]; simpl; [constructor|].
  apply Forall_app. split; assumption.
Qed.

Lemma scanEntry_nonempty E d :
  named d = true ->
  forall dir base, Forall (fun f => relativePath f <> "") (scanEntry E dir base d).
Proof.
  induction d as [name content|name sub IH] using Dirent_deep_ind; intros Hn dir base.
  - simpl. constructor; [|constructor]. simpl.
    apply orS_nonempty. simpl in Hn.
    intros ->. discriminate.
  - simpl. apply Forall_flat_map.
    simpl in Hn. rename Hn into Hsub.
    rewrite forallb_forall in Hsub.
    rewrite Forall_forall in IH |- *.
    intros d Hd. apply IH; [exact Hd|]. apply Hsub. apply list_elem_of_In. exact Hd.
Qed.

End EnumFacts.

Import EnumFacts.

Module EnumClaims.

(** Claim C10. Every descriptor [getFilesRecursively] returns, for any
    directory, any base and any tree whose files are named, has a non-empty
    [relativePath]: when stripping the base (with [/], with a backslash, or
    bare) leaves nothing, the entry's name is taken. *)
Theorem getFilesRecursively_relativePath_nonempty E dir baseDir entries :
  forallb named entries = true ->
  Forall (fun f => relativePath f <> "") (getFilesRecursively E dir baseDir entries).
Proof.
  intros Hn. unfold getFilesRecursively. apply Forall_flat_map.
  rewrite forallb_forall in Hn. rewrite Forall_forall.
  intros d Hd. apply scanEntry_nonempty. apply Hn. apply list_elem_of_In. exact Hd.
Qed.

(** The tree of [Game-A], mounted at [/tmp/m]. *)
Lemma getFilesRecursively_relativePath_nonempty_witness :
  forallb named Examples.gameTree = true /\
  Forall (fun f => relativePath f <> "")
         (getFilesRecursively (Examples.hostEnv None (Examples.readyAt 0) Examples.nobody)
            "/tmp/m" None Examples.gameTree).
Proof.
  split; [reflexivity|].
  apply getFilesRecursively_relativePath_nonempty. reflexivity.
Defined.

End EnumClaims.

(* ===================================================================== *)
(** ** Frames: what a run leaves alone *)
(* ===================================================================== *)

Module Frames.

Lemma countEv_app p t1 t2 : countEv p (t1 ++ t2) = (countEv p t1 + countEv p t2)%nat.
Proof. induction t1 as [|e t1 IH]; simpl; [reflexivity|]. rewrite IH. lia. Qed.

Lemma countEv_none p ok t :
  (forall e, ok e = true -> p e = false) -> forallb ok t = true -> countEv p t = 0%nat.
Proof.
  intros H. induction t as [|e t IH]; simpl; [reflexivity|].
  intros Ht. apply andb_prop in Ht as [He Ht]. rewrite (H _ He), (IH Ht). reflexivity.
Qed.

Lemma bind_ret {A B} (m : M A) (k : A -> M B) w a w1 :
  m w = (Ret a, w1) -> bind m k w = k a w1.
Proof. unfold bind. intros ->. reflexivity. Qed.

Lemma bind_throw {A B} (m : M A) (k : A -> M B) w e w1 :
  m w = (Throw e, w1) -> bind m k w = (Throw e, w1).
Proof. unfold bind. intros ->. reflexivity. Qed.

Lemma tryCatch_throw {A} (m : M A) h w e w1 :
  m w = (Throw e, w1) -> tryCatch m h w = h e w1.
Proof. unfold tryCatch. intros ->. reflexivity. Qed.

Lemma tryCatch_ret {A} (m : M A) h w a w1 :
  m w = (Ret a, w1) -> tryCatch m h w = (Ret a, w1).
Proof. unfold tryCatch. intros ->. reflexivity. Qed.

Section Frame.
Variable E : Env.
Variable ok : Event -> bool.
Variable quiet : bool.
Hypothesis ok_kill : forall p, ok (EvKill p) = true.
Hypothesis ok_emit : ok EvEmitUpdate = true.
Hypothesis quiet_sched : quiet = true -> forall n, sched E n = [].

Lemma frame_refl w : frame ok quiet w w.
Proof.
  split; [reflexivity|]. split; [|intros _; repeat split; reflexivity].
  exists []. split; [symmetry; apply app_nil_r|reflexivity].
Qed.

Lemma frame_trans w1 w2 w3 :
  frame ok quiet w1 w2 -> frame ok quiet w2 w3 -> frame ok quiet w1 w3.
Proof.
  intros (Hc1 & (t1 & Ht1 & Ho1) & Hq1) (Hc2 & (t2 & Ht2 & Ho2) & Hq2).
  split; [congruence|]. split.
  - exists (t1 ++ t2)%list. split.
    + rewrite Ht2, Ht1. symmetry. apply app_assoc.
    + rewrite forallb_app, Ho1, Ho2. reflexivity.
  - intros Hq. destruct (Hq1 Hq) as (? & ? & ?). destruct (Hq2 Hq) as (? & ? & ?).
    repeat split; congruence.
Qed.

Lemma frame_emit e w : ok e = true -> frame ok quiet w (emit e w).
Proof.
  intros He. split; [reflexivity|]. split; [|intros _; repeat split; reflexivity].
  exists [e]. split; [reflexivity|]. simpl. rewrite He. reflexivity.
Qed.

(** A change of the world that leaves the configuration and the log alone
    and, in a quiet run, the queue, the registry and the cells. *)
Lemma frame_same w w' :
  vrpConfig w' = vrpConfig w -> trace w' = trace w ->
  (quiet = true ->
   queue w' = queue w /\ activeDownloads w' = activeDownloads w /\ cells w' = cells w) ->
  frame ok quiet w w'.
Proof.
  intros Hc Ht Hq. split; [exact Hc|]. split; [|exact Hq].
  exists []. split; [rewrite Ht; symmetry; apply app_nil_r|reflexivity].
Qed.

Lemma frame_stopController key w : quiet = false -> frame ok quiet w (stopController key w).
Proof.
  intros Hq. unfold stopController.
  destruct (activeDownloads w !! key) as [ctl|]; [|apply frame_refl].
  destruct (mountProcess ctl) as [p|].
  - eapply frame_trans; [apply (frame_emit (EvKill p)), ok_kill|].
    apply frame_same; [reflexivity|reflexivity|congruence].
  - apply frame_same; [reflexivity|reflexivity|congruence].
Qed.

Lemma frame_updateThenEmit key u w :
  quiet = false ->
  frame ok quiet w
    (let '(updated, w2) := updateItem key u w in if updated then emit EvEmitUpdate w2 else w2).
Proof.
  intros Hq. unfold updateItem. destruct (updateItemOk key (queue w)).
  - eapply frame_trans; [|apply frame_emit, ok_emit].
    apply frame_same; [reflexivity|reflexivity|congruence].
  - apply frame_same; [reflexivity|reflexivity|congruence].
Qed.

Lemma frame_runAction a w : quiet = false -> frame ok quiet w (runAction a w).
Proof.
  intros Hq. destruct a as [k f m|k|k u|k]; simpl.
  - unfold cancelDownload. eapply frame_trans; [apply frame_stopController, Hq|].
    destruct (findItem k (queue (stopController k w))); [|apply frame_refl].
    apply frame_updateThenEmit, Hq.
  - unfold pauseDownload. eapply frame_trans; [apply frame_stopController, Hq|].
    destruct (findItem k (queue (stopController k w))); [|apply frame_refl].
    apply frame_updateThenEmit, Hq.
  - apply frame_same; [reflexivity|reflexivity|congruence].
  - apply frame_same; [reflexivity|reflexivity|congruence].
Qed.

Lemma frame_runActions l w : quiet = false -> frame ok quiet w (runActions l w).
Proof.
  intros Hq. revert w. induction l as [|a l IH]; intros w; simpl; [apply frame_refl|].
  eapply frame_trans; [apply frame_runAction, Hq|apply IH].
Qed.

Lemma frame_turn w : frame ok quiet w (turn E w).
Proof.
  unfold turn.
  assert (quiet = true \/ quiet = false) as [Hq|Hq] by (destruct quiet; auto).
  - rewrite (quiet_sched Hq). simpl.
    apply frame_same; [reflexivity|reflexivity|]. intros _. repeat split; reflexivity.
  - eapply frame_trans; [|apply frame_runActions; exact Hq].
    apply frame_same; [reflexivity|reflexivity|congruence].
Qed.

(** *** Computations *)

Lemma steps_ret {A} (a : A) : steps ok quiet (ret a).
Proof. intros w. apply frame_refl. Qed.

Lemma steps_throw {A} e : steps ok quiet (@throw A e).
Proof. intros w. apply frame_refl. Qed.

Lemma steps_pending {A} : steps ok quiet (@pending A).
Proof. intros w. apply frame_refl. Qed.

Lemma steps_gets {A} (f : World -> A) : steps ok quiet (gets f).
Proof. intros w. apply frame_refl. Qed.

Lemma steps_modify f : (forall w, frame ok quiet w (f w)) -> steps ok quiet (modify f).
Proof. intros H w. apply H. Qed.

Lemma steps_bind {A B} (m : M A) (k : A -> M B) :
  steps ok quiet m -> (forall a, steps ok quiet (k a)) -> steps ok quiet (bind m k).
Proof.
  intros Hm Hk w. unfold bind. specialize (Hm w).
  destruct (m w) as [[a|e|] w1]; simpl in *; [|exact Hm|exact Hm].
  eapply frame_trans; [exact Hm|apply Hk].
Qed.

Lemma steps_tryCatch {A} (m : M A) h :
  steps ok quiet m -> (forall e, steps ok quiet (h e)) -> steps ok quiet (tryCatch m h).
Proof.
  intros Hm Hh w. unfold tryCatch. specialize (Hm w).
  destruct (m w) as [[a|e|] w1]; simpl in *; [exact Hm| |exact Hm].
  eapply frame_trans; [exact Hm|apply Hh].
Qed.

Lemma steps_await {A} (m : M A) : steps ok quiet m -> steps ok quiet (await E m).
Proof.
  intros Hm w. unfold await. specialize (Hm w).
  destruct (m w) as [[a|e|] w1]; simpl in *; [| |exact Hm];
    (eapply frame_trans; [exact Hm|apply frame_turn]).
Qed.

Lemma steps_emit e : ok e = true -> steps ok quiet (modify (emit e)).
Proof. intros He. apply steps_modify. intros w. apply frame_emit, He. Qed.

Lemma steps_turn : steps ok quiet (modify (turn E)).
Proof. apply steps_modify, frame_turn. Qed.

Lemma steps_mkdir path : ok (EvMkdir path) = true -> steps ok quiet (mkdir E path).
Proof.
  intros He. unfold mkdir. apply steps_await, steps_bind; [apply steps_emit, He|].
  intros _. destruct (mkdirFault E path); [apply steps_throw|apply steps_ret].
Qed.

Lemma steps_spawnMount args mp :
  ok (EvSpawnMount 0 []) = true -> (forall p a, ok (EvSpawnMount p a) = ok (EvSpawnMount 0 [])) ->
  steps ok quiet (spawnMount args mp).
Proof.
  intros H0 Hall w. unfold spawnMount. simpl.
  eapply frame_trans; [apply (frame_emit (EvSpawnMount (nextProc w) args)); rewrite Hall; exact H0|].
  apply frame_same; [reflexivity|reflexivity|]. intros _. repeat split; reflexivity.
Qed.

Lemma steps_pollMount mp i n :
  ok (EvSleep 1000) = true -> ok (EvReaddir mp) = true ->
  steps ok quiet (pollMount E mp i n).
Proof.
  intros Hs Hr. revert i. induction n as [|n IH]; intros i; simpl; [apply steps_ret|].
  apply steps_bind; [apply steps_await, steps_emit, Hs|]. intros _.
  apply steps_bind.
  - apply steps_await, steps_bind; [apply steps_emit, Hr|]. intros _. apply steps_ret.
  - intros testRead. destruct (listingReady testRead); [apply steps_ret|apply IH].
Qed.

Lemma steps_cleanup mp key :
  ok (EvCleanup mp) = true -> (forall c a, ok (EvExec c a) = true) -> ok (EvRmdir mp) = true ->
  steps ok quiet (cleanup E mp key).
Proof.
  intros Hc He Hr. unfold cleanup.
  apply steps_bind; [apply steps_emit, Hc|]. intros _.
  apply steps_bind.
  { apply steps_modify. intros w. destruct (Js.truthy key); [|apply frame_refl].
    destruct (activeDownloads w !! default "" key) as [ctl|]; [|apply frame_refl].
    destruct (mountProcess ctl); [apply frame_emit, ok_kill|apply frame_refl]. }
  intros _. apply steps_bind.
  { destruct (platform E); try apply steps_await; try apply steps_emit; try apply He.
    apply steps_ret. }
  intros _. apply steps_await, steps_emit, Hr.
Qed.

Lemma steps_setStatus key st prog err :
  quiet = false -> steps ok quiet (setStatus key st prog err).
Proof.
  intros Hq. apply steps_modify. intros w. unfold updateItemStatus.
  apply frame_updateThenEmit, Hq.
Qed.

End Frame.

Lemma frame_count ok quiet p w w' :
  frame ok quiet w w' -> (forall e, ok e = true -> p e = false) ->
  countEv p (trace w') = countEv p (trace w).
Proof.
  intros (_ & (t & Ht & Ho) & _) H. rewrite Ht, countEv_app, (countEv_none p ok t H Ho). lia.
Qed.

Lemma frame_weaken ok ok' quiet w w' :
  (forall e, ok e = true -> ok' e = true) -> frame ok quiet w w' -> frame ok' quiet w w'.
Proof.
  intros H (Hc & (t & Ht & Ho) & Hq). split; [exact Hc|]. split; [|exact Hq].
  exists t. split; [exact Ht|]. rewrite forallb_forall in Ho |- *. intros e He. apply H, Ho, He.
Qed.

End Frames.

Import Frames.

Module Runs.

Lemma bind_gets {A B} (f : World -> A) (k : A -> M B) w : bind (gets f) k w = k (f w) w.
Proof. reflexivity. Qed.

Lemma bind_modify {B} f (k : unit -> M B) w : bind (modify f) k w = k tt (f w).
Proof. reflexivity. Qed.

Lemma bind_run {A B} (m : M A) (k : A -> M B) w a :
  fst (m w) = Ret a -> bind m k w = k a (snd (m w)).
Proof. unfold bind. destruct (m w) as [o w1]. simpl. intros ->. reflexivity. Qed.

Lemma bind_run_throw {A B} (m : M A) (k : A -> M B) w e :
  fst (m w) = Throw e -> bind m k w = (Throw e, snd (m w)).
Proof. unfold bind. destruct (m w) as [o w1]. simpl. intros ->. reflexivity. Qed.

Lemma bind_run_pending {A B} (m : M A) (k : A -> M B) w :
  fst (m w) = Pending -> bind m k w = (Pending, snd (m w)).
Proof. unfold bind. destruct (m w) as [o w1]. simpl. intros ->. reflexivity. Qed.

Lemma tryCatch_run {A} (m : M A) h w a :
  fst (m w) = Ret a -> tryCatch m h w = (Ret a, snd (m w)).
Proof. unfold tryCatch. destruct (m w) as [o w1]. simpl. intros ->. reflexivity. Qed.

Lemma tryCatch_run_throw {A} (m : M A) h w e :
  fst (m w) = Throw e -> tryCatch m h w = h e (snd (m w)).
Proof. unfold tryCatch. destruct (m w) as [o w1]. simpl. intros ->. reflexivity. Qed.

Lemma await_run E {A} (m : M A) w a :
  fst (m w) = Ret a -> fst (await E m w) = Ret a.
Proof. unfold await. destruct (m w) as [o w1]. simpl. intros ->. reflexivity. Qed.

Lemma mkdir_run E path w : mkdirFault E path = None -> fst (mkdir E path w) = Ret tt.
Proof. intros H. unfold mkdir. apply await_run. rewrite bind_modify, H. reflexivity. Qed.

Lemma cleanup_run E mp key w : fst (cleanup E mp key w) = Ret tt.
Proof.
  unfold cleanup. rewrite !bind_modify.
  destruct (platform E).
  1-3: erewrite bind_run by (apply await_run; reflexivity); apply await_run; reflexivity.
  rewrite (bind_run _ _ _ tt) by reflexivity. apply await_run. reflexivity.
Qed.

End Runs.

Import Runs.

Module Extends.

(** With every event allowed and other actors running, each method of the
    processor only extends the log and keeps the configuration. *)
Section All.
Variable E : Env.
Variable ok : Event -> bool.
Hypothesis ok_all : forall e, ok e = true.

Let okk : forall p, ok (EvKill p) = true := fun p => ok_all _.
Let oke : ok EvEmitUpdate = true := ok_all _.
Let nq : false = true -> forall n, sched E n = [].
Proof. discriminate. Qed.

Ltac base :=
  first [ apply steps_ret | apply steps_throw | apply steps_pending | apply steps_gets
        | apply (steps_turn E ok false okk oke nq)
        | apply steps_emit; apply ok_all
        | apply (steps_mkdir E ok false okk oke nq); apply ok_all
        | apply (steps_cleanup E ok false okk oke nq); intros; apply ok_all ].

Lemma loud_same w w' :
  vrpConfig w' = vrpConfig w -> trace w' = trace w -> frame ok false w w'.
Proof. intros Hc Ht. apply frame_same; [exact Hc|exact Ht|discriminate]. Qed.

Lemma steps_setStatus_any key st prog err : steps ok false (setStatus key st prog err).
Proof. apply (steps_setStatus ok false oke). reflexivity. Qed.

Lemma steps_onProgress key tc ts so st p : steps ok false (onProgress E key tc ts so st p).
Proof.
  intros w. unfold onProgress. simpl. unfold updateItemStatus.
  apply (frame_updateThenEmit ok false oke). reflexivity.
Qed.

Lemma steps_state (f : World -> World) :
  (forall w, vrpConfig (f w) = vrpConfig w /\ trace (f w) = trace w) ->
  steps ok false (modify f).
Proof. intros H. apply steps_modify. intros w. apply loud_same; apply H. Qed.

Lemma steps_pump src dest so onP ref chunks :
  (forall p, steps ok false (onP p)) ->
  forall idx copied, steps ok false (pump E src dest so onP ref chunks idx copied).
Proof.
  intros HonP. induction chunks as [|chunk rest IH]; intros idx copied; simpl.
  - apply steps_bind; [base|]. intros _. apply steps_bind; [base|]. intros _. base.
  - destruct (readFault E src idx).
    { apply steps_bind; [base|]. intros _. base. }
    apply steps_bind; [base|]. intros cancelled. destruct cancelled.
    { apply steps_bind; [base|]. intros _. apply steps_bind; [base|]. intros _. base. }
    apply steps_bind; [apply HonP|]. intros _.
    destruct (writeFault E dest idx).
    { apply steps_bind; [base|]. intros _. base. }
    apply steps_bind; [apply steps_state; intros w; split; reflexivity|]. intros _.
    apply steps_bind; [base|]. intros _. apply IH.
Qed.

Lemma steps_copyFileWithProgress src dest so onP ref :
  (forall p, steps ok false (onP p)) ->
  steps ok false (copyFileWithProgress E src dest so onP ref).
Proof.
  intros HonP. unfold copyFileWithProgress.
  apply steps_bind; [base|]. intros _. apply steps_bind; [base|]. intros _.
  apply steps_bind.
  { apply steps_state. intros w. unfold openDest. destruct (openFlag so); split; reflexivity. }
  intros _. apply steps_bind; [base|]. intros _. apply steps_bind; [base|]. intros source.
  destruct source.
  - apply steps_pump, HonP.
  - apply steps_bind; [base|]. intros _. base.
Qed.

Lemma steps_statDest dest : steps ok false (statDest E dest).
Proof.
  unfold statDest. apply (steps_await E ok false okk oke nq).
  apply steps_bind; [base|]. intros _. base.
Qed.

Lemma steps_copyOne key mp root ref ts st tc file :
  steps ok false (copyOne E key mp root ref ts st tc file).
Proof.
  unfold copyOne. apply steps_bind; [apply steps_statDest|]. intros s.
  apply steps_copyFileWithProgress. intros p. apply steps_onProgress.
Qed.

Lemma steps_markDownloadCancelled ref : steps ok false (modify (markDownloadCancelled ref)).
Proof. apply steps_state. intros w. split; reflexivity. Qed.

Lemma steps_copyLoop key mp root ref ts st files :
  forall tc, steps ok false (copyLoop E key mp root ref ts st files tc).
Proof.
  induction files as [|file rest IH]; intros tc; simpl; [base|].
  apply steps_bind; [base|]. intros cur. apply steps_bind; [base|]. intros c.
  destruct (_ || c); [apply steps_markDownloadCancelled|].
  apply steps_bind; [base|]. intros _.
  apply steps_bind; [apply steps_copyOne|]. intros n.
  apply steps_bind; [base|]. intros c'.
  destruct c'; [apply steps_markDownloadCancelled|apply IH].
Qed.

Lemma steps_alreadyCopied root files : forall tc, steps ok false (alreadyCopied E root files tc).
Proof.
  induction files as [|file rest IH]; intros tc; simpl; [base|].
  apply steps_bind; [apply steps_statDest|]. intros s. apply IH.
Qed.

Lemma steps_unregister key : steps ok false (unregister key).
Proof. apply steps_state. intros w. split; reflexivity. Qed.

Lemma steps_unregisterIfActive key : steps ok false (unregisterIfActive key).
Proof.
  apply steps_state. intros w. destruct (isDownloadActive key w); split; reflexivity.
Qed.

Lemma steps_clearPid key : steps ok false (clearPid key).
Proof. apply steps_state. intros w. split; reflexivity. Qed.

Lemma steps_completeAttempt key mp ref : steps ok false (completeAttempt E key mp ref).
Proof.
  unfold completeAttempt. apply steps_bind; [base|]. intros c. destruct c.
  - apply steps_bind; [apply steps_unregister|]. intros _.
    apply steps_bind; [base|]. intros f. base.
  - apply steps_bind; [base|]. intros f.
    destruct (match f with Some it => _ | None => _ end).
    + apply steps_bind; [base|]. intros _.
      apply steps_bind; [apply steps_unregisterIfActive|]. intros _. base.
    + apply steps_bind; [apply steps_unregister|]. intros _.
      apply steps_bind; [apply steps_clearPid|]. intros _.
      apply steps_bind; [base|]. intros _. base.
Qed.

Lemma steps_attemptCatch item mp e : steps ok false (attemptCatch E item mp e).
Proof.
  unfold attemptCatch. apply steps_bind; [base|]. intros cur.
  apply steps_bind; [base|]. intros _.
  apply steps_bind; [apply steps_unregisterIfActive|]. intros _.
  assert (Hrest : steps ok false
    ((match cur with
       | Some it =>
           if bool_decide (status it ≠ Cancelled ∧ status it ≠ Error)
           then setStatus (releaseName item) Error (progress it) (Some (errorMessageOf e))
           else ret tt
       | None => setStatus (releaseName item) Error (Js.Num 0) (Some (errorMessageOf e))
       end) ;;
      finalItemState <- gets (fun w => findItem (releaseName item) (queue w)) ;;
      ret (mkResult false false finalItemState))).
  { apply steps_bind.
    - destruct cur as [it|]; [destruct (bool_decide _)|]; try apply steps_setStatus_any. base.
    - intros _. apply steps_bind; [base|]. intros f. base. }
  destruct e as [m|sm m [c|]|t]; try exact Hrest.
  destruct c as [|c|c]; try exact Hrest.
  do 8 (destruct c as [c|c|]; try exact Hrest).
  base.
Qed.

End All.
End Extends.

Import Extends.

(* ===================================================================== *)
(** ** One attempt, up to the mount *)
(* ===================================================================== *)

Module AttemptFacts.

Lemma frame_mono ok quiet p w w' :
  frame ok quiet w w' -> (countEv p (trace w) <= countEv p (trace w'))%nat.
Proof. intros (_ & (t & -> & _) & _). rewrite countEv_app. lia. Qed.

Lemma frame_vrpConfig ok quiet w w' : frame ok quiet w w' -> vrpConfig w' = vrpConfig w.
Proof. intros (H & _). exact H. Qed.

Lemma configured_frame ok quiet w w' : frame ok quiet w w' -> configured w' = configured w.
Proof. intros H. unfold configured. rewrite (frame_vrpConfig _ _ _ _ H). reflexivity. Qed.

Section Any.
Variable E : Env.

Let anyk : forall p, anyEvent (EvKill p) = true := fun _ => eq_refl.
Let nq : false = true -> forall n, sched E n = [].
Proof. discriminate. Qed.
Let all : forall e, anyEvent e = true := fun _ => eq_refl.

Lemma steps_downloadFromMount item root mp proc :
  steps anyEvent false (downloadFromMount E item root mp proc).
Proof.
  unfold downloadFromMount.
  apply steps_bind.
  { apply steps_tryCatch; [|intros e; apply steps_ret].
    apply steps_bind.
    - apply (steps_await E anyEvent false anyk eq_refl nq).
      apply steps_bind; [apply steps_emit; reflexivity|]. intros _.
      destruct (contentsFault E); [apply steps_throw|apply steps_ret].
    - intros _. destruct (bool_decide _); [apply steps_throw|apply steps_ret]. }
  intros accessible. destruct accessible; simpl.
  - apply steps_bind.
    { apply (steps_await E anyEvent false anyk eq_refl nq), steps_ret. }
    intros files. apply steps_bind; [apply (steps_alreadyCopied E anyEvent all)|].
    intros tc. apply steps_bind.
    { destruct (0 <? tc); [apply (steps_setStatus_any anyEvent all)|apply steps_ret]. }
    intros _. apply steps_bind; [apply steps_gets|]. intros st.
    apply steps_bind.
    { intros w. apply (loud_same anyEvent); reflexivity. }
    intros ref. apply steps_bind; [apply (steps_copyLoop E anyEvent all)|].
    intros _. apply (steps_completeAttempt E anyEvent all).
  - apply steps_bind; [apply (steps_setStatus_any anyEvent all)|]. intros _.
    apply steps_bind.
    { apply (steps_cleanup E anyEvent false anyk eq_refl nq); intros; reflexivity. }
    intros _. apply steps_ret.
Qed.

Lemma steps_mountAndDownload item mc root mp :
  steps anyEvent false (mountAndDownload E item mc root mp).
Proof.
  unfold mountAndDownload.
  apply steps_bind; [apply (steps_setStatus_any anyEvent all)|]. intros _.
  apply steps_bind; [apply steps_gets|]. intros args.
  apply steps_bind.
  { apply (steps_spawnMount anyEvent false); [reflexivity|reflexivity]. }
  intros proc. apply steps_bind.
  { apply (steps_pollMount E anyEvent false anyk eq_refl nq); reflexivity. }
  intros ready. destruct ready; simpl;
    [apply steps_downloadFromMount|apply steps_throw].
Qed.

Lemma steps_attemptBody item mc root mp :
  steps anyEvent false (attemptBody E item mc root mp).
Proof.
  unfold attemptBody.
  apply steps_bind; [apply (steps_mkdir E anyEvent false anyk eq_refl nq); reflexivity|].
  intros _.
  apply steps_bind; [apply (steps_mkdir E anyEvent false anyk eq_refl nq); reflexivity|].
  intros _.
  apply steps_bind; [apply (steps_await E anyEvent false anyk eq_refl nq), steps_ret|].
  intros _. destruct (diskSpacePreflight E item).
  - apply steps_bind; [apply (steps_setStatus_any anyEvent all)|]. intros _.
    apply steps_bind.
    { apply (steps_cleanup E anyEvent false anyk eq_refl nq); intros; reflexivity. }
    intros _. apply steps_ret.
  - apply steps_mountAndDownload.
Qed.

Lemma steps_startMountBasedDownload item mc :
  steps anyEvent false (startMountBasedDownload E item mc).
Proof.
  unfold startMountBasedDownload.
  apply steps_bind; [apply steps_gets|]. intros c. destruct c; simpl.
  - destruct (Js.truthy (rclonePath E)); simpl.
    + apply steps_bind.
      { intros w. apply (loud_same anyEvent); reflexivity. }
      intros _. apply steps_bind; [apply steps_gets|]. intros stamp.
      apply steps_tryCatch; [apply steps_attemptBody|].
      intros e. apply (steps_attemptCatch E anyEvent all).
    + apply steps_bind; [apply (steps_setStatus_any anyEvent all)|]. intros _. apply steps_ret.
  - apply steps_bind; [apply (steps_setStatus_any anyEvent all)|]. intros _. apply steps_ret.
Qed.

(** The mount process is started: the log gains a spawn. *)
Lemma mountAndDownload_spawns item mc root mp w :
  (countEv isSpawn (trace w) <
   countEv isSpawn (trace (snd (mountAndDownload E item mc root mp w))))%nat.
Proof.
  unfold mountAndDownload, setStatus.
  rewrite bind_modify, bind_gets.
  set (w1 := updateItemStatus _ _ _ _ _ _ _ w).
  set (args := mountArgs E item mc mp w1).
  assert (H1 : frame anyEvent false w w1).
  { apply (steps_setStatus_any anyEvent all (releaseName item) Downloading (Js.Num 0) None w). }
  unfold bind at 1. unfold spawnMount at 1.
  set (w2 := setMounts _ (setNextProc _ (emit (EvSpawnMount (nextProc w1) args) w1))).
  match goal with |- context [snd (?k w2)] =>
    assert (H2 : frame anyEvent false w2 (snd (k w2))) end.
  { apply steps_bind.
    - apply (steps_pollMount E anyEvent false anyk eq_refl nq); reflexivity.
    - intros ready. destruct ready; simpl;
        [apply steps_downloadFromMount|apply steps_throw]. }
  apply (frame_mono _ _ isSpawn) in H1, H2.
  assert (H3 : countEv isSpawn (trace w2) = S (countEv isSpawn (trace w1))).
  { subst w2. simpl. rewrite countEv_app. simpl. lia. }
  lia.
Qed.

Section Reach.
Variable item : DownloadItem.
Variable mc : option (string * string).
Variables root mp : string.
Hypothesis mkdir_root : mkdirFault E root = None.
Hypothesis mkdir_mp : mkdirFault E mp = None.

Let nsk : forall p, notSpawn (EvKill p) = true := fun _ => eq_refl.

Lemma atPreflight_frame ok w :
  (forall e, notSpawn e = true -> ok e = true) -> frame ok false w (atPreflight E root mp w).
Proof.
  intros Hok. apply (frame_weaken notSpawn); [exact Hok|].
  unfold atPreflight.
  eapply frame_trans; [apply (steps_mkdir E notSpawn false nsk eq_refl nq); reflexivity|].
  eapply frame_trans; [apply (steps_mkdir E notSpawn false nsk eq_refl nq); reflexivity|].
  apply (steps_await E notSpawn false nsk eq_refl nq), steps_ret.
Qed.

Lemma attemptBody_at_preflight w :
  attemptBody E item mc root mp w =
  match diskSpacePreflight E item with
  | Some errorMsg =>
      (setStatus (releaseName item) Error (Js.Num 0) (Some errorMsg) ;;
       cleanup E mp (Some (releaseName item)) ;;
       ret failed) (atPreflight E root mp w)
  | None => mountAndDownload E item mc root mp (atPreflight E root mp w)
  end.
Proof.
  unfold attemptBody, atPreflight.
  rewrite (bind_run _ _ _ tt) by (apply mkdir_run, mkdir_root).
  rewrite (bind_run _ _ _ tt) by (apply mkdir_run, mkdir_mp).
  rewrite (bind_run _ _ _ tt) by (apply await_run; reflexivity).
  destruct (diskSpacePreflight E item); reflexivity.
Qed.

Lemma attemptBody_rejected w msg :
  diskSpacePreflight E item = Some msg ->
  fst (attemptBody E item mc root mp w) = Ret failed /\
  frame notSpawn false w (snd (attemptBody E item mc root mp w)).
Proof.
  intros Hp. rewrite attemptBody_at_preflight, Hp.
  unfold setStatus. rewrite bind_modify.
  rewrite (bind_run _ _ _ tt) by apply cleanup_run.
  split; [reflexivity|]. simpl.
  eapply frame_trans; [apply atPreflight_frame; auto|].
  eapply frame_trans; [apply (steps_setStatus notSpawn false eq_refl); reflexivity|].
  apply (steps_cleanup E notSpawn false nsk eq_refl nq); intros; reflexivity.
Qed.

Lemma attemptBody_mounts w :
  diskSpacePreflight E item = None ->
  (countEv isSpawn (trace w) <
   countEv isSpawn (trace (snd (attemptBody E item mc root mp w))))%nat.
Proof.
  intros Hp. rewrite attemptBody_at_preflight, Hp.
  pose proof (mountAndDownload_spawns item mc root mp (atPreflight E root mp w)) as H.
  pose proof (frame_mono _ _ isSpawn _ _ (atPreflight_frame anyEvent w (fun _ _ => eq_refl))).
  lia.
Qed.

End Reach.
End Any.
End AttemptFacts.

Import AttemptFacts.

Module StartFacts.

Lemma bind_after ok quiet {A B} (m : M A) (k : A -> M B) w :
  (forall a, steps ok quiet (k a)) ->
  (forall w, frame ok quiet w w) ->
  frame ok quiet (snd (m w)) (snd (bind m k w)).
Proof.
  intros Hk Hrefl. unfold bind. destruct (m w) as [[a|e|] w1]; simpl;
    [apply Hk|apply Hrefl|apply Hrefl].
Qed.

Lemma tryCatch_after ok quiet {A} (m : M A) h w :
  (forall e, steps ok quiet (h e)) ->
  (forall w, frame ok quiet w w) ->
  frame ok quiet (snd (m w)) (snd (tryCatch m h w)).
Proof.
  intros Hh Hrefl. unfold tryCatch. destruct (m w) as [[a|e|] w1]; simpl;
    [apply Hrefl|apply Hh|apply Hrefl].
Qed.

Section Start.
Variable E : Env.
Variable item : DownloadItem.
Hypothesis rclone_found : Js.truthy (rclonePath E) = true.
Hypothesis mkdir_ok : forall path, mkdirFault E path = None.

Let nsk : forall p, notSpawn (EvKill p) = true := fun _ => eq_refl.
Let nq : false = true -> forall n, sched E n = [].
Proof. discriminate. Qed.
Let all : forall e, anyEvent e = true := fun _ => eq_refl.

Lemma setDownloadPath_frame ok w : frame ok false w (setDownloadPath E item w).
Proof.
  split; [reflexivity|]. split; [|discriminate].
  exists []. split; [symmetry; apply app_nil_r|reflexivity].
Qed.

Lemma startMountBasedDownload_attempt mc w :
  configured w = true ->
  startMountBasedDownload E item mc w =
  tryCatch
    (attemptBody E item mc (join E (downloadPath item) (releaseName item))
       (mountPointFor E (releaseName item) (now E (clock w))))
    (attemptCatch E item (mountPointFor E (releaseName item) (now E (clock w))))
    (setDownloadPath E item w).
Proof.
  intros Hc. unfold startMountBasedDownload.
  rewrite bind_gets, Hc. simpl. rewrite rclone_found. simpl.
  rewrite bind_modify. reflexivity.
Qed.

Lemma startMountBasedDownload_rejected mc w msg :
  configured w = true ->
  diskSpacePreflight E item = Some msg ->
  fst (startMountBasedDownload E item mc w) = Ret failed /\
  frame notSpawn false w (snd (startMountBasedDownload E item mc w)).
Proof.
  intros Hc Hp. rewrite (startMountBasedDownload_attempt _ _ Hc).
  match goal with |- context [attemptBody E item mc ?r ?m] =>
    destruct (attemptBody_rejected E item mc r m (mkdir_ok _) (mkdir_ok _)
                (setDownloadPath E item w) msg Hp) as [Hr Hf] end.
  rewrite (tryCatch_run _ _ _ _ Hr). split; [reflexivity|]. simpl.
  eapply frame_trans; [apply setDownloadPath_frame|exact Hf].
Qed.

Lemma startMountBasedDownload_mounts mc w :
  configured w = true ->
  diskSpacePreflight E item = None ->
  (countEv isSpawn (trace w) <
   countEv isSpawn (trace (snd (startMountBasedDownload E item mc w))))%nat.
Proof.
  intros Hc Hp. rewrite (startMountBasedDownload_attempt _ _ Hc).
  match goal with |- context [attemptBody E item mc ?r ?m] =>
    pose proof (attemptBody_mounts E item mc r m (mkdir_ok _) (mkdir_ok _)
                  (setDownloadPath E item w) Hp) as H1 end.
  match goal with |- context [tryCatch ?m ?h ?w0] =>
    pose proof (frame_mono _ _ isSpawn _ _
      (tryCatch_after anyEvent false m h w0
         (fun e => steps_attemptCatch E anyEvent all item _ e)
         (frame_refl anyEvent false))) as H2 end.
  pose proof (frame_mono _ _ isSpawn _ _ (setDownloadPath_frame anyEvent w)) as H0.
  lia.
Qed.

Lemma atStartPreflight_frame ok w :
  (forall e, notSpawn e = true -> ok e = true) -> frame ok false w (atStartPreflight E item w).
Proof.
  intros Hok. apply (frame_weaken notSpawn); [exact Hok|].
  unfold atStartPreflight.
  eapply frame_trans; [apply setDownloadPath_frame|].
  eapply frame_trans; [apply (steps_mkdir E notSpawn false nsk eq_refl nq); reflexivity|].
  apply (steps_await E notSpawn false nsk eq_refl nq), steps_ret.
Qed.

Lemma created_run w :
  tryCatch (mkdir E (join E (downloadPath item) (releaseName item)) ;; ret None)
           (fun e => ret (Some e)) w
  = (Ret None, snd (mkdir E (join E (downloadPath item) (releaseName item)) w)).
Proof.
  unfold tryCatch.
  rewrite (bind_run _ _ _ tt) by (apply mkdir_run, mkdir_ok). reflexivity.
Qed.

Lemma startDownload_at_preflight w :
  configured w = true ->
  startDownload E item w =
  match diskSpacePreflight E item with
  | Some errorMsg =>
      (Ret failed,
       updateItemStatus (releaseName item) Error (Js.Num 0) (Some errorMsg)
         None None None (atStartPreflight E item w))
  | None => viaMirrorOrPublic E item (atStartPreflight E item w)
  end.
Proof.
  intros Hc. unfold startDownload.
  rewrite bind_gets, Hc. simpl. rewrite rclone_found. simpl.
  rewrite bind_modify.
  rewrite (bind_ret _ _ _ _ _ (created_run _)).
  rewrite (bind_run _ _ _ tt) by (apply await_run; reflexivity).
  unfold atStartPreflight.
  destruct (diskSpacePreflight E item); reflexivity.
Qed.

Lemma viaMirrorOrPublic_mounts w :
  configured w = true ->
  diskSpacePreflight E item = None ->
  (countEv isSpawn (trace w) < countEv isSpawn (trace (snd (viaMirrorOrPublic E item w))))%nat.
Proof.
  intros Hc Hp. unfold viaMirrorOrPublic, setStatus.
  rewrite bind_modify.
  rewrite (bind_run _ _ _ tt) by (apply await_run; reflexivity).
  set (w1 := snd (await E (ret tt) _)).
  assert (F1 : frame anyEvent false w w1).
  { subst w1. eapply frame_trans.
    - apply (steps_setStatus_any anyEvent all (releaseName item) Downloading (Js.Num 0) None w).
    - apply (steps_await E anyEvent false (fun _ => eq_refl) eq_refl nq), steps_ret. }
  assert (C1 : configured w1 = true).
  { rewrite (configured_frame _ _ _ _ F1). exact Hc. }
  pose proof (frame_mono _ _ isSpawn _ _ F1) as M1.
  assert (Hpub : forall w',
             configured w' = true ->
             (countEv isSpawn (trace w') <
              countEv isSpawn (trace (snd (startMountBasedDownload E item None w'))))%nat).
  { intros w' Hc'. apply startMountBasedDownload_mounts; assumption. }
  assert (Hnone : (countEv isSpawn (trace w1) <
     countEv isSpawn (trace (snd ((viaMirror <- ret None ;;
        match viaMirror with
        | Some r => ret r
        | None => startMountBasedDownload E item None
        end) w1))))%nat).
  { apply Hpub, C1. }
  destruct (activeMirror E) as [name|]; [|lia].
  destruct (Js.truthy (activeMirrorConfigPath E) && Js.truthy (activeMirrorRemoteName E));
    [|lia].
  set (mc := Some (default "" (activeMirrorConfigPath E),
                   default "" (activeMirrorRemoteName E))).
  pose proof (startMountBasedDownload_mounts mc w1 C1 Hp) as M2.
  set (attempt := tryCatch _ _).
  assert (F3 : frame anyEvent false (snd (startMountBasedDownload E item mc w1))
                 (snd (attempt w1))).
  { subst attempt. unfold tryCatch, bind.
    destruct (startMountBasedDownload E item mc w1) as [[r|e|] w2]; simpl;
      apply frame_refl. }
  assert (F4 : frame anyEvent false (snd (attempt w1))
                 (snd ((viaMirror <- attempt ;;
                        match viaMirror with
                        | Some r => ret r
                        | None => startMountBasedDownload E item None
                        end) w1))).
  { apply bind_after; [|apply frame_refl].
    intros [r|]; [apply steps_ret|apply steps_startMountBasedDownload]. }
  apply (frame_mono _ _ isSpawn) in F3, F4. lia.
Qed.

End Start.
End StartFacts.

Import StartFacts.

(* ===================================================================== *)
(** ** The log of an attempt *)
(* ===================================================================== *)

Module OwnFacts.

Lemma ownEvents_app t1 t2 : ownEvents (t1 ++ t2) = (ownEvents t1 ++ ownEvents t2)%list.
Proof.
  induction t1 as [|e t1 IH]; simpl; [reflexivity|].
  destruct (isActorEvent e); simpl; rewrite IH; reflexivity.
Qed.

Lemma ownEvents_actor t : forallb isActorEvent t = true -> ownEvents t = [].
Proof.
  induction t as [|e t IH]; simpl; [reflexivity|].
  intros H. apply andb_prop in H as [He Ht]. rewrite He. apply IH, Ht.
Qed.

Lemma own_frame quiet w w' :
  frame isActorEvent quiet w w' -> ownEvents (trace w') = ownEvents (trace w).
Proof.
  intros (_ & (t & -> & Ht) & _). rewrite ownEvents_app, (ownEvents_actor t Ht).
  apply app_nil_r.
Qed.

Lemma own_emit e w :
  isActorEvent e = false ->
  ownEvents (trace (emit e w)) = (ownEvents (trace w) ++ [e])%list.
Proof. intros He. simpl. rewrite ownEvents_app. simpl. rewrite He. reflexivity. Qed.

Lemma countEv_own p t :
  (forall e, isActorEvent e = true -> p e = false) ->
  countEv p (ownEvents t) = countEv p t.
Proof.
  intros H. induction t as [|e t IH]; simpl; [reflexivity|].
  destruct (isActorEvent e) eqn:He; simpl; rewrite IH; [rewrite (H _ He)|]; reflexivity.
Qed.

Section Own.
Variable E : Env.
Variable quiet : bool.
Hypothesis quiet_sched : quiet = true -> forall n, sched E n = [].

Let ak : forall p, isActorEvent (EvKill p) = true := fun _ => eq_refl.

Lemma actor_turn w : frame isActorEvent quiet w (turn E w).
Proof. apply (frame_turn E isActorEvent quiet ak eq_refl quiet_sched). Qed.

Lemma own_turn w : ownEvents (trace (turn E w)) = ownEvents (trace w).
Proof. apply (own_frame quiet), actor_turn. Qed.

Lemma await_emit_run e w :
  await E (modify (emit e)) w = (Ret tt, turn E (emit e w)).
Proof. reflexivity. Qed.

Lemma mkdir_world path w :
  mkdirFault E path = None -> mkdir E path w = (Ret tt, turn E (emit (EvMkdir path) w)).
Proof. intros H. unfold mkdir, await. rewrite bind_modify, H. reflexivity. Qed.

Lemma await_readdir_run mp i w :
  await E (modify (emit (EvReaddir mp)) ;; ret (readyPoll E i)) w
  = (Ret (readyPoll E i), turn E (emit (EvReaddir mp) w)).
Proof. reflexivity. Qed.

Lemma own_poll mp w :
  ownEvents (trace (turn E (emit (EvReaddir mp) (turn E (emit (EvSleep 1000) w)))))
  = (ownEvents (trace w) ++ [EvSleep 1000; EvReaddir mp])%list.
Proof.
  rewrite own_turn, own_emit, own_turn, own_emit by reflexivity.
  rewrite <- !app_assoc. reflexivity.
Qed.

Lemma pollMount_timeout mp n : forall i w,
  (forall j, (i <= j < i + n)%nat -> readyPoll E j = None) ->
  fst (pollMount E mp i n w) = Ret false /\
  ownEvents (trace (snd (pollMount E mp i n w)))
  = (ownEvents (trace w) ++ pollEvents mp n)%list.
Proof.
  induction n as [|n IH]; intros i w Hn; simpl.
  - split; [reflexivity|]. symmetry; apply app_nil_r.
  - rewrite (bind_ret _ _ _ _ _ (await_emit_run _ _)).
    rewrite (bind_ret _ _ _ _ _ (await_readdir_run _ _ _)).
    rewrite (Hn i) by lia. simpl.
    destruct (IH (S i) (turn E (emit (EvReaddir mp) (turn E (emit (EvSleep 1000) w)))))
      as (Hr & Ho).
    { intros j Hj. apply Hn. lia. }
    split; [exact Hr|]. rewrite Ho, own_poll, <- !app_assoc. reflexivity.
Qed.

Lemma pollMount_ready mp n : forall i k names w,
  (k < n)%nat ->
  (forall j, (i <= j < i + k)%nat -> readyPoll E j = None) ->
  readyPoll E (i + k) = Some names ->
  fst (pollMount E mp i n w) = Ret true /\
  ownEvents (trace (snd (pollMount E mp i n w)))
  = (ownEvents (trace w) ++ pollEvents mp (S k))%list.
Proof.
  induction n as [|n IH]; intros i k names w Hk Hn Hs; [lia|]. simpl.
  rewrite (bind_ret _ _ _ _ _ (await_emit_run _ _)).
  rewrite (bind_ret _ _ _ _ _ (await_readdir_run _ _ _)).
  destruct k as [|k].
  - rewrite Nat.add_0_r in Hs. rewrite Hs. simpl. split; [reflexivity|apply own_poll].
  - rewrite (Hn i) by lia. simpl.
    destruct (IH (S i) k names
                (turn E (emit (EvReaddir mp) (turn E (emit (EvSleep 1000) w)))))
      as (Hr & Ho).
    { lia. }
    { intros j Hj. apply Hn. lia. }
    { rewrite <- Hs. f_equal. lia. }
    split; [exact Hr|]. rewrite Ho, own_poll, <- !app_assoc. reflexivity.
Qed.

Lemma cleanup_own mp key w :
  ownEvents (trace (snd (cleanup E mp key w)))
  = (ownEvents (trace w) ++ [EvCleanup mp] ++ unmountEvents E mp ++ [EvRmdir mp])%list.
Proof.
  unfold cleanup. rewrite !bind_modify.
  set (w1 := emit (EvCleanup mp) w).
  set (w2 := if Js.truthy key then _ else w1).
  assert (F2 : frame isActorEvent quiet w1 w2).
  { subst w2. destruct (Js.truthy key); [|apply frame_refl].
    destruct (activeDownloads w1 !! default "" key) as [ctl|]; [|apply frame_refl].
    destruct (mountProcess ctl); [apply frame_emit; reflexivity|apply frame_refl]. }
  assert (O2 : ownEvents (trace w2) = (ownEvents (trace w) ++ [EvCleanup mp])%list).
  { rewrite (own_frame _ _ _ F2). subst w1. apply own_emit. reflexivity. }
  clearbody w2. clear F2 w1.
  unfold unmountEvents. destruct (platform E).
  1-3: rewrite (bind_ret _ _ _ _ _ (await_emit_run _ _)), await_emit_run; simpl snd;
       rewrite own_turn, own_emit, own_turn, own_emit, O2 by reflexivity;
       rewrite <- !app_assoc; reflexivity.
  rewrite (bind_ret _ _ _ tt w2) by reflexivity. rewrite await_emit_run. simpl snd.
  rewrite own_turn, own_emit, O2 by reflexivity. rewrite <- !app_assoc. reflexivity.
Qed.

End Own.
End OwnFacts.

Import OwnFacts.

Module TimeoutFacts.

Lemma queue_updateItemStatus key st prog err sp et ex w :
  exists u, u_status u = Some st /\ u_error u = Some err /\
  queue (updateItemStatus key st prog err sp et ex w) = updateQueue key u (queue w).
Proof.
  unfold updateItemStatus, updateItem. eexists. split; [|split].
  3: destruct (updateItemOk key (queue w)); reflexivity.
  all: reflexivity.
Qed.

Lemma own_updateItemStatus key st prog err sp et ex w :
  ownEvents (trace (updateItemStatus key st prog err sp et ex w)) = ownEvents (trace w).
Proof.
  unfold updateItemStatus, updateItem.
  destruct (updateItemOk key (queue w)); [|reflexivity].
  simpl. rewrite ownEvents_app. simpl. apply app_nil_r.
Qed.

Section Timeout.
Variable E : Env.
Variable item : DownloadItem.
Variable mc : option (string * string).
Variable w : World.

Let key := releaseName item.
Let root := join E (downloadPath item) (releaseName item).
Let mp := mountPointFor E (releaseName item) (now E (clock w)).

Hypothesis is_configured : configured w = true.
Hypothesis rclone_found : Js.truthy (rclonePath E) = true.
Hypothesis mkdir_root : mkdirFault E root = None.
Hypothesis mkdir_mp : mkdirFault E mp = None.
Hypothesis space_ok : diskSpacePreflight E item = None.
Hypothesis never_ready : forall i, (i < 10)%nat -> readyPoll E i = None.

Let w0 := setDownloadPath E item w.
Let w1 := atPreflight E root mp w0.
Let w2 := updateItemStatus key Downloading (Js.Num 0) None None None None w1.
Let args := mountArgs E item mc mp w2.
Let w3 := setMounts (mounts w2 ++ [mp])
            (setNextProc (S (nextProc w2)) (emit (EvSpawnMount (nextProc w2) args) w2)).
Let wT := snd (pollMount E mp 0 10 w3).
Let wC := snd (cleanup E mp (Some key) wT).
Let wU := snd (unregisterIfActive key wC).

Lemma timeout_reaches_catch :
  startMountBasedDownload E item mc w
  = attemptCatch E item mp (JsError timeoutMessage) wT.
Proof.
  rewrite (startMountBasedDownload_attempt E item rclone_found mc w is_configured).
  fold root mp w0. apply tryCatch_throw.
  rewrite (attemptBody_at_preflight E item mc root mp mkdir_root mkdir_mp), space_ok.
  fold w1. unfold mountAndDownload, setStatus. rewrite bind_modify, bind_gets.
  fold key w2 args.
  change (bind (spawnMount args mp) ?k w2) with (k (nextProc w2) w3).
  destruct (pollMount_timeout E false ltac:(discriminate) mp 10 0%nat w3) as [Hr _].
  { intros j Hj. apply never_ready. lia. }
  rewrite (bind_run _ _ _ _ Hr). reflexivity.
Qed.

Lemma catch_result :
  attemptCatch E item mp (JsError timeoutMessage) wT =
  let wF := match findItem key (queue wT) with
            | Some it =>
                if bool_decide (status it ≠ Cancelled ∧ status it ≠ Error)
                then updateItemStatus key Error (progress it)
                       (Some (errorMessageOf (JsError timeoutMessage))) None None None wU
                else wU
            | None =>
                updateItemStatus key Error (Js.Num 0)
                  (Some (errorMessageOf (JsError timeoutMessage))) None None None wU
            end in
  (Ret (mkResult false false (findItem key (queue wF))), wF).
Proof.
  unfold attemptCatch. rewrite bind_gets. fold key.
  rewrite (bind_run _ _ _ tt) by apply cleanup_run. fold wC.
  rewrite (bind_run _ _ _ tt) by reflexivity. fold wU.
  destruct (findItem key (queue wT)) as [it|]; [destruct (bool_decide _)|]; reflexivity.
Qed.

Lemma own_wT :
  exists proc a,
    ownEvents (trace wT)
    = (ownEvents (trace w)
       ++ [EvMkdir root; EvMkdir mp; EvSpawnMount proc a] ++ pollEvents mp 10)%list.
Proof.
  exists (nextProc w2), args.
  destruct (pollMount_timeout E false ltac:(discriminate) mp 10 0%nat w3) as [_ Ho].
  { intros j Hj. apply never_ready. lia. }
  fold wT in Ho. rewrite Ho.
  assert (H3 : ownEvents (trace w3)
               = (ownEvents (trace w2) ++ [EvSpawnMount (nextProc w2) args])%list).
  { subst w3. simpl. rewrite ownEvents_app. reflexivity. }
  assert (H2 : ownEvents (trace w2) = ownEvents (trace w1)).
  { apply own_updateItemStatus. }
  assert (H1 : ownEvents (trace w1)
               = (ownEvents (trace w0) ++ [EvMkdir root; EvMkdir mp])%list).
  { subst w1. unfold atPreflight.
    rewrite (mkdir_world E root _ mkdir_root). simpl snd.
    rewrite (mkdir_world E mp _ mkdir_mp). simpl snd.
    change (snd (await E (ret tt) ?x)) with (turn E x).
    rewrite !(own_turn E false ltac:(discriminate)).
    rewrite own_emit by reflexivity.
    rewrite !(own_turn E false ltac:(discriminate)).
    rewrite own_emit by reflexivity. rewrite <- app_assoc. reflexivity. }
  rewrite H3, H2, H1. subst w0. simpl. rewrite <- !app_assoc. reflexivity.
Qed.

Lemma own_wU :
  ownEvents (trace wU)
  = (ownEvents (trace wT) ++ [EvCleanup mp] ++ unmountEvents E mp ++ [EvRmdir mp])%list.
Proof.
  subst wU. unfold unregisterIfActive. simpl snd.
  assert (H : forall x, trace (if isDownloadActive key x
                    then snd (updateItem key
                       {| u_status := None; u_progress := None; u_error := None;
                          u_speed := None; u_eta := None; u_extractProgress := None;
                          u_pid := Some None; u_downloadPath := None |}
                       (setActive (delete key (activeDownloads x)) x))
                    else x) = trace x).
  { intros x. destruct (isDownloadActive key x); reflexivity. }
  rewrite H. subst wC. apply (cleanup_own E false). discriminate.
Qed.

Lemma timeout_outcome :
  exists r w',
    startMountBasedDownload E item mc w = (Ret r, w') /\
    success r = false /\ startExtraction r = false /\
    ownEvents (trace w') = ownEvents (trace wU) /\
    (forall it u,
        findItem key (queue wT) = Some it -> status it = Downloading ->
        findItem key (queue wU) = Some u ->
        exists it', findItem key (queue w') = Some it' /\
                    status it' = Error /\ error it' = Some timeoutMessage).
Proof.
  rewrite timeout_reaches_catch, catch_result.
  eexists _, _. split; [reflexivity|]. split; [reflexivity|]. split; [reflexivity|].
  split.
  - destruct (findItem key (queue wT)) as [it|]; [destruct (bool_decide _)|];
      try apply own_updateItemStatus; reflexivity.
  - intros it u Hit Hst Hu. rewrite Hit, Hst. simpl.
    destruct (queue_updateItemStatus key Error (progress it)
                (Some (errorMessageOf (JsError timeoutMessage))) None None None wU)
      as (upd & Hs & He & Hq).
    rewrite Hq, findItem_updateQueue, Hu. simpl.
    eexists. split; [reflexivity|]. unfold applyUpdates. simpl.
    rewrite Hs, He. split; reflexivity.
Qed.

Hypothesis nobody_else : forall n, sched E n = [].

Let qs : true = true -> forall n, sched E n = [] := fun _ => nobody_else.
Let anyk : forall p, anyEvent (EvKill p) = true := fun _ => eq_refl.

Lemma quiet_queue ok x y :
  frame ok true x y -> queue y = queue x /\ activeDownloads y = activeDownloads x.
Proof. intros (_ & _ & H). destruct (H eq_refl) as (? & ? & _). split; assumption. Qed.

Lemma quiet_items it :
  findItem key (queue w) = Some it ->
  (exists itD, findItem key (queue wT) = Some itD /\ status itD = Downloading) /\
  (exists u, findItem key (queue wU) = Some u).
Proof.
  intros Hit.
  assert (Q0 : findItem key (queue w0) = Some (applyUpdates
     {| u_status := None; u_progress := None; u_error := None;
        u_speed := None; u_eta := None; u_extractProgress := None;
        u_pid := None; u_downloadPath := Some root |} it)).
  { subst w0. unfold setDownloadPath, updateItem. simpl.
    fold key. rewrite findItem_updateQueue, Hit. reflexivity. }
  assert (F1 : frame anyEvent true w0 w1).
  { subst w1. unfold atPreflight.
    eapply frame_trans; [apply (steps_mkdir E anyEvent true anyk eq_refl qs); reflexivity|].
    eapply frame_trans; [apply (steps_mkdir E anyEvent true anyk eq_refl qs); reflexivity|].
    apply (steps_await E anyEvent true anyk eq_refl qs), steps_ret. }
  destruct (quiet_queue _ _ _ F1) as [Q1 _].
  destruct (queue_updateItemStatus key Downloading (Js.Num 0) None None None None w1)
    as (u2 & Hs2 & _ & Q2). fold w2 in Q2.
  assert (Q3 : queue w3 = queue w2) by reflexivity.
  assert (FT : frame anyEvent true w3 wT).
  { subst wT. apply (steps_pollMount E anyEvent true anyk eq_refl qs); reflexivity. }
  destruct (quiet_queue _ _ _ FT) as [QT _].
  assert (HT : exists itD, findItem key (queue wT) = Some itD /\ status itD = Downloading).
  { rewrite QT, Q3, Q2, findItem_updateQueue, Q1, Q0. simpl.
    eexists. split; [reflexivity|]. unfold applyUpdates at 1. simpl. rewrite Hs2. reflexivity. }
  split; [exact HT|].
  destruct HT as (itD & HD & _).
  assert (FC : frame anyEvent true wT wC).
  { subst wC. apply (steps_cleanup E anyEvent true anyk eq_refl qs); intros; reflexivity. }
  destruct (quiet_queue _ _ _ FC) as [QC _].
  subst wU. unfold unregisterIfActive. simpl snd.
  destruct (isDownloadActive key wC).
  - unfold updateItem. simpl. rewrite findItem_updateQueue, QC, HD. simpl. eexists; reflexivity.
  - rewrite QC, HD. eexists; reflexivity.
Qed.

End Timeout.
End TimeoutFacts.

Import TimeoutFacts.

Module ReadinessClaims.

(** Claim C6. Once an attempt has passed its checks (configuration,
    dependency, directories, disk space):
    - each readiness poll sleeps 1000 ms and lists the mount point; the first
      listing that succeeds, the empty one included, ends the wait as ready,
      after at most ten polls;
    - when none of the ten listings succeeds, the attempt returns
      [success = false], its own events are the two [mkdir], the spawn, ten
      (sleep, listing) pairs and one teardown ([cleanup] runs exactly once),
      whatever the other actors do meanwhile; and when nobody else touches
      the queue a queued item ends in Error with the message of the
      timeout. *)
Theorem mount_readiness_polling E item mc w :
  let key := releaseName item in
  let root := join E (downloadPath item) key in
  let mp := mountPointFor E key (now E (clock w)) in
  configured w = true ->
  Js.truthy (rclonePath E) = true ->
  mkdirFault E root = None ->
  mkdirFault E mp = None ->
  diskSpacePreflight E item = None ->
  (* any listing, the empty one too, ends the wait *)
  (forall k names wp,
      (k < 10)%nat ->
      (forall j, (j < k)%nat -> readyPoll E j = None) ->
      readyPoll E k = Some names ->
      fst (pollMount E mp 0 10 wp) = Ret true /\
      ownEvents (trace (snd (pollMount E mp 0 10 wp)))
      = (ownEvents (trace wp) ++ pollEvents mp (S k))%list) /\
  (* no listing in ten polls: the attempt fails after one teardown *)
  ((forall i, (i < 10)%nat -> readyPoll E i = None) ->
   exists r w',
     startMountBasedDownload E item mc w = (Ret r, w') /\
     success r = false /\ startExtraction r = false /\
     (exists proc a,
         ownEvents (trace w')
         = (ownEvents (trace w)
            ++ [EvMkdir root; EvMkdir mp; EvSpawnMount proc a]
            ++ pollEvents mp 10
            ++ [EvCleanup mp] ++ unmountEvents E mp ++ [EvRmdir mp])%list) /\
     countEv isCleanup (trace w') = S (countEv isCleanup (trace w)) /\
     ((forall n, sched E n = []) ->
      forall it, findItem key (queue w) = Some it ->
      exists it', findItem key (queue w') = Some it' /\
                  status it' = Error /\ error it' = Some timeoutMessage)).
Proof.
  intros key root mp Hc Hr Hroot Hmp Hsp. split.
  - intros k names wp Hk Hn Hs.
    apply (pollMount_ready E false ltac:(discriminate) mp 10 0%nat k names wp Hk).
    + intros j Hj. apply Hn. lia.
    + exact Hs.
  - intros Hnever.
    destruct (timeout_outcome E item mc w Hc Hr Hroot Hmp Hsp Hnever)
      as (r & w' & Hrun & Hs & Hx & Ho & Hst).
    exists r, w'. split; [exact Hrun|]. split; [exact Hs|]. split; [exact Hx|].
    destruct (own_wT E item mc w Hroot Hmp Hnever) as (proc & a & HT).
    assert (Hown : ownEvents (trace w')
         = (ownEvents (trace w)
            ++ [EvMkdir root; EvMkdir mp; EvSpawnMount proc a]
            ++ pollEvents mp 10
            ++ [EvCleanup mp] ++ unmountEvents E mp ++ [EvRmdir mp])%list).
    { rewrite Ho, (own_wU E item mc w), HT. rewrite <- !app_assoc. reflexivity. }
    split; [exists proc, a; exact Hown|]. split.
    + rewrite <- (countEv_own isCleanup (trace w')), Hown by (intros []; simpl; congruence).
      rewrite !countEv_app, (countEv_own isCleanup (trace w)) by (intros []; simpl; congruence).
      unfold unmountEvents. destruct (platform E); simpl; lia.
    + intros Hq it Hit.
      destruct (quiet_items E item mc w Hq it Hit) as ((itD & HD & HDs) & (u & Hu)).
      apply (Hst itD u HD HDs Hu).
Qed.

(** No listing ever succeeds; nobody else is running. *)
Lemma mount_readiness_polling_witness :
  let E := Examples.hostEnv None (fun _ => None) Examples.nobody in
  exists r w',
    startMountBasedDownload E (Examples.gameA Queued None) None (Examples.idle None)
    = (Ret r, w') /\
    success r = false /\
    countEv isCleanup (trace w') = 1%nat /\
    exists it', findItem "Game-A" (queue w') = Some it' /\ status it' = Error.
Proof.
  intros E.
  destruct (mount_readiness_polling E (Examples.gameA Queued None) None
              (Examples.idle None) eq_refl eq_refl eq_refl eq_refl eq_refl)
    as [_ H].
  destruct (H (fun _ _ => eq_refl)) as (r & w' & Hrun & Hs & _ & _ & Hc & Hq).
  exists r, w'. split; [exact Hrun|]. split; [exact Hs|]. split; [exact Hc|].
  destruct (Hq (fun _ => eq_refl) _ eq_refl) as (it' & Hf & Hst & _).
  exists it'. split; assumption.
Defined.

End ReadinessClaims.

(* ===================================================================== *)
(** ** The disk-space test *)
(* ===================================================================== *)

Module PreflightFacts.

Lemma preflight_iff E item :
  is_Some (diskSpacePreflight E item) <->
  exists x, getAvailableDiskSpace E (downloadPath item) = Some x /\
            0 < gameSizeBytes E item /\ x < 2 * gameSizeBytes E item.
Proof.
  unfold diskSpacePreflight.
  destruct (getAvailableDiskSpace E (downloadPath item)) as [x|].
  - destruct (0 <? gameSizeBytes E item * 2) eqn:H1;
      destruct (x <? gameSizeBytes E item * 2) eqn:H2; simpl; split.
    all: try (intros _; exists x; split; [reflexivity|]; lia).
    all: try (intros [? ?]; discriminate).
    all: try (intros (y & [= <-] & ? & ?); lia).
    intros _. eexists; reflexivity.
  - split; [intros [? ?]; discriminate|intros (y & ? & _); discriminate].
Qed.

End PreflightFacts.

Import PreflightFacts.

Module PreflightClaims.

(** Claim C5. With the configuration, the dependency and the directories
    in order, let [X] be the available space and [Y] the declared size in
    bytes. When [X] is known, [Y > 0] and [X < 2Y], [startDownload] and
    [startMountBasedDownload] return the failure without starting a mount
    process, and [startDownload] leaves the item in Error; otherwise both go
    on to start the mount process. [Y = 0] (no size, or a size that parses
    to 0) and an unknown [X] are among the cases that go on. *)
Theorem disk_space_preflight E item w :
  let X := getAvailableDiskSpace E (downloadPath item) in
  let Y := gameSizeBytes E item in
  let insufficient := exists x, X = Some x /\ 0 < Y /\ x < 2 * Y in
  configured w = true ->
  Js.truthy (rclonePath E) = true ->
  (forall path, mkdirFault E path = None) ->
  (insufficient ->
   (fst (startDownload E item w) = Ret failed /\
    countEv isSpawn (trace (snd (startDownload E item w))) = countEv isSpawn (trace w) /\
    forall it, findItem (releaseName item) (queue (snd (startDownload E item w))) = Some it ->
               status it = Error) /\
   (forall mc,
       fst (startMountBasedDownload E item mc w) = Ret failed /\
       countEv isSpawn (trace (snd (startMountBasedDownload E item mc w)))
       = countEv isSpawn (trace w))) /\
  (~ insufficient ->
   (countEv isSpawn (trace w)
    < countEv isSpawn (trace (snd (startDownload E item w))))%nat /\
   (forall mc,
       (countEv isSpawn (trace w)
        < countEv isSpawn (trace (snd (startMountBasedDownload E item mc w))))%nat)) /\
  (Y = 0 \/ X = None -> ~ insufficient).
Proof.
  intros X Y insufficient Hc Hr Hm.
  assert (Hns : forall e, notSpawn e = true -> isSpawn e = false).
  { intros e. unfold notSpawn. destruct (isSpawn e); [discriminate|reflexivity]. }
  split; [|split].
  - intros Hins. apply preflight_iff in Hins as [msg Hp]. split.
    + rewrite (startDownload_at_preflight E item Hr Hm w Hc), Hp. simpl.
      split; [reflexivity|]. split.
      * transitivity (countEv isSpawn (trace (atStartPreflight E item w))).
        { unfold updateItemStatus, updateItem.
          destruct (updateItemOk _ _); simpl; [|reflexivity].
          rewrite countEv_app. simpl. lia. }
        apply (frame_count notSpawn false); [|exact Hns].
        apply atStartPreflight_frame; auto.
      * intros it.
        destruct (TimeoutFacts.queue_updateItemStatus (releaseName item) Error (Js.Num 0)
                    (Some msg) None None None (atStartPreflight E item w))
          as (u & Hs & _ & ->).
        rewrite findItem_updateQueue.
        destruct (findItem _ _) as [it0|]; simpl; [|discriminate].
        intros [= <-]. unfold applyUpdates. simpl. rewrite Hs. reflexivity.
    + intros mc.
      destruct (startMountBasedDownload_rejected E item Hr Hm mc w msg Hc Hp) as [H1 H2].
      split; [exact H1|]. apply (frame_count notSpawn false); [exact H2|exact Hns].
  - intros Hno.
    assert (Hp : diskSpacePreflight E item = None).
    { destruct (diskSpacePreflight E item) eqn:Hd; [|reflexivity].
      exfalso. apply Hno, preflight_iff. rewrite Hd. eexists; reflexivity. }
    split.
    + rewrite (startDownload_at_preflight E item Hr Hm w Hc), Hp.
      pose proof (atStartPreflight_frame E item anyEvent w (fun _ _ => eq_refl)) as F.
      pose proof (frame_mono _ _ isSpawn _ _ F) as M.
      pose proof (viaMirrorOrPublic_mounts E item Hr Hm (atStartPreflight E item w)) as V.
      rewrite (configured_frame _ _ _ _ F) in V. specialize (V Hc Hp). lia.
    + intros mc. apply startMountBasedDownload_mounts; assumption.
  - intros [H0|H0] (x & Hx & Hy & Hxy); subst X Y; [lia|congruence].
Qed.

(** [Game-A] declares 2 GB and 1 GiB is available. *)
Lemma disk_space_preflight_witness :
  let E := Examples.hostEnv (Some 1073741824) (Examples.readyAt 0) Examples.nobody in
  let item := Examples.gameA Queued (Some "2 GB") in
  fst (startDownload E item (Examples.idle (Some "2 GB"))) = Ret failed /\
  countEv isSpawn (trace (snd (startDownload E item (Examples.idle (Some "2 GB"))))) = 0%nat.
Proof.
  intros E item.
  destruct (disk_space_preflight E item (Examples.idle (Some "2 GB")) eq_refl eq_refl
              (fun _ => eq_refl)) as (Hrej & _ & _).
  destruct Hrej as ((H1 & H2 & _) & _).
  { exists 1073741824. split; [reflexivity|]. split; vm_compute; reflexivity. }
  split; [exact H1|exact H2].
Defined.

End PreflightClaims.

(* ===================================================================== *)
(** ** The registry, completion, cancellation and resume *)
(* ===================================================================== *)

Import Examples.

Module RegistryClaims.




End RegistryClaims.

Module CompletionClaims.




End CompletionClaims.

Module CancellationClaims.

(** The token is tested at every ['data'] event: once it is set, both
    streams are destroyed, nothing more is written, and the promise of the
    copy stays pending. *)
Lemma pump_cancelled E src dest so onP ref chunk rest idx copied w :
  readFault E src idx = None ->
  tokenOf ref w = true ->
  pump E src dest so onP ref (chunk :: rest) idx copied w
  = (Pending, emit (EvDestroyWrite dest) (emit (EvDestroyRead src) w)).
Proof. intros Hf Ht. simpl. rewrite Hf, bind_gets, Ht. reflexivity. Qed.

(** The token and the status are tested before each file. *)
Lemma copyLoop_cancelled E key mp root ref ts st file rest tc w :
  tokenOf ref w = true ->
  copyLoop E key mp root ref ts st (file :: rest) tc w
  = (Ret tt, markDownloadCancelled ref w).
Proof.
  intros Ht. simpl. rewrite !bind_gets, Ht, orb_true_r. reflexivity.
Qed.

(** Claim C2 at the failing input: [cancelDownload('Game-A')] runs between
    the first and the second chunk of [a.bin]. Both streams are destroyed and
    the 4 bytes of the first chunk stay on disk, but the promise of the copy
    never settles: [startMountBasedDownload] stays pending, so the copy loop
    does not exit, the second file is never reached and [cleanup] is not
    run. *)
Theorem cancel_mid_file_never_settles :
  let E := hostEnv None (readyAt 0) (cancelAt 12) in
  let r := startMountBasedDownload E (gameA Queued None) None (idle None) in
  fst r = Pending /\
  destFs (snd r) !! "/dl/Game-A/a.bin" = Some (list_byte_of_string "hell") /\
  destFs (snd r) !! "/dl/Game-A/sub/b.bin" = None /\
  take 2 (rev (trace (snd r)))
  = [EvDestroyWrite "/dl/Game-A/a.bin";
     EvDestroyRead "/tmp/apprenticevr-mount-Game-A-0/a.bin"] /\
  countEv isCleanup (trace (snd r)) = 0%nat /\
  tokenOf 0 (snd r) = true.
Proof.
  intros E r. repeat split; vm_compute; reflexivity.
Qed.

End CancellationClaims.

Module CopyFacts.

Lemma statDest_run E dest w :
  statDest E dest w
  = (Ret ((fun c => Z.of_nat (length c)) <$> destFs w !! dest),
     turn E (emit (EvStat dest) w)).
Proof. reflexivity. Qed.

Lemma chunksOf_concat E fuel : forall l,
  (length l <= fuel)%nat -> concat (chunksOf E fuel l) = l.
Proof.
  induction fuel as [|f IH]; intros l Hl.
  - destruct l; [reflexivity|simpl in Hl; lia].
  - destruct l as [|b l]; [reflexivity|].
    change (chunksOf E (S f) (b :: l))
      with (take (S (chunkSize E)) (b :: l)
            :: chunksOf E f (drop (S (chunkSize E)) (b :: l))).
    simpl concat. rewrite IH.
    + apply (take_drop (S (chunkSize E)) (b :: l)).
    + rewrite length_drop. simpl in *. lia.
Qed.

Section Quiet.
Variable E : Env.
Hypothesis nobody_else : forall n, sched E n = [].

Lemma quiet_turn w : turn E w = setClock (S (clock w)) w.
Proof. unfold turn. rewrite nobody_else. reflexivity. Qed.

Variables src dest : string.
Variable so : Z.
Variable onP : Z -> M unit.
Variable ref : nat.
Hypothesis onP_queue_only :
  forall p w, fst (onP p w) = Ret tt /\
              destFs (snd (onP p w)) = destFs w /\ cells (snd (onP p w)) = cells w.
Hypothesis reads_ok : forall i, readFault E src i = None.
Hypothesis writes_ok : forall i, writeFault E dest i = None.

Lemma pump_copies chunks : forall idx copied w existing,
  tokenOf ref w = false ->
  destFs w !! dest = Some existing ->
  fst (pump E src dest so onP ref chunks idx copied w)
  = Ret (copied + Z.of_nat (length (concat chunks)) - so) /\
  destFs (snd (pump E src dest so onP ref chunks idx copied w)) !! dest
  = Some (existing ++ concat chunks)%list.
Proof.
  induction chunks as [|chunk rest IH]; intros idx copied w existing Htok Hd.
  - cbn [pump]. rewrite !bind_modify. unfold ret. cbn [fst snd concat length].
    rewrite quiet_turn, app_nil_r, Z.add_0_r. split; [reflexivity|exact Hd].
  - cbn [pump]. rewrite reads_ok, bind_gets, Htok.
    destruct (onP_queue_only (copied + Z.of_nat (length chunk) - so) w) as (Hr & Hfs & Hcs).
    rewrite (bind_run _ _ _ tt Hr), writes_ok, !bind_modify.
    set (w1 := turn E (appendDest dest chunk (snd (onP _ w)))).
    assert (Htok1 : tokenOf ref w1 = false).
    { subst w1. rewrite quiet_turn. unfold tokenOf in *. simpl. rewrite Hcs. exact Htok. }
    assert (Hd1 : destFs w1 !! dest = Some (existing ++ chunk)%list).
    { subst w1. rewrite quiet_turn. simpl. rewrite lookup_insert_eq, Hfs, Hd. reflexivity. }
    destruct (IH (S idx) (copied + Z.of_nat (length chunk)) w1 _ Htok1 Hd1) as [H1 H2].
    split.
    + rewrite H1. f_equal. simpl concat. rewrite length_app. lia.
    + rewrite H2. simpl concat. rewrite app_assoc. reflexivity.
Qed.

End Quiet.

Lemma onProgress_queue_only E key tc ts so st p w :
  fst (onProgress E key tc ts so st p w) = Ret tt /\
  destFs (snd (onProgress E key tc ts so st p w)) = destFs w /\
  cells (snd (onProgress E key tc ts so st p w)) = cells w.
Proof.
  unfold onProgress, updateItemStatus, updateItem. simpl.
  destruct (updateItemOk key (queue w)); repeat split; reflexivity.
Qed.

(** A copy nobody disturbs: the bytes already at the destination stay, the
    source is read from their count on, and the rest of the source is
    appended; the result is the number of bytes appended. *)
Lemma copyOne_resumes E key mp root ref ts st tc file w content :
  let src := join E mp (relativePath file) in
  let dest := join E root (relativePath file) in
  let existing := default [] (destFs w !! dest) in
  (forall n, sched E n = []) ->
  (forall i, readFault E src i = None) ->
  (forall i, writeFault E dest i = None) ->
  tokenOf ref w = false ->
  readSource E src w = Some content ->
  fst (copyOne E key mp root ref ts st tc file w)
  = Ret (Z.of_nat (length (drop (length existing) content))) /\
  destFs (snd (copyOne E key mp root ref ts st tc file w)) !! dest
  = Some (existing ++ drop (length existing) content)%list.
Proof.
  intros src dest existing Hq Hrf Hwf Htok Hsrc.
  unfold copyOne. fold src dest.
  rewrite (bind_ret _ _ _ _ _ (statDest_run E dest w)).
  rewrite (quiet_turn E Hq).
  set (w1 := setClock _ (emit (EvStat dest) w)).
  assert (Hoff : default 0 ((fun c => Z.of_nat (length c)) <$> destFs w !! dest)
                 = Z.of_nat (length existing)).
  { subst existing. destruct (destFs w !! dest); reflexivity. }
  rewrite Hoff.
  unfold copyFileWithProgress. do 4 rewrite bind_modify. rewrite bind_gets.
  rewrite (quiet_turn E Hq).
  set (w2 := setClock _ (openDest dest _ _)).
  assert (Hsrc2 : readSource E src w2 = Some content).
  { subst w2 w1. unfold readSource, openDest in *. destruct (openFlag _); exact Hsrc. }
  rewrite Hsrc2, Nat2Z.id.
  assert (Hd2 : destFs w2 !! dest = Some existing).
  { subst w2 w1 existing. unfold openDest, openFlag. simpl.
    destruct (destFs w !! dest) as [[|b c]|]; simpl; rewrite lookup_insert_eq; reflexivity. }
  assert (Htok2 : tokenOf ref w2 = false).
  { subst w2 w1. unfold openDest. destruct (openFlag _); exact Htok. }
  destruct (pump_copies E Hq src dest (Z.of_nat (length existing))
              (onProgress E key tc ts (Z.of_nat (length existing)) st) ref
              (fun p x => onProgress_queue_only E key tc ts _ st p x) Hrf Hwf
              (chunksOf E (length (drop (length existing) content))
                 (drop (length existing) content))
              0%nat (Z.of_nat (length existing)) w2 existing Htok2 Hd2) as [H1 H2].
  rewrite chunksOf_concat in H1, H2 by lia.
  split; [rewrite H1; f_equal; lia|exact H2].
Qed.

End CopyFacts.

Import CopyFacts.

Module ResumeClaims.






End ResumeClaims.

(* ===================================================================== *)
(** ** More of the processor: laws of the monad of runs *)
(* ===================================================================== *)

Import Config Terms Laws Calm Paths Hosts.

Module Keeps.

Section Relation.
Variable E : Env.
Variable R : World -> World -> Prop.
Hypothesis R_refl : forall w, R w w.
Hypothesis R_trans : forall w1 w2 w3, R w1 w2 -> R w2 w3 -> R w1 w3.
(** [R] looks at the registry, the cells and the destination files only. *)
Hypothesis R_inert :
  forall w w',
    activeDownloads w' = activeDownloads w -> cells w' = cells w ->
    destFs w' = destFs w -> R w w'.
Hypothesis R_delete : forall key w, R w (setActive (delete key (activeDownloads w)) w).
Hypothesis R_cancel : forall r w, R w (runCancel r w).
Hypothesis R_mark : forall r w, R w (markDownloadCancelled r w).

Lemma keeps_ret {A} (a : A) : keeps R (ret a).
Proof. intros w. apply R_refl. Qed.

Lemma keeps_throw {A} e : keeps R (@throw A e).
Proof. intros w. apply R_refl. Qed.

Lemma keeps_pending {A} : keeps R (@pending A).
Proof. intros w. apply R_refl. Qed.

Lemma keeps_gets {A} (f : World -> A) : keeps R (gets f).
Proof. intros w. apply R_refl. Qed.

Lemma keeps_modify f : (forall w, R w (f w)) -> keeps R (modify f).
Proof. intros H w. apply H. Qed.

Lemma keeps_bind {A B} (m : M A) (k : A -> M B) :
  keeps R m -> (forall a, keeps R (k a)) -> keeps R (bind m k).
Proof.
  intros Hm Hk w. unfold bind. specialize (Hm w).
  destruct (m w) as [[a|e|] w1]; simpl in *; [|exact Hm|exact Hm].
  eapply R_trans; [exact Hm|apply Hk].
Qed.

Lemma keeps_tryCatch {A} (m : M A) h :
  keeps R m -> (forall e, keeps R (h e)) -> keeps R (tryCatch m h).
Proof.
  intros Hm Hh w. unfold tryCatch. specialize (Hm w).
  destruct (m w) as [[a|e|] w1]; simpl in *; [exact Hm| |exact Hm].
  eapply R_trans; [exact Hm|apply Hh].
Qed.

Lemma R_emit e w : R w (emit e w).
Proof. apply R_inert; reflexivity. Qed.

Lemma R_updateThenEmit key u w :
  R w (let '(updated, w2) := updateItem key u w in
       if updated then emit EvEmitUpdate w2 else w2).
Proof.
  unfold updateItem. destruct (updateItemOk key (queue w)); apply R_inert; reflexivity.
Qed.

Lemma R_stopController key w : R w (stopController key w).
Proof.
  unfold stopController. destruct (activeDownloads w !! key) as [ctl|]; [|apply R_refl].
  eapply R_trans; [apply (R_cancel (cancelRef ctl))|].
  destruct (mountProcess ctl) as [p|].
  - eapply R_trans; [apply (R_emit (EvKill p))|]. apply R_delete.
  - apply R_delete.
Qed.

Lemma R_runAction a w : R w (runAction a w).
Proof.
  destruct a as [k f m|k|k u|k]; simpl.
  - unfold cancelDownload. eapply R_trans; [apply R_stopController|].
    destruct (findItem k (queue (stopController k w))); [|apply R_refl].
    apply R_updateThenEmit.
  - unfold pauseDownload. eapply R_trans; [apply R_stopController|].
    destruct (findItem k (queue (stopController k w))); [|apply R_refl].
    apply R_updateThenEmit.
  - apply R_inert; reflexivity.
  - apply R_inert; reflexivity.
Qed.

Lemma R_runActions l : forall w, R w (runActions l w).
Proof.
  induction l as [|a l IH]; intros w; simpl; [apply R_refl|].
  eapply R_trans; [apply R_runAction|apply IH].
Qed.

Lemma R_turn w : R w (turn E w).
Proof.
  unfold turn. eapply R_trans; [|apply R_runActions]. apply R_inert; reflexivity.
Qed.

Lemma keeps_turn : keeps R (modify (turn E)).
Proof. apply keeps_modify, R_turn. Qed.

Lemma keeps_await {A} (m : M A) : keeps R m -> keeps R (await E m).
Proof.
  intros Hm w. unfold await. specialize (Hm w).
  destruct (m w) as [[a|e|] w1]; simpl in *; [| |exact Hm];
    (eapply R_trans; [exact Hm|apply R_turn]).
Qed.

Lemma keeps_emit e : keeps R (modify (emit e)).
Proof. apply keeps_modify. intros w. apply R_emit. Qed.

Lemma keeps_setStatus key st prog err : keeps R (setStatus key st prog err).
Proof. apply keeps_modify. intros w. apply R_updateThenEmit. Qed.

Lemma keeps_mkdir path : keeps R (mkdir E path).
Proof.
  unfold mkdir. apply keeps_await, keeps_bind; [apply keeps_emit|].
  intros _. destruct (mkdirFault E path); [apply keeps_throw|apply keeps_ret].
Qed.

Lemma keeps_statDest dest : keeps R (statDest E dest).
Proof.
  unfold statDest. apply keeps_await, keeps_bind; [apply keeps_emit|].
  intros _. apply keeps_gets.
Qed.

Lemma keeps_spawnMount args mp : keeps R (spawnMount args mp).
Proof. intros w. apply R_inert; reflexivity. Qed.

Lemma keeps_pollMount mp n : forall i, keeps R (pollMount E mp i n).
Proof.
  induction n as [|n IH]; intros i; simpl; [apply keeps_ret|].
  apply keeps_bind; [apply keeps_await, keeps_emit|]. intros _.
  apply keeps_bind.
  - apply keeps_await, keeps_bind; [apply keeps_emit|]. intros _. apply keeps_ret.
  - intros testRead. destruct (listingReady testRead); [apply keeps_ret|apply IH].
Qed.

Lemma keeps_cleanup mp key : keeps R (cleanup E mp key).
Proof.
  unfold cleanup. apply keeps_bind; [apply keeps_emit|]. intros _.
  apply keeps_bind.
  { apply keeps_modify. intros w. destruct (Js.truthy key); [|apply R_refl].
    destruct (activeDownloads w !! default "" key) as [ctl|]; [|apply R_refl].
    destruct (mountProcess ctl); [apply R_emit|apply R_refl]. }
  intros _. apply keeps_bind.
  { destruct (platform E); try apply keeps_await; try apply keeps_emit. apply keeps_ret. }
  intros _. apply keeps_await, keeps_emit.
Qed.

Lemma keeps_alreadyCopied root files : forall tc, keeps R (alreadyCopied E root files tc).
Proof.
  induction files as [|file rest IH]; intros tc; simpl; [apply keeps_ret|].
  apply keeps_bind; [apply keeps_statDest|]. intros s. apply IH.
Qed.

Lemma keeps_onProgress key tc ts so st p : keeps R (onProgress E key tc ts so st p).
Proof. intros w. unfold onProgress. simpl. apply R_updateThenEmit. Qed.

Lemma keeps_unregister key : keeps R (unregister key).
Proof. apply keeps_modify. intros w. apply R_delete. Qed.

Lemma keeps_unregisterIfActive key : keeps R (unregisterIfActive key).
Proof.
  apply keeps_modify. intros w. destruct (isDownloadActive key w); [|apply R_refl].
  eapply R_trans; [apply (R_delete key)|]. apply R_inert; reflexivity.
Qed.

Lemma keeps_clearPid key : keeps R (clearPid key).
Proof. apply keeps_modify. intros w. apply R_inert; reflexivity. Qed.

Lemma keeps_completeAttempt key mp ref : keeps R (completeAttempt E key mp ref).
Proof.
  unfold completeAttempt. apply keeps_bind; [apply keeps_gets|]. intros c. destruct c.
  - apply keeps_bind; [apply keeps_unregister|]. intros _.
    apply keeps_bind; [apply keeps_gets|]. intros f. apply keeps_ret.
  - apply keeps_bind; [apply keeps_gets|]. intros f.
    destruct (match f with Some it => _ | None => _ end).
    + apply keeps_bind; [apply keeps_cleanup|]. intros _.
      apply keeps_bind; [apply keeps_unregisterIfActive|]. intros _. apply keeps_ret.
    + apply keeps_bind; [apply keeps_unregister|]. intros _.
      apply keeps_bind; [apply keeps_clearPid|]. intros _.
      apply keeps_bind; [apply keeps_cleanup|]. intros _. apply keeps_ret.
Qed.

Lemma keeps_attemptCatch item mp e : keeps R (attemptCatch E item mp e).
Proof.
  unfold attemptCatch. apply keeps_bind; [apply keeps_gets|]. intros cur.
  apply keeps_bind; [apply keeps_cleanup|]. intros _.
  apply keeps_bind; [apply keeps_unregisterIfActive|]. intros _.
  assert (Hrest : keeps R
    ((match cur with
       | Some it =>
           if bool_decide (status it ≠ Cancelled ∧ status it ≠ Error)
           then setStatus (releaseName item) Error (progress it) (Some (errorMessageOf e))
           else ret tt
       | None => setStatus (releaseName item) Error (Js.Num 0) (Some (errorMessageOf e))
       end) ;;
      finalItemState <- gets (fun w => findItem (releaseName item) (queue w)) ;;
      ret (mkResult false false finalItemState))).
  { apply keeps_bind.
    - destruct cur as [it|]; [destruct (bool_decide _)|]; try apply keeps_setStatus.
      apply keeps_ret.
    - intros _. apply keeps_bind; [apply keeps_gets|]. intros f. apply keeps_ret. }
  destruct e as [m|sm m [c|]|t]; try exact Hrest.
  destruct c as [|c|c]; try exact Hrest.
  do 8 (destruct c as [c|c|]; try exact Hrest).
  apply keeps_ret.
Qed.

(** *** The stream copy, for relations that appending to a file respects *)

Hypothesis R_append : forall dest chunk w, R w (appendDest dest chunk w).

Lemma keeps_pump src dest so onP ref chunks :
  (forall p, keeps R (onP p)) ->
  forall idx copied, keeps R (pump E src dest so onP ref chunks idx copied).
Proof.
  intros HonP. induction chunks as [|chunk rest IH]; intros idx copied; simpl.
  - apply keeps_bind; [apply keeps_emit|]. intros _.
    apply keeps_bind; [apply keeps_turn|]. intros _. apply keeps_ret.
  - destruct (readFault E src idx).
    { apply keeps_bind; [apply keeps_emit|]. intros _. apply keeps_throw. }
    apply keeps_bind; [apply keeps_gets|].
    intros cancelled. destruct cancelled.
    { apply keeps_bind; [apply keeps_emit|]. intros _.
      apply keeps_bind; [apply keeps_emit|]. intros _. apply keeps_pending. }
    apply keeps_bind; [apply HonP|]. intros _.
    destruct (writeFault E dest idx).
    { apply keeps_bind; [apply keeps_emit|]. intros _. apply keeps_throw. }
    apply keeps_bind; [apply keeps_modify, R_append|]. intros _.
    apply keeps_bind; [apply keeps_turn|]. intros _. apply IH.
Qed.

(** The copy of a file after its destination is opened. *)
Lemma keeps_afterOpen src dest so onP ref :
  (forall p, keeps R (onP p)) ->
  keeps R (modify (turn E) ;;
           source <- gets (readSource E src) ;;
           match source with
           | None =>
               modify (emit (EvDestroyWrite dest)) ;;
               throw (JsError ("ENOENT: no such file or directory, open " +:+ src))
           | Some content =>
               let rest := drop (Z.to_nat so) content in
               pump E src dest so onP ref (chunksOf E (length rest) rest) 0 so
           end).
Proof.
  intros HonP. apply keeps_bind; [apply keeps_turn|]. intros _.
  apply keeps_bind; [apply keeps_gets|]. intros source. destruct source.
  - apply keeps_pump, HonP.
  - apply keeps_bind; [apply keeps_emit|]. intros _. apply keeps_throw.
Qed.

(** For a relation that opening a destination respects too. *)
Lemma keeps_copyOne_open key mp root ref ts st tc file :
  (forall dest flag w, R w (openDest dest flag w)) ->
  keeps R (copyOne E key mp root ref ts st tc file).
Proof.
  intros R_open. unfold copyOne. apply keeps_bind; [apply keeps_statDest|]. intros s.
  unfold copyFileWithProgress.
  apply keeps_bind; [apply keeps_emit|]. intros _.
  apply keeps_bind; [apply keeps_emit|]. intros _.
  apply keeps_bind; [apply keeps_modify, R_open|]. intros _.
  apply keeps_afterOpen. intros p. apply keeps_onProgress.
Qed.

(** *** The copy, for relations that the copy of a file respects *)

Hypothesis R_copyOne :
  forall key mp root ref ts st tc file,
    keeps R (copyOne E key mp root ref ts st tc file).
Hypothesis R_register : forall key proc w, R w (snd (registerController key proc w)).

Lemma keeps_copyLoop key mp root ref ts st files :
  forall tc, keeps R (copyLoop E key mp root ref ts st files tc).
Proof.
  induction files as [|file rest IH]; intros tc; simpl; [apply keeps_ret|].
  apply keeps_bind; [apply keeps_gets|]. intros cur.
  apply keeps_bind; [apply keeps_gets|]. intros c.
  destruct (_ || c); [apply keeps_modify, R_mark|].
  apply keeps_bind; [apply keeps_mkdir|]. intros _.
  apply keeps_bind; [apply R_copyOne|]. intros n.
  apply keeps_bind; [apply keeps_gets|]. intros c'.
  destruct c'; [apply keeps_modify, R_mark|apply IH].
Qed.

Lemma keeps_downloadFromMount item root mp proc :
  keeps R (downloadFromMount E item root mp proc).
Proof.
  unfold downloadFromMount.
  apply keeps_bind.
  { apply keeps_tryCatch; [|intros e; apply keeps_ret].
    apply keeps_bind.
    - apply keeps_await, keeps_bind; [apply keeps_emit|]. intros _.
      destruct (contentsFault E); [apply keeps_throw|apply keeps_ret].
    - intros _. destruct (bool_decide _); [apply keeps_throw|apply keeps_ret]. }
  intros accessible. destruct accessible; simpl.
  - apply keeps_bind; [apply keeps_await, keeps_ret|].
    intros files. apply keeps_bind; [apply keeps_alreadyCopied|].
    intros tc. apply keeps_bind.
    { destruct (0 <? tc); [apply keeps_setStatus|apply keeps_ret]. }
    intros _. apply keeps_bind; [apply keeps_gets|]. intros st.
    apply keeps_bind; [intros w; apply R_register|].
    intros ref. apply keeps_bind; [apply keeps_copyLoop|].
    intros _. apply keeps_completeAttempt.
  - apply keeps_bind; [apply keeps_setStatus|]. intros _.
    apply keeps_bind; [apply keeps_cleanup|]. intros _. apply keeps_ret.
Qed.

Lemma keeps_mountAndDownload item mc root mp :
  keeps R (mountAndDownload E item mc root mp).
Proof.
  unfold mountAndDownload.
  apply keeps_bind; [apply keeps_setStatus|]. intros _.
  apply keeps_bind; [apply keeps_gets|]. intros args.
  apply keeps_bind; [apply keeps_spawnMount|].
  intros proc. apply keeps_bind; [apply keeps_pollMount|].
  intros ready. destruct ready; simpl;
    [apply keeps_downloadFromMount|apply keeps_throw].
Qed.

Lemma keeps_attemptBody item mc root mp : keeps R (attemptBody E item mc root mp).
Proof.
  unfold attemptBody.
  apply keeps_bind; [apply keeps_mkdir|]. intros _.
  apply keeps_bind; [apply keeps_mkdir|]. intros _.
  apply keeps_bind; [apply keeps_await, keeps_ret|].
  intros _. destruct (diskSpacePreflight E item).
  - apply keeps_bind; [apply keeps_setStatus|]. intros _.
    apply keeps_bind; [apply keeps_cleanup|]. intros _. apply keeps_ret.
  - apply keeps_mountAndDownload.
Qed.

Lemma keeps_startMountBasedDownload item mc :
  keeps R (startMountBasedDownload E item mc).
Proof.
  unfold startMountBasedDownload.
  apply keeps_bind; [apply keeps_gets|]. intros c. destruct c; simpl.
  - destruct (Js.truthy (rclonePath E)); simpl.
    + apply keeps_bind.
      { intros w. apply R_inert; reflexivity. }
      intros _. apply keeps_bind; [apply keeps_gets|]. intros stamp.
      apply keeps_tryCatch; [apply keeps_attemptBody|].
      intros e. apply keeps_attemptCatch.
    + apply keeps_bind; [apply keeps_setStatus|]. intros _. apply keeps_ret.
  - apply keeps_bind; [apply keeps_setStatus|]. intros _. apply keeps_ret.
Qed.

Lemma keeps_viaMirrorOrPublic item : keeps R (viaMirrorOrPublic E item).
Proof.
  unfold viaMirrorOrPublic.
  apply keeps_bind; [apply keeps_setStatus|]. intros _.
  apply keeps_bind; [apply keeps_await, keeps_ret|]. intros _.
  apply keeps_bind.
  - destruct (activeMirror E); [|apply keeps_ret].
    destruct (_ && _); [|apply keeps_ret].
    apply keeps_tryCatch; [|intros e; apply keeps_ret].
    apply keeps_bind; [apply keeps_startMountBasedDownload|]. intros r. apply keeps_ret.
  - intros [r|]; [apply keeps_ret|apply keeps_startMountBasedDownload].
Qed.

Lemma keeps_startDownload item : keeps R (startDownload E item).
Proof.
  unfold startDownload.
  apply keeps_bind; [apply keeps_gets|]. intros c. destruct c; simpl.
  - destruct (Js.truthy (rclonePath E)); simpl.
    + apply keeps_bind.
      { intros w. apply R_inert; reflexivity. }
      intros _. apply keeps_bind.
      { apply keeps_tryCatch; [|intros e; apply keeps_ret].
        apply keeps_bind; [apply keeps_mkdir|]. intros _. apply keeps_ret. }
      intros [e|].
      * apply keeps_bind; [apply keeps_setStatus|]. intros _. apply keeps_ret.
      * apply keeps_bind; [apply keeps_await, keeps_ret|]. intros _.
        destruct (diskSpacePreflight E item).
        -- apply keeps_bind; [apply keeps_setStatus|]. intros _. apply keeps_ret.
        -- apply keeps_viaMirrorOrPublic.
    + apply keeps_bind; [apply keeps_setStatus|]. intros _. apply keeps_ret.
  - apply keeps_bind; [apply keeps_setStatus|]. intros _. apply keeps_ret.
Qed.

Lemma keeps_resumeDownload item : keeps R (resumeDownload E item).
Proof.
  unfold resumeDownload.
  apply keeps_bind; [apply keeps_setStatus|]. intros _.
  apply keeps_startMountBasedDownload.
Qed.

End Relation.

End Keeps.

Import Keeps.

(* ===================================================================== *)
(** ** The synchronous methods *)
(* ===================================================================== *)

Module SyncFacts.

Lemma findItem_updateQueue_ne key key' u q :
  key' <> key -> findItem key' (updateQueue key u q) = findItem key' q.
Proof.
  intros Hne. induction q as [|it q IH]; simpl; [reflexivity|].
  destruct (String.eqb (releaseName it) key) eqn:Hk; simpl.
  - apply String.eqb_eq in Hk.
    destruct (String.eqb (releaseName it) key') eqn:Hk'; [|reflexivity].
    apply String.eqb_eq in Hk'. congruence.
  - rewrite IH. reflexivity.
Qed.

Lemma updateQueue_absent key u q :
  findItem key q = None -> updateQueue key u q = q.
Proof.
  induction q as [|it q IH]; simpl; [reflexivity|].
  destruct (String.eqb (releaseName it) key); [discriminate|].
  intros H. rewrite IH by exact H. reflexivity.
Qed.

Lemma updateItemOk_found key q it : findItem key q = Some it -> updateItemOk key q = true.
Proof. intros H. unfold updateItemOk. rewrite H. reflexivity. Qed.

Lemma updateItemOk_absent key q : findItem key q = None -> updateItemOk key q = false.
Proof. intros H. unfold updateItemOk. rewrite H. reflexivity. Qed.

Lemma setQueue_same w : setQueue (queue w) w = w.
Proof. destruct w; reflexivity. Qed.

Lemma queue_pauseDownload key w :
  queue (pauseDownload key w) = updateQueue key pauseUpdates (queue w).
Proof.
  unfold pauseDownload. rewrite queue_stopController.
  destruct (findItem key (queue w)) as [item|] eqn:Hf.
  - unfold updateItem. rewrite queue_stopController.
    destruct (updateItemOk key (queue w)); reflexivity.
  - rewrite queue_stopController, updateQueue_absent by exact Hf. reflexivity.
Qed.

Lemma active_pauseDownload key w :
  activeDownloads (pauseDownload key w) = delete key (activeDownloads w).
Proof.
  unfold pauseDownload.
  destruct (findItem key (queue (stopController key w))) as [item|].
  - unfold updateItem. destruct (updateItemOk _ _); simpl; apply active_stopController.
  - apply active_stopController.
Qed.

Lemma trace_stopController key w :
  trace (stopController key w)
  = (trace w ++ match activeDownloads w !! key ≫= mountProcess with
                | Some p => [EvKill p]
                | None => []
                end)%list.
Proof.
  unfold stopController. destruct (activeDownloads w !! key) as [ctl|]; simpl.
  - destruct (mountProcess ctl); simpl; [reflexivity|]. rewrite app_nil_r. reflexivity.
  - rewrite app_nil_r. reflexivity.
Qed.

Lemma cells_stopController key w :
  cells (stopController key w)
  = match activeDownloads w !! key with
    | Some ctl => <[cancelRef ctl := mkCell true true]> (cells w)
    | None => cells w
    end.
Proof.
  unfold stopController. destruct (activeDownloads w !! key) as [ctl|]; [|reflexivity].
  destruct (mountProcess ctl); reflexivity.
Qed.

Lemma trace_pauseDownload key w :
  trace (pauseDownload key w) = (trace w ++ stopEvents key w)%list.
Proof.
  unfold pauseDownload, stopEvents. rewrite queue_stopController.
  destruct (findItem key (queue w)) as [item|] eqn:Hf.
  - unfold updateItem. rewrite queue_stopController.
    rewrite (updateItemOk_found _ _ _ Hf). simpl.
    rewrite trace_stopController, app_assoc. reflexivity.
  - rewrite trace_stopController, app_nil_r. reflexivity.
Qed.

Lemma trace_cancelDownload key fs msg w :
  trace (cancelDownload key fs msg w) = (trace w ++ stopEvents key w)%list.
Proof.
  unfold cancelDownload, stopEvents. rewrite queue_stopController.
  destruct (findItem key (queue w)) as [item|] eqn:Hf.
  - unfold updateItem. rewrite queue_stopController.
    rewrite (updateItemOk_found _ _ _ Hf). simpl.
    rewrite trace_stopController, app_assoc. reflexivity.
  - rewrite trace_stopController, app_nil_r. reflexivity.
Qed.

Lemma cells_pauseDownload key w :
  cells (pauseDownload key w) = cells (stopController key w).
Proof.
  unfold pauseDownload.
  destruct (findItem key (queue (stopController key w))); [|reflexivity].
  unfold updateItem. destruct (updateItemOk _ _); reflexivity.
Qed.

Lemma cells_cancelDownload key fs msg w :
  cells (cancelDownload key fs msg w) = cells (stopController key w).
Proof.
  unfold cancelDownload.
  destruct (findItem key (queue (stopController key w))); [|reflexivity].
  unfold updateItem. destruct (updateItemOk _ _); reflexivity.
Qed.

Lemma untouched_pauseDownload key w :
  destFs (pauseDownload key w) = destFs w /\
  vrpConfig (pauseDownload key w) = vrpConfig w /\
  mounts (pauseDownload key w) = mounts w.
Proof.
  unfold pauseDownload, stopController, updateItem.
  destruct (activeDownloads w !! key) as [ctl|]; [destruct (mountProcess ctl)|];
    simpl; destruct (findItem key (queue w)); simpl;
    try destruct (updateItemOk _ _); repeat split; reflexivity.
Qed.

(** The item after [updateItemStatus]. *)
Lemma findItem_updateItemStatus key st prog err sp et ex w :
  findItem key (queue (updateItemStatus key st prog err sp et ex w))
  = applyUpdates
      {| u_status := Some st; u_progress := Some prog; u_error := Some err;
         u_speed := Some sp; u_eta := Some et;
         u_extractProgress :=
           match ex with
           | Some x => Some (Some x)
           | None =>
               if bool_decide (st ≠ Extracting ∧ st ≠ Completed)
               then Some None else None
           end;
         u_pid := None; u_downloadPath := None |}
    <$> findItem key (queue w).
Proof.
  unfold updateItemStatus, updateItem.
  destruct (updateItemOk key (queue w)); simpl; apply findItem_updateQueue.
Qed.

Lemma untouched_updateItemStatus key st prog err sp et ex w :
  let w' := updateItemStatus key st prog err sp et ex w in
  activeDownloads w' = activeDownloads w /\ cells w' = cells w /\
  destFs w' = destFs w /\ mounts w' = mounts w /\ vrpConfig w' = vrpConfig w.
Proof.
  unfold updateItemStatus, updateItem.
  destruct (updateItemOk key (queue w)); repeat split; reflexivity.
Qed.

End SyncFacts.

Import SyncFacts.

Module SyncProps.

(** Property X1. [pauseDownload(key)] on a queued item, whatever its status
    was (Error and Completed included): the status becomes Paused and the pid
    is cleared, while progress, error, speed, eta, extraction progress, size
    and download path stay as they were; the registry has no entry for [key]
    afterwards. *)
Theorem pauseDownload_marks_paused key w item :
  findItem key (queue w) = Some item ->
  let w' := pauseDownload key w in
  (exists item',
      findItem key (queue w') = Some item' /\
      status item' = Paused /\ pid item' = None /\
      progress item' = progress item /\ error item' = error item /\
      speed item' = speed item /\ eta item' = eta item /\
      extractProgress item' = extractProgress item /\
      size item' = size item /\ downloadPath item' = downloadPath item) /\
  activeDownloads w' !! key = None /\
  isDownloadActive key w' = false.
Proof.
  intros Hf w'. subst w'. split.
  - rewrite queue_pauseDownload, findItem_updateQueue, Hf. simpl.
    eexists. split; [reflexivity|]. repeat split.
  - unfold isDownloadActive. rewrite active_pauseDownload, lookup_delete_eq.
    split; reflexivity.
Qed.

(** An item that failed at 40 percent is paused: it leaves the Error state
    and keeps its progress and its error text. *)
Lemma pauseDownload_marks_paused_witness :
  exists item',
    findItem "Game-A" (queue (pauseDownload "Game-A" (queued failedGame))) = Some item' /\
    status item' = Paused /\ progress item' = Js.Num 40 /\ error item' = Some "disk full".
Proof.
  destruct (pauseDownload_marks_paused "Game-A" (queued failedGame) failedGame eq_refl)
    as ((item' & Hf & Hs & _ & Hp & He & _) & _).
  exists item'. repeat split; assumption.
Defined.

(** Property X2. [cancelDownload] and [pauseDownload] of a release with an
    active controller run its [cancel] closure (the token and the
    [downloadCancelled] flag of the attempt are set), send SIGTERM to its
    mount process, remove the registry entry, and log exactly the kill
    followed by the notification of the item update when the item is
    queued. *)
Theorem stop_active_download key w ctl c :
  activeDownloads w !! key = Some ctl ->
  cells w !! cancelRef ctl = Some c ->
  forall w',
    w' = pauseDownload key w \/ (exists fs msg, w' = cancelDownload key fs msg w) ->
    tokenOf (cancelRef ctl) w' = true /\
    downloadCancelledOf (cancelRef ctl) w' = true /\
    activeDownloads w' !! key = None /\
    trace w' = (trace w ++ stopEvents key w)%list /\
    (forall p, mountProcess ctl = Some p -> In (EvKill p) (stopEvents key w)).
Proof.
  intros Ha Hc w' Hw'.
  assert (Hcells : cells w' = <[cancelRef ctl := mkCell true true]> (cells w)).
  { destruct Hw' as [->|(fs & msg & ->)];
      [rewrite cells_pauseDownload|rewrite cells_cancelDownload];
      rewrite cells_stopController, Ha; reflexivity. }
  assert (Hlt : (cancelRef ctl < length (cells w))%nat).
  { apply lookup_lt_is_Some. eauto. }
  unfold tokenOf, downloadCancelledOf. rewrite Hcells.
  rewrite list_lookup_insert_eq by exact Hlt. simpl.
  split; [reflexivity|]. split; [reflexivity|]. split.
  { destruct Hw' as [->|(fs & msg & ->)];
      [rewrite active_pauseDownload|rewrite active_cancelDownload];
      apply lookup_delete_eq. }
  split.
  { destruct Hw' as [->|(fs & msg & ->)];
      [apply trace_pauseDownload|apply trace_cancelDownload]. }
  intros p Hp. unfold stopEvents. rewrite Ha. simpl. rewrite Hp.
  apply in_or_app. left. left. reflexivity.
Qed.

(** [Game-A] is being transferred and is paused. *)
Lemma stop_active_download_witness :
  tokenOf 0 (pauseDownload "Game-A" busy) = true /\
  trace (pauseDownload "Game-A" busy) = [EvKill 0; EvEmitUpdate].
Proof.
  destruct (stop_active_download "Game-A" busy (mkController 0 (Some 0%nat))
              (mkCell false false) eq_refl eq_refl
              (pauseDownload "Game-A" busy) (or_introl eq_refl))
    as (Ht & _ & _ & Htr & _).
  split; [exact Ht|exact Htr].
Defined.

(** Property X3. [cancelDownload] and [pauseDownload] of one release leave
    every other release alone: its registry entry and its queue item are the
    same afterwards, and so are the destination files, the configuration and
    every cancellation cell except the one of the stopped controller. *)
Theorem stop_leaves_others_alone key key' w :
  key' <> key ->
  forall w',
    w' = pauseDownload key w \/ (exists fs msg, w' = cancelDownload key fs msg w) ->
    activeDownloads w' !! key' = activeDownloads w !! key' /\
    findItem key' (queue w') = findItem key' (queue w) /\
    destFs w' = destFs w /\
    vrpConfig w' = vrpConfig w /\
    (forall r, (forall ctl, activeDownloads w !! key = Some ctl -> cancelRef ctl <> r) ->
               cells w' !! r = cells w !! r).
Proof.
  intros Hne w' Hw'.
  split.
  { destruct Hw' as [->|(fs & msg & ->)];
      [rewrite active_pauseDownload|rewrite active_cancelDownload];
      apply lookup_delete_ne; congruence. }
  split.
  { destruct Hw' as [->|(fs & msg & ->)].
    - rewrite queue_pauseDownload. apply findItem_updateQueue_ne. exact Hne.
    - rewrite queue_cancelDownload. destruct (findItem key (queue w)); [|reflexivity].
      apply findItem_updateQueue_ne. exact Hne. }
  split.
  { destruct Hw' as [->|(fs & msg & ->)];
      [apply untouched_pauseDownload|apply untouched_cancelDownload]. }
  split.
  { destruct Hw' as [->|(fs & msg & ->)];
      [apply untouched_pauseDownload|apply untouched_cancelDownload]. }
  intros r Hr.
  assert (Hcells : cells w' = cells (stopController key w)).
  { destruct Hw' as [->|(fs & msg & ->)];
      [apply cells_pauseDownload|apply cells_cancelDownload]. }
  rewrite Hcells, cells_stopController.
  destruct (activeDownloads w !! key) as [ctl|]; [|reflexivity].
  apply list_lookup_insert_ne. apply Hr. reflexivity.
Qed.

(** [Game-A] is cancelled while [Game-B] is queued next to it. *)
Lemma stop_leaves_others_alone_witness :
  let w := setQueue [gameA Downloading None; gameB] busy in
  findItem "Game-B" (queue (cancelDownload "Game-A" FCancelled None w)) = Some gameB.
Proof.
  intros w.
  destruct (stop_leaves_others_alone "Game-A" "Game-B" w ltac:(discriminate)
              (cancelDownload "Game-A" FCancelled None w)
              (or_intror (ex_intro _ FCancelled (ex_intro _ None eq_refl))))
    as (_ & Hq & _).
  rewrite Hq. reflexivity.
Defined.

(** Property X4. For a release name that is neither queued nor active,
    [cancelDownload], [pauseDownload] and [updateItemStatus] change nothing
    and notify nobody. *)
Theorem unknown_release_is_ignored key w :
  findItem key (queue w) = None ->
  activeDownloads w !! key = None ->
  (forall fs msg, cancelDownload key fs msg w = w) /\
  pauseDownload key w = w /\
  (forall st prog err sp et ex, updateItemStatus key st prog err sp et ex w = w).
Proof.
  intros Hf Ha. split; [|split].
  - intros fs msg. unfold cancelDownload.
    rewrite (stopController_inactive _ _ Ha), Hf. reflexivity.
  - unfold pauseDownload. rewrite (stopController_inactive _ _ Ha), Hf. reflexivity.
  - intros st prog err sp et ex. unfold updateItemStatus, updateItem.
    rewrite (updateItemOk_absent _ _ Hf), updateQueue_absent by exact Hf.
    apply setQueue_same.
Qed.

Lemma unknown_release_is_ignored_witness :
  pauseDownload "Game-B" busy = busy.
Proof.
  apply (unknown_release_is_ignored "Game-B" busy eq_refl eq_refl).
Defined.

(** Property X5. [updateItemStatus] on a queued item always overwrites
    status, progress, error, speed and eta (an argument that is left out
    clears the field); it never touches pid, size or download path; the
    extraction progress is set when given, kept when the new status is
    Extracting or Completed, and cleared otherwise; one update is notified. *)
Theorem updateItemStatus_fields key st prog err sp et ex w item :
  findItem key (queue w) = Some item ->
  let w' := updateItemStatus key st prog err sp et ex w in
  (exists item',
      findItem key (queue w') = Some item' /\
      status item' = st /\ progress item' = prog /\ error item' = err /\
      speed item' = sp /\ eta item' = et /\
      pid item' = pid item /\ size item' = size item /\
      downloadPath item' = downloadPath item /\
      extractProgress item' =
        match ex with
        | Some x => Some x
        | None =>
            match st with
            | Extracting | Completed => extractProgress item
            | _ => None
            end
        end) /\
  trace w' = (trace w ++ [EvEmitUpdate])%list.
Proof.
  intros Hf w'. subst w'. split.
  - rewrite findItem_updateItemStatus, Hf. simpl.
    eexists. split; [reflexivity|]. repeat split.
    destruct ex as [x|]; [reflexivity|]. destruct st; reflexivity.
  - unfold updateItemStatus, updateItem.
    rewrite (updateItemOk_found _ _ _ Hf). reflexivity.
Qed.

(** The failed [Game-A] is set to Downloading without an error argument: the
    old error text is gone. *)
Lemma updateItemStatus_fields_witness :
  exists item',
    findItem "Game-A"
      (queue (updateItemStatus "Game-A" Downloading (Js.Num 40) None None None None
                (queued failedGame))) = Some item' /\
    error item' = None /\ pid item' = Some 7.
Proof.
  destruct (updateItemStatus_fields "Game-A" Downloading (Js.Num 40) None None None None
              (queued failedGame) failedGame eq_refl)
    as ((item' & Hf & _ & _ & He & _ & _ & Hp & _) & _).
  exists item'. repeat split; assumption.
Defined.

End SyncProps.

(* ===================================================================== *)
(** ** Invariants of the asynchronous methods *)
(* ===================================================================== *)

Module CellFacts.

Lemma cellsGrow_refl w : cellsGrow w w.
Proof. intros r c H. exists c. auto. Qed.

Lemma cellsGrow_trans w1 w2 w3 : cellsGrow w1 w2 -> cellsGrow w2 w3 -> cellsGrow w1 w3.
Proof.
  intros H12 H23 r c H. destruct (H12 r c H) as (c2 & H2 & Ht2 & Hd2).
  destruct (H23 r c2 H2) as (c3 & H3 & Ht3 & Hd3). exists c3. auto.
Qed.

Lemma cellsGrow_same w w' : cells w' = cells w -> cellsGrow w w'.
Proof. intros Hc r c H. exists c. rewrite Hc. auto. Qed.

Lemma cellsGrow_inert w w' :
  activeDownloads w' = activeDownloads w -> cells w' = cells w ->
  destFs w' = destFs w -> cellsGrow w w'.
Proof. intros _ Hc _. apply cellsGrow_same, Hc. Qed.

Lemma cellsGrow_delete key w : cellsGrow w (setActive (delete key (activeDownloads w)) w).
Proof. apply cellsGrow_same. reflexivity. Qed.

Lemma cellsGrow_cancel r w : cellsGrow w (runCancel r w).
Proof.
  intros r0 c H. unfold runCancel. simpl.
  destruct (decide (r0 = r)) as [->|Hne].
  - exists (mkCell true true). rewrite list_lookup_insert_eq; [auto|].
    apply lookup_lt_is_Some. eauto.
  - exists c. rewrite list_lookup_insert_ne by congruence. auto.
Qed.

Lemma cellsGrow_mark r w : cellsGrow w (markDownloadCancelled r w).
Proof.
  intros r0 c H. unfold markDownloadCancelled. simpl.
  destruct (decide (r0 = r)) as [->|Hne].
  - exists (mkCell (tokenOf r w) true). rewrite list_lookup_insert_eq.
    + unfold tokenOf. rewrite H. auto.
    + apply lookup_lt_is_Some. eauto.
  - exists c. rewrite list_lookup_insert_ne by congruence. auto.
Qed.

Lemma cellsGrow_register key proc w : cellsGrow w (snd (registerController key proc w)).
Proof.
  intros r c H. exists c. simpl. rewrite lookup_app_l_Some with (x := c); auto.
Qed.

Lemma cellsGrow_append dest chunk w : cellsGrow w (appendDest dest chunk w).
Proof. apply cellsGrow_same. reflexivity. Qed.

Lemma cellsGrow_open dest flag w : cellsGrow w (openDest dest flag w).
Proof. apply cellsGrow_same. destruct flag; reflexivity. Qed.

Lemma cellsGrow_copyOne E key mp root ref ts st tc file :
  keeps cellsGrow (copyOne E key mp root ref ts st tc file).
Proof.
  apply (keeps_copyOne_open E cellsGrow cellsGrow_refl cellsGrow_trans cellsGrow_inert
           cellsGrow_delete cellsGrow_cancel cellsGrow_append).
  apply cellsGrow_open.
Qed.

Lemma cellsGrow_token r w w' :
  cellsGrow w w' ->
  (tokenOf r w = true -> tokenOf r w' = true) /\
  (downloadCancelledOf r w = true -> downloadCancelledOf r w' = true).
Proof.
  intros H. unfold tokenOf, downloadCancelledOf.
  destruct (cells w !! r) as [c|] eqn:Hc; [|split; discriminate].
  destruct (H r c Hc) as (c' & -> & Ht & Hd). split; assumption.
Qed.

End CellFacts.

Import CellFacts.

Module DestFacts.

Lemma sameDest_turn E w : destFs (turn E w) = destFs w.
Proof.
  apply (R_turn E sameDest); unfold sameDest.
  - reflexivity.
  - intros w1 w2 w3 H12 H23. congruence.
  - intros x x' _ _ H. exact H.
  - reflexivity.
  - reflexivity.
Qed.












End DestFacts.

Import DestFacts.

Module RejectFacts.

Lemma noThrow_ret {A} (a : A) : noThrow (ret a).
Proof. intros w e. discriminate. Qed.

Lemma noThrow_gets {A} (f : World -> A) : noThrow (gets f).
Proof. intros w e. discriminate. Qed.

Lemma noThrow_modify f : noThrow (modify f).
Proof. intros w e. discriminate. Qed.

Lemma noThrow_bind {A B} (m : M A) (k : A -> M B) :
  noThrow m -> (forall a, noThrow (k a)) -> noThrow (bind m k).
Proof.
  intros Hm Hk w e. unfold bind. specialize (Hm w).
  destruct (m w) as [[a|e'|] w1]; simpl in *.
  - apply Hk.
  - exfalso. apply (Hm e'). reflexivity.
  - discriminate.
Qed.

Lemma noThrow_tryCatch {A} (m : M A) h :
  (forall e, noThrow (h e)) -> noThrow (tryCatch m h).
Proof.
  intros Hh w e. unfold tryCatch.
  destruct (m w) as [[a|e'|] w1]; simpl; [discriminate|apply Hh|discriminate].
Qed.

Lemma noThrow_await E {A} (m : M A) : noThrow m -> noThrow (await E m).
Proof.
  intros Hm w e. unfold await. specialize (Hm w).
  destruct (m w) as [[a|e'|] w1]; simpl in *; [discriminate| |discriminate].
  exfalso. apply (Hm e'). reflexivity.
Qed.

Lemma noThrow_setStatus key st prog err : noThrow (setStatus key st prog err).
Proof. apply noThrow_modify. Qed.

Lemma noThrow_cleanup E mp key : noThrow (cleanup E mp key).
Proof.
  unfold cleanup. apply noThrow_bind; [apply noThrow_modify|]. intros _.
  apply noThrow_bind; [apply noThrow_modify|]. intros _.
  apply noThrow_bind.
  - destruct (platform E); [apply noThrow_await, noThrow_modify..|apply noThrow_ret].
  - intros _. apply noThrow_await, noThrow_modify.
Qed.

Lemma noThrow_attemptCatch E item mp e : noThrow (attemptCatch E item mp e).
Proof.
  unfold attemptCatch. apply noThrow_bind; [apply noThrow_gets|]. intros cur.
  apply noThrow_bind; [apply noThrow_cleanup|]. intros _.
  apply noThrow_bind; [apply noThrow_modify|]. intros _.
  assert (Hrest : noThrow
    ((match cur with
       | Some it =>
           if bool_decide (status it ≠ Cancelled ∧ status it ≠ Error)
           then setStatus (releaseName item) Error (progress it) (Some (errorMessageOf e))
           else ret tt
       | None => setStatus (releaseName item) Error (Js.Num 0) (Some (errorMessageOf e))
       end) ;;
      finalItemState <- gets (fun w => findItem (releaseName item) (queue w)) ;;
      ret (mkResult false false finalItemState))).
  { apply noThrow_bind.
    - destruct cur as [it|]; [destruct (bool_decide _)|];
        try apply noThrow_setStatus. apply noThrow_ret.
    - intros _. apply noThrow_bind; [apply noThrow_gets|]. intros f. apply noThrow_ret. }
  destruct e as [m|sm m [c|]|t]; try exact Hrest.
  destruct c as [|c|c]; try exact Hrest.
  do 8 (destruct c as [c|c|]; try exact Hrest).
  apply noThrow_ret.
Qed.

Lemma noThrow_startMountBasedDownload E item mc :
  noThrow (startMountBasedDownload E item mc).
Proof.
  unfold startMountBasedDownload. apply noThrow_bind; [apply noThrow_gets|].
  intros c. destruct c; simpl.
  - destruct (Js.truthy (rclonePath E)); simpl.
    + apply noThrow_bind; [apply noThrow_modify|]. intros _.
      apply noThrow_bind; [apply noThrow_gets|]. intros stamp.
      apply noThrow_tryCatch. intros e. apply noThrow_attemptCatch.
    + apply noThrow_bind; [apply noThrow_setStatus|]. intros _. apply noThrow_ret.
  - apply noThrow_bind; [apply noThrow_setStatus|]. intros _. apply noThrow_ret.
Qed.

Lemma resolved_run {A} (m : M A) w :
  resolved (fst (m w)) = true -> exists a, m w = (Ret a, snd (m w)).
Proof.
  destruct (m w) as [[a|e|] w1]; simpl; try discriminate. intros _. exists a. reflexivity.
Qed.

End RejectFacts.

Import RejectFacts.

Module RegistryFacts.

Lemma stays_refl key w : staysInactive key w w.
Proof. intros H. exact H. Qed.

Lemma stays_trans key w1 w2 w3 :
  staysInactive key w1 w2 -> staysInactive key w2 w3 -> staysInactive key w1 w3.
Proof. unfold staysInactive. auto. Qed.

Lemma stays_inert key w w' :
  activeDownloads w' = activeDownloads w -> cells w' = cells w ->
  destFs w' = destFs w -> staysInactive key w w'.
Proof. intros Ha _ _ H. unfold inactive in *. rewrite Ha. exact H. Qed.

Lemma stays_delete key k w : staysInactive key w (setActive (delete k (activeDownloads w)) w).
Proof.
  intros H. unfold inactive in *. simpl.
  destruct (decide (k = key)) as [->|Hne].
  - apply lookup_delete_eq.
  - rewrite lookup_delete_ne by exact Hne. exact H.
Qed.

Lemma stays_cancel key r w : staysInactive key w (runCancel r w).
Proof. intros H. exact H. Qed.

Lemma stays_mark key r w : staysInactive key w (markDownloadCancelled r w).
Proof. intros H. exact H. Qed.

Lemma returns_bind {A B} P P' Q (m : M A) (k : A -> M B) :
  returns P m P' -> (forall a, returns P' (k a) Q) -> returns P (bind m k) Q.
Proof.
  intros Hm Hk w b w' HP Hrun. unfold bind in Hrun.
  destruct (m w) as [[a|e|] w1] eqn:Hmw; try discriminate.
  apply (Hk a w1 b w'); [|exact Hrun]. apply (Hm w a w1 HP Hmw).
Qed.

Lemma returns_last {A B} P Q (m : M A) (k : A -> M B) :
  (forall a, returns (fun _ => True) (k a) Q) -> returns P (bind m k) Q.
Proof.
  intros Hk. apply returns_bind with (P' := fun _ => True); [|exact Hk].
  intros w a w' _ _. exact I.
Qed.

Lemma returns_keeps {A} key (m : M A) :
  keeps (staysInactive key) m -> returns (inactive key) m (inactive key).
Proof.
  intros Hm w a w' HP Hrun. specialize (Hm w). rewrite Hrun in Hm. apply Hm, HP.
Qed.

Lemma returns_weaken {A} (P : World -> Prop) Q (m : M A) :
  returns (fun _ => True) m Q -> returns P m Q.
Proof. intros H w a w' _ Hrun. apply (H w a w' I Hrun). Qed.

Lemma returns_tryCatch {A} P Q (m : M A) h :
  returns P m Q -> (forall e, returns (fun _ => True) (h e) Q) ->
  returns P (tryCatch m h) Q.
Proof.
  intros Hm Hh w a w' HP Hrun. unfold tryCatch in Hrun.
  destruct (m w) as [[a0|e|] w1] eqn:Hmw; try discriminate.
  - injection Hrun as _ <-. apply (Hm w a0 w1 HP Hmw).
  - apply (Hh e w1 a w' I Hrun).
Qed.

Section Release.
Variable E : Env.
Variable key : string.

Let R := staysInactive key.

Ltac law :=
  first [ exact (stays_refl key) | exact (stays_trans key) | exact (stays_inert key)
        | exact (stays_delete key) | exact (stays_cancel key) | exact (stays_mark key) ].

Lemma released_unregister : returns (fun _ => True) (unregister key) (inactive key).
Proof.
  intros w a w' _ Hrun. injection Hrun as _ <-. unfold inactive. simpl.
  apply lookup_delete_eq.
Qed.

Lemma released_unregisterIfActive :
  returns (fun _ => True) (unregisterIfActive key) (inactive key).
Proof.
  intros w a w' _ Hrun. injection Hrun as _ <-. unfold inactive, isDownloadActive.
  destruct (bool_decide (is_Some (activeDownloads w !! key))) eqn:Hb.
  - simpl. apply lookup_delete_eq.
  - apply bool_decide_eq_false in Hb. apply eq_None_not_Some. exact Hb.
Qed.

Lemma released_completeAttempt mp ref :
  returns (fun _ => True) (completeAttempt E key mp ref) (inactive key).
Proof.
  unfold completeAttempt. apply returns_last. intros c. destruct c.
  - apply returns_bind with (P' := inactive key); [apply released_unregister|].
    intros _. apply returns_keeps.
    apply keeps_bind; [law|apply keeps_gets; law|]. intros f. apply keeps_ret; law.
  - apply returns_last. intros f.
    destruct (match f with Some it => _ | None => _ end).
    + apply returns_last. intros _.
      apply returns_bind with (P' := inactive key); [apply released_unregisterIfActive|].
      intros _. apply returns_keeps, keeps_ret; law.
    + apply returns_bind with (P' := inactive key); [apply released_unregister|].
      intros _. apply returns_keeps.
      apply keeps_bind; [law|apply keeps_clearPid; law|]. intros _.
      apply keeps_bind; [law|apply (keeps_cleanup E); law|]. intros _.
      apply keeps_ret; law.
Qed.

Lemma released_attemptCatch item mp e :
  releaseName item = key ->
  returns (fun _ => True) (attemptCatch E item mp e) (inactive key).
Proof.
  intros Hk. unfold attemptCatch. rewrite Hk.
  apply returns_last. intros cur. apply returns_last. intros _.
  apply returns_bind with (P' := inactive key); [apply released_unregisterIfActive|].
  intros _. apply returns_keeps.
  assert (Hrest : keeps R
    ((match cur with
       | Some it =>
           if bool_decide (status it ≠ Cancelled ∧ status it ≠ Error)
           then setStatus key Error (progress it) (Some (errorMessageOf e))
           else ret tt
       | None => setStatus key Error (Js.Num 0) (Some (errorMessageOf e))
       end) ;;
      finalItemState <- gets (fun w => findItem key (queue w)) ;;
      ret (mkResult false false finalItemState))).
  { apply keeps_bind; [law| |].
    - destruct cur as [it|]; [destruct (bool_decide _)|];
        try (apply keeps_setStatus; law). apply keeps_ret; law.
    - intros _. apply keeps_bind; [law|apply keeps_gets; law|]. intros f.
      apply keeps_ret; law. }
  destruct e as [m|sm m [c|]|t]; try exact Hrest.
  destruct c as [|c|c]; try exact Hrest.
  do 8 (destruct c as [c|c|]; try exact Hrest).
  apply keeps_ret; law.
Qed.

Lemma released_downloadFromMount item root mp proc :
  releaseName item = key ->
  returns (inactive key) (downloadFromMount E item root mp proc) (inactive key).
Proof.
  intros Hk. unfold downloadFromMount. rewrite Hk.
  apply returns_bind with (P' := inactive key).
  { apply returns_keeps.
    apply keeps_tryCatch; [law| |intros e; apply keeps_ret; law].
    apply keeps_bind; [law| |].
    - apply keeps_await; [law..|]. apply keeps_bind; [law|apply keeps_emit; law|]. intros _.
      destruct (contentsFault E); [apply keeps_throw|apply keeps_ret]; law.
    - intros _. destruct (bool_decide _); [apply keeps_throw|apply keeps_ret]; law. }
  intros accessible. destruct accessible; simpl.
  - do 5 (apply returns_last; intros ?).
    apply returns_last. intros _. apply released_completeAttempt.
  - apply returns_keeps.
    apply keeps_bind; [law|apply keeps_setStatus; law|]. intros _.
    apply keeps_bind; [law|apply (keeps_cleanup E); law|]. intros _. apply keeps_ret; law.
Qed.

Lemma released_attemptBody item mc root mp :
  releaseName item = key ->
  returns (inactive key) (attemptBody E item mc root mp) (inactive key).
Proof.
  intros Hk. unfold attemptBody. rewrite Hk.
  apply returns_bind with (P' := inactive key).
  { apply returns_keeps, keeps_mkdir; law. }
  intros _. apply returns_bind with (P' := inactive key).
  { apply returns_keeps, keeps_mkdir; law. }
  intros _. apply returns_bind with (P' := inactive key).
  { apply returns_keeps, keeps_await; [law..|]. apply keeps_ret; law. }
  intros _. destruct (diskSpacePreflight E item).
  - apply returns_keeps.
    apply keeps_bind; [law|apply keeps_setStatus; law|]. intros _.
    apply keeps_bind; [law|apply (keeps_cleanup E); law|]. intros _. apply keeps_ret; law.
  - unfold mountAndDownload. rewrite Hk.
    apply returns_bind with (P' := inactive key).
    { apply returns_keeps, keeps_setStatus; law. }
    intros _. apply returns_bind with (P' := inactive key).
    { apply returns_keeps, keeps_gets; law. }
    intros args. apply returns_bind with (P' := inactive key).
    { apply returns_keeps, keeps_spawnMount; law. }
    intros proc. apply returns_bind with (P' := inactive key).
    { apply returns_keeps, keeps_pollMount; law. }
    intros ready. destruct ready; simpl.
    + apply released_downloadFromMount, Hk.
    + apply returns_keeps, keeps_throw; law.
Qed.

Lemma released_startMountBasedDownload item mc :
  releaseName item = key ->
  returns (inactive key) (startMountBasedDownload E item mc) (inactive key).
Proof.
  intros Hk. unfold startMountBasedDownload. rewrite Hk.
  apply returns_bind with (P' := inactive key).
  { apply returns_keeps, keeps_gets; law. }
  intros c. destruct c; simpl.
  - destruct (Js.truthy (rclonePath E)); simpl.
    + apply returns_bind with (P' := inactive key).
      { apply returns_keeps. intros w. apply stays_inert; reflexivity. }
      intros _. apply returns_bind with (P' := inactive key).
      { apply returns_keeps, keeps_gets; law. }
      intros stamp. apply returns_tryCatch.
      * apply released_attemptBody, Hk.
      * intros e. apply released_attemptCatch, Hk.
    + apply returns_keeps.
      apply keeps_bind; [law|apply keeps_setStatus; law|]. intros _. apply keeps_ret; law.
  - apply returns_keeps.
    apply keeps_bind; [law|apply keeps_setStatus; law|]. intros _. apply keeps_ret; law.
Qed.

Lemma released_startDownload item :
  releaseName item = key ->
  returns (inactive key) (startDownload E item) (inactive key).
Proof.
  intros Hk.
  assert (S1 : forall mc, returns (inactive key) (startMountBasedDownload E item mc)
                            (inactive key)).
  { intros mc. apply released_startMountBasedDownload, Hk. }
  unfold startDownload. rewrite Hk.
  apply returns_bind with (P' := inactive key).
  { apply returns_keeps, keeps_gets; law. }
  intros c.
  assert (Hfail : forall msg, returns (inactive key)
              (setStatus key Error (Js.Num 0) (Some msg) ;; ret failed) (inactive key)).
  { intros msg. apply returns_keeps.
    apply keeps_bind; [law|apply keeps_setStatus; law|].
    intros _. apply keeps_ret; law. }
  destruct c; simpl; [|apply Hfail].
  destruct (Js.truthy (rclonePath E)); simpl; [|apply Hfail].
  apply returns_bind with (P' := inactive key).
  { apply returns_keeps. intros x. apply stays_inert; reflexivity. }
  intros _. apply returns_bind with (P' := inactive key).
  { apply returns_keeps.
    apply keeps_tryCatch; [law| |intros e; apply keeps_ret; law].
    apply keeps_bind; [law| |intros _; apply keeps_ret; law].
    apply keeps_mkdir; law. }
  intros [e|]; [apply Hfail|].
  apply returns_bind with (P' := inactive key).
  { apply returns_keeps, keeps_await; [law..|]. apply keeps_ret; law. }
  intros _. destruct (diskSpacePreflight E item); [apply Hfail|].
  unfold viaMirrorOrPublic. rewrite Hk.
  apply returns_bind with (P' := inactive key).
  { apply returns_keeps, keeps_setStatus; law. }
  intros _. apply returns_bind with (P' := inactive key).
  { apply returns_keeps, keeps_await; [law..|]. apply keeps_ret; law. }
  intros _. apply returns_bind with (P' := inactive key).
  { assert (Hnone : returns (inactive key) (ret (@None DownloadResult)) (inactive key)).
    { apply returns_keeps, keeps_ret; law. }
    destruct (activeMirror E); [|exact Hnone].
    destruct (_ && _); [|exact Hnone].
    intros x r x' Hx Hrun. unfold tryCatch, bind in Hrun.
    match type of Hrun with context [startMountBasedDownload E item ?c x] =>
      pose proof (S1 c x) as Hs1;
      pose proof (noThrow_startMountBasedDownload E item c x) as Hno;
      destruct (startMountBasedDownload E item c x) as [[r0|e1|] x2] end.
    - injection Hrun as _ <-. apply (Hs1 r0 x2 Hx eq_refl).
    - exfalso. apply (Hno e1). reflexivity.
    - discriminate. }
  intros [r|]; [apply returns_keeps, keeps_ret; law|apply S1].
Qed.

Lemma released_resumeDownload item :
  releaseName item = key ->
  returns (inactive key) (resumeDownload E item) (inactive key).
Proof.
  intros Hk. unfold resumeDownload. rewrite Hk.
  apply returns_bind with (P' := inactive key).
  { apply returns_keeps, keeps_setStatus; law. }
  intros _. apply released_startMountBasedDownload, Hk.
Qed.

End Release.

End RegistryFacts.

Import RegistryFacts.

Module Invariants.

(** Property X6. A cancellation is never undone: a token that is cancelled,
    or a [downloadCancelled] flag that is set, when [startDownload],
    [resumeDownload] or [startMountBasedDownload] is called is still so in
    every world the call leaves, whatever the other actors do meanwhile and
    whether the call returns or not. *)
Theorem cancellation_is_never_undone E item mc r w w' :
  w' = snd (startDownload E item w) \/
  w' = snd (resumeDownload E item w) \/
  w' = snd (startMountBasedDownload E item mc w) ->
  (tokenOf r w = true -> tokenOf r w' = true) /\
  (downloadCancelledOf r w = true -> downloadCancelledOf r w' = true).
Proof.
  intros Hw'. apply cellsGrow_token.
  destruct Hw' as [->|[->| ->]].
  - apply (keeps_startDownload E cellsGrow cellsGrow_refl cellsGrow_trans
             cellsGrow_inert cellsGrow_delete cellsGrow_cancel cellsGrow_mark
             (cellsGrow_copyOne E) cellsGrow_register).
  - apply (keeps_resumeDownload E cellsGrow cellsGrow_refl cellsGrow_trans
             cellsGrow_inert cellsGrow_delete cellsGrow_cancel cellsGrow_mark
             (cellsGrow_copyOne E) cellsGrow_register).
  - apply (keeps_startMountBasedDownload E cellsGrow cellsGrow_refl cellsGrow_trans
             cellsGrow_inert cellsGrow_delete cellsGrow_cancel cellsGrow_mark
             (cellsGrow_copyOne E) cellsGrow_register).
Qed.

(** The attempt of [busy] was cancelled; the download is resumed and
    allocates a cell of its own. *)
Lemma cancellation_is_never_undone_witness :
  let E := hostEnv None (readyAt 0) nobody in
  let w := runCancel 0 busy in
  tokenOf 0 (snd (resumeDownload E (gameA Paused None) w)) = true.
Proof.
  intros E w.
  apply (proj1 (cancellation_is_never_undone E (gameA Paused None) None 0%nat w _
                  (or_intror (or_introl eq_refl)))).
  reflexivity.
Defined.



(** Property X8. [startMountBasedDownload] and [resumeDownload] never
    reject: whatever fails inside the attempt (a directory that cannot be
    created, a mount that is not ready, a read or write error of a copy) is
    caught, and the [catch] block itself cannot throw. *)
Theorem mount_based_download_never_rejects E item mc w e :
  fst (startMountBasedDownload E item mc w) <> Throw e /\
  fst (resumeDownload E item w) <> Throw e.
Proof.
  split.
  - apply noThrow_startMountBasedDownload.
  - unfold resumeDownload. apply noThrow_bind; [apply noThrow_setStatus|].
    intros _. apply noThrow_startMountBasedDownload.
Qed.

(** Property X9. The registry entry of an attempt is released on every
    return: when the release has no entry as [startMountBasedDownload],
    [resumeDownload] or [startDownload] is called and the call resolves, the
    release has no entry afterwards, whether the attempt completed, failed,
    or was stopped by another actor. *)
Theorem registry_released_on_return E item mc w :
  isDownloadActive (releaseName item) w = false ->
  (resolved (fst (startMountBasedDownload E item mc w)) = true ->
   isDownloadActive (releaseName item) (snd (startMountBasedDownload E item mc w)) = false) /\
  (resolved (fst (resumeDownload E item w)) = true ->
   isDownloadActive (releaseName item) (snd (resumeDownload E item w)) = false) /\
  (resolved (fst (startDownload E item w)) = true ->
   isDownloadActive (releaseName item) (snd (startDownload E item w)) = false).
Proof.
  set (key := releaseName item).
  assert (Hin : forall x, isDownloadActive key x = false <-> inactive key x).
  { intros x. unfold isDownloadActive, inactive. rewrite bool_decide_eq_false.
    rewrite eq_None_not_Some. reflexivity. }
  intros H0. apply Hin in H0.
  split; [|split]; intros Hres; apply Hin;
    destruct (resolved_run _ _ Hres) as (a & Hrun).
  - apply (released_startMountBasedDownload E key item mc eq_refl w a _ H0 Hrun).
  - apply (released_resumeDownload E key item eq_refl w a _ H0 Hrun).
  - apply (released_startDownload E key item eq_refl w a _ H0 Hrun).
Qed.

(** The download of [Game-A] runs to its end on a quiet host. *)
Lemma registry_released_on_return_witness :
  let E := hostEnv None (readyAt 0) nobody in
  isDownloadActive "Game-A" (snd (startDownload E (gameA Queued None) (idle None))) = false.
Proof.
  intros E.
  destruct (registry_released_on_return E (gameA Queued None) None (idle None) eq_refl)
    as (_ & _ & H).
  apply H. vm_compute. reflexivity.
Defined.

End Invariants.

(* ===================================================================== *)
(** ** How an attempt ends *)
(* ===================================================================== *)

Module EndFacts.

Lemma length_substring s : forall n m, (String.length (String.substring n m s) <= m)%nat.
Proof.
  induction s as [|c s IH]; intros n m.
  - destruct n, m; simpl; lia.
  - destruct n as [|n]; [destruct m as [|m]|]; simpl.
    + lia.
    + specialize (IH 0%nat m). lia.
    + apply IH.
Qed.

Lemma length_errorMessageOf e : (String.length (errorMessageOf e) <= 500)%nat.
Proof. apply length_substring. Qed.

Lemma trace_unregisterIfActive key w :
  trace (snd (unregisterIfActive key w)) = trace w.
Proof. unfold unregisterIfActive. simpl. destruct (isDownloadActive key w); reflexivity. Qed.

Lemma inactive_unregisterIfActive key w :
  activeDownloads (snd (unregisterIfActive key w)) !! key = None.
Proof. apply (released_unregisterIfActive key w tt _ I). reflexivity. Qed.

Lemma attemptCatch_run E item mp e w :
  let key := releaseName item in
  let cur := findItem key (queue w) in
  let wU := snd (unregisterIfActive key (snd (cleanup E mp (Some key) w))) in
  attemptCatch E item mp e w =
  if isSigterm e then (Ret (mkResult false false cur), wU)
  else
    let wF :=
      match cur with
      | Some it =>
          if bool_decide (status it ≠ Cancelled ∧ status it ≠ Error)
          then updateItemStatus key Error (progress it) (Some (errorMessageOf e))
                 None None None wU
          else wU
      | None =>
          updateItemStatus key Error (Js.Num 0) (Some (errorMessageOf e)) None None None wU
      end in
    (Ret (mkResult false false (findItem key (queue wF))), wF).
Proof.
  intros key cur wU. unfold attemptCatch. rewrite bind_gets. fold key cur.
  rewrite (bind_run _ _ _ tt) by apply cleanup_run.
  rewrite (bind_run _ _ _ tt) by reflexivity. fold wU.
  assert (Hrest : forall k : M DownloadResult,
    isSigterm e = false ->
    k = ((match cur with
       | Some it =>
           if bool_decide (status it ≠ Cancelled ∧ status it ≠ Error)
           then setStatus key Error (progress it) (Some (errorMessageOf e))
           else ret tt
       | None => setStatus key Error (Js.Num 0) (Some (errorMessageOf e))
       end) ;;
      finalItemState <- gets (fun w => findItem key (queue w)) ;;
      ret (mkResult false false finalItemState)) ->
    k wU = if isSigterm e then (Ret (mkResult false false cur), wU)
           else
             let wF :=
               match cur with
               | Some it =>
                   if bool_decide (status it ≠ Cancelled ∧ status it ≠ Error)
                   then updateItemStatus key Error (progress it) (Some (errorMessageOf e))
                          None None None wU
                   else wU
               | None =>
                   updateItemStatus key Error (Js.Num 0) (Some (errorMessageOf e))
                     None None None wU
               end in
             (Ret (mkResult false false (findItem key (queue wF))), wF)).
  { intros k Hs ->. rewrite Hs.
    destruct cur as [it|]; [destruct (bool_decide _)|]; reflexivity. }
  destruct e as [m|sm m [c|]|t]; try (apply Hrest; reflexivity).
  destruct c as [|c|c]; try (apply Hrest; reflexivity).
  do 8 (destruct c as [c|c|]; try (apply Hrest; reflexivity)).
  reflexivity.
Qed.

Lemma own_catch_world E mp key w :
  ownEvents (trace (snd (unregisterIfActive key (snd (cleanup E mp (Some key) w)))))
  = (ownEvents (trace w) ++ cleanupEvents E mp)%list.
Proof.
  rewrite trace_unregisterIfActive. apply (cleanup_own E false). discriminate.
Qed.

(** In a run nobody disturbs, [cleanup] leaves the queue and the registry as
    they are. *)
Lemma quiet_cleanup E mp key w :
  (forall n, sched E n = []) ->
  queue (snd (cleanup E mp key w)) = queue w /\
  activeDownloads (snd (cleanup E mp key w)) = activeDownloads w.
Proof.
  intros Hq. apply (quiet_queue anyEvent).
  apply (steps_cleanup E anyEvent true (fun _ => eq_refl) eq_refl (fun _ => Hq));
    intros; reflexivity.
Qed.

Lemma findItem_unregisterIfActive key w :
  findItem key (queue (snd (unregisterIfActive key w)))
  = (if isDownloadActive key w
     then applyUpdates
            {| u_status := None; u_progress := None; u_error := None;
               u_speed := None; u_eta := None; u_extractProgress := None;
               u_pid := Some None; u_downloadPath := None |}
     else id) <$> findItem key (queue w).
Proof.
  unfold unregisterIfActive. simpl. destruct (isDownloadActive key w).
  - simpl. apply findItem_updateQueue.
  - destruct (findItem key (queue w)); reflexivity.
Qed.

(** The world a fail-fast check leaves. *)
Lemma fail_fast_world key msg w :
  let w' := updateItemStatus key Error (Js.Num 0) (Some msg) None None None w in
  ownEvents (trace w') = ownEvents (trace w) /\
  activeDownloads w' = activeDownloads w /\
  destFs w' = destFs w /\
  mounts w' = mounts w /\
  vrpConfig w' = vrpConfig w /\
  (forall it, findItem key (queue w) = Some it ->
     exists it', findItem key (queue w') = Some it' /\
                 status it' = Error /\ error it' = Some msg /\ progress it' = Js.Num 0).
Proof.
  intros w'. subst w'.
  destruct (untouched_updateItemStatus key Error (Js.Num 0) (Some msg) None None None w)
    as (Ha & _ & Hd & Hm & Hv).
  split; [apply own_updateItemStatus|]. repeat (split; [assumption|]).
  intros it Hit. rewrite findItem_updateItemStatus, Hit. simpl.
  eexists. split; [reflexivity|]. repeat split.
Qed.

Lemma lacks_config config w0 :
  ~ (exists b p, config = Some (mkVrp (Some b) (Some p)) /\ b <> "" /\ p <> "") ->
  configured (setVrpConfig config w0) = false.
Proof.
  intros H. unfold configured, setVrpConfig. simpl.
  destruct config as [[[b|] [p|]]|]; simpl; try reflexivity.
  - destruct (String.eqb b "") eqn:Hb; [reflexivity|].
    destruct (String.eqb p "") eqn:Hp; [reflexivity|].
    exfalso. apply H. exists b, p. split; [reflexivity|].
    split; intros ->; discriminate.
  - apply andb_false_r.
Qed.

End EndFacts.

Import EndFacts.

Module EndProps.

(** Property X10. The [catch] block of [startMountBasedDownload], for an
    error other than exit code 143 and an item that is neither Cancelled nor
    in Error when the block is entered: the method resolves with
    [success = false]; the teardown runs once, the registry entry of the
    release is gone, and the item (when it is still queued) is set to Error
    with the progress it had and the message of the error, cut to at most 500
    characters; speed and eta are cleared. The other actors may run at every
    step. *)
Theorem caught_failure_is_recorded E item mp e w it :
  let key := releaseName item in
  findItem key (queue w) = Some it ->
  status it <> Cancelled ->
  status it <> Error ->
  isSigterm e = false ->
  exists fin w',
    attemptCatch E item mp e w = (Ret (mkResult false false fin), w') /\
    fin = findItem key (queue w') /\
    (forall it', fin = Some it' ->
       status it' = Error /\ error it' = Some (errorMessageOf e) /\
       progress it' = progress it /\ speed it' = None /\ eta it' = None) /\
    (String.length (errorMessageOf e) <= 500)%nat /\
    activeDownloads w' !! key = None /\
    ownEvents (trace w') = (ownEvents (trace w) ++ cleanupEvents E mp)%list.
Proof.
  intros key Hit Hc He Hs. rewrite attemptCatch_run, Hs. fold key. rewrite Hit.
  rewrite bool_decide_eq_true_2 by (split; assumption). cbv zeta.
  eexists _, _. split; [reflexivity|]. split; [reflexivity|]. split.
  { intros it'. rewrite findItem_updateItemStatus.
    intros H. apply fmap_Some in H as (itU & _ & ->). repeat split. }
  split; [apply length_errorMessageOf|].
  destruct (untouched_updateItemStatus key Error (progress it)
              (Some (errorMessageOf e)) None None None
              (snd (unregisterIfActive key (snd (cleanup E mp (Some key) w)))))
    as (Ha & _).
  split.
  - rewrite Ha. apply inactive_unregisterIfActive.
  - rewrite own_updateItemStatus. apply own_catch_world.
Qed.

(** A read error while [Game-A] is being transferred. *)
Lemma caught_failure_is_recorded_witness :
  let E := hostEnv None (readyAt 0) nobody in
  exists fin w',
    attemptCatch E (gameA Queued None) "/tmp/m" (JsError "EIO: i/o error, read") busy
    = (Ret (mkResult false false fin), w') /\
    (forall it', fin = Some it' ->
       status it' = Error /\ error it' = Some "EIO: i/o error, read") /\
    activeDownloads w' !! "Game-A" = None.
Proof.
  intros E.
  destruct (caught_failure_is_recorded E (gameA Queued None) "/tmp/m"
              (JsError "EIO: i/o error, read") busy (gameA Downloading None)
              eq_refl ltac:(discriminate) ltac:(discriminate) eq_refl)
    as (fin & w' & Hrun & _ & Hit & _ & Ha & _).
  exists fin, w'. split; [exact Hrun|]. split; [|exact Ha].
  intros it' Hf. destruct (Hit it' Hf) as (Hs & He & _). split; [exact Hs|exact He].
Defined.

(** Property X11. The [catch] block does not overwrite a terminal state:
    when the item is Cancelled or in Error as the block is entered, or the
    error is exit code 143 (the mount process was ended by SIGTERM), and
    nobody else runs meanwhile, the item keeps its status, its error and its
    progress; the method still resolves with [success = false] after one
    teardown. *)
Theorem caught_failure_keeps_terminal_state E item mp e w it :
  let key := releaseName item in
  (forall n, sched E n = []) ->
  findItem key (queue w) = Some it ->
  status it = Cancelled \/ status it = Error \/ isSigterm e = true ->
  exists fin w' it',
    attemptCatch E item mp e w = (Ret (mkResult false false (Some fin)), w') /\
    status fin = status it /\ error fin = error it /\ progress fin = progress it /\
    findItem key (queue w') = Some it' /\
    status it' = status it /\ error it' = error it /\ progress it' = progress it /\
    ownEvents (trace w') = (ownEvents (trace w) ++ cleanupEvents E mp)%list.
Proof.
  intros key Hq Hit Hcase. rewrite attemptCatch_run. fold key. rewrite Hit.
  set (wC := snd (cleanup E mp (Some key) w)).
  set (wU := snd (unregisterIfActive key wC)).
  destruct (quiet_cleanup E mp (Some key) w Hq) as [HqC _]. fold wC in HqC.
  assert (HU : exists itU, findItem key (queue wU) = Some itU /\
                 status itU = status it /\ error itU = error it /\
                 progress itU = progress it).
  { subst wU. rewrite findItem_unregisterIfActive, HqC, Hit.
    destruct (isDownloadActive key wC); simpl; eexists; repeat split. }
  destruct HU as (itU & HfU & HsU & HeU & HpU).
  assert (Hown : ownEvents (trace wU) = (ownEvents (trace w) ++ cleanupEvents E mp)%list).
  { apply own_catch_world. }
  destruct (isSigterm e) eqn:Hs.
  - exists it, wU, itU. repeat split; assumption.
  - assert (Hb : bool_decide (status it ≠ Cancelled ∧ status it ≠ Error) = false).
    { apply bool_decide_eq_false_2. intros [H1 H2].
      destruct Hcase as [H|[H|H]]; [apply H1, H|apply H2, H|discriminate]. }
    rewrite Hb. cbv zeta. rewrite HfU.
    exists itU, wU, itU. repeat split; assumption.
Qed.

(** The attempt of [Game-A] fails after the item was put in Error by a
    cancel with an error text. *)
Lemma caught_failure_keeps_terminal_state_witness :
  let E := hostEnv None (readyAt 0) nobody in
  exists fin w',
    attemptCatch E failedGame "/tmp/m" (JsError "late") (queued failedGame)
    = (Ret (mkResult false false (Some fin)), w') /\
    status fin = Error /\ error fin = Some "disk full".
Proof.
  intros E.
  destruct (caught_failure_keeps_terminal_state E failedGame "/tmp/m" (JsError "late")
              (queued failedGame) failedGame (fun _ => eq_refl) eq_refl
              (or_intror (or_introl eq_refl)))
    as (fin & w' & it' & Hrun & Hs & He & _).
  exists fin, w'. repeat split; assumption.
Defined.

(** Property X12. A processor whose configuration, as last set by
    [setVrpConfig], is [null] or lacks a non-empty [baseUri] or [password]
    starts nothing: [startDownload] and [startMountBasedDownload] resolve at
    once with [success = false] and no final state; no directory is made, no
    process is started, the registry, the destination files and the
    configuration are untouched, and a queued item is set to Error with
    progress 0 and the message 'Missing VRP configuration'. *)
Theorem unconfigured_download_fails_fast E item mc config w0 :
  ~ (exists b p, config = Some (mkVrp (Some b) (Some p)) /\ b <> "" /\ p <> "") ->
  let key := releaseName item in
  let w := setVrpConfig config w0 in
  forall run,
    run = startDownload E item w \/ run = startMountBasedDownload E item mc w ->
    fst run = Ret failed /\
    ownEvents (trace (snd run)) = ownEvents (trace w0) /\
    activeDownloads (snd run) = activeDownloads w0 /\
    destFs (snd run) = destFs w0 /\
    mounts (snd run) = mounts w0 /\
    getVrpConfig (snd run) = config /\
    (forall it, findItem key (queue w0) = Some it ->
       exists it', findItem key (queue (snd run)) = Some it' /\
                   status it' = Error /\
                   error it' = Some "Missing VRP configuration" /\
                   progress it' = Js.Num 0).
Proof.
  intros Hlack key w run Hrun.
  assert (Hc : configured w = false) by apply (lacks_config _ _ Hlack).
  assert (Heq : run = (Ret failed,
                       updateItemStatus key Error (Js.Num 0)
                         (Some "Missing VRP configuration") None None None w)).
  { destruct Hrun as [->| ->].
    - unfold startDownload. rewrite bind_gets, Hc. reflexivity.
    - unfold startMountBasedDownload. rewrite bind_gets, Hc. reflexivity. }
  rewrite Heq. simpl fst. simpl snd. split; [reflexivity|].
  apply (fail_fast_world key "Missing VRP configuration" w).
Qed.

(** The configuration is cleared, then [Game-A] is started. *)
Lemma unconfigured_download_fails_fast_witness :
  let E := hostEnv None (readyAt 0) nobody in
  let run := startDownload E (gameA Queued None) (setVrpConfig None (idle None)) in
  fst run = Ret failed /\ ownEvents (trace (snd run)) = [].
Proof.
  intros E run.
  destruct (unconfigured_download_fails_fast E (gameA Queued None) None None (idle None)
              ltac:(intros (b & p & H & _); discriminate) run (or_introl eq_refl))
    as (Hr & Ho & _).
  split; [exact Hr|exact Ho].
Defined.

(** Property X13. With a configuration but without an rclone binary
    ([getRclonePath()] is empty), [startDownload] and
    [startMountBasedDownload] resolve at once with [success = false]; no
    directory is made and no process is started, and a queued item is set to
    Error with the message 'Rclone dependency not found'. *)
Theorem missing_rclone_fails_fast E item mc w :
  configured w = true ->
  Js.truthy (rclonePath E) = false ->
  let key := releaseName item in
  forall run,
    run = startDownload E item w \/ run = startMountBasedDownload E item mc w ->
    fst run = Ret failed /\
    ownEvents (trace (snd run)) = ownEvents (trace w) /\
    activeDownloads (snd run) = activeDownloads w /\
    destFs (snd run) = destFs w /\
    mounts (snd run) = mounts w /\
    (forall it, findItem key (queue w) = Some it ->
       exists it', findItem key (queue (snd run)) = Some it' /\
                   status it' = Error /\
                   error it' = Some "Rclone dependency not found" /\
                   progress it' = Js.Num 0).
Proof.
  intros Hc Hr key run Hrun.
  assert (Heq : run = (Ret failed,
                       updateItemStatus key Error (Js.Num 0)
                         (Some "Rclone dependency not found") None None None w)).
  { destruct Hrun as [->| ->].
    - unfold startDownload. rewrite bind_gets, Hc. simpl. rewrite Hr. reflexivity.
    - unfold startMountBasedDownload. rewrite bind_gets, Hc. simpl. rewrite Hr.
      reflexivity. }
  rewrite Heq. simpl fst. simpl snd. split; [reflexivity|].
  destruct (fail_fast_world key "Rclone dependency not found" w)
    as (H1 & H2 & H3 & H4 & _ & H6).
  repeat (split; [assumption|]). exact H6.
Qed.

(** [Game-A] is started on a host without rclone. *)
Lemma missing_rclone_fails_fast_witness :
  let run := startDownload noRclone (gameA Queued None) (idle None) in
  fst run = Ret failed /\
  exists it', findItem "Game-A" (queue (snd run)) = Some it' /\
              error it' = Some "Rclone dependency not found".
Proof.
  intros run.
  destruct (missing_rclone_fails_fast noRclone (gameA Queued None) None (idle None)
              eq_refl eq_refl run (or_introl eq_refl))
    as (Hr & _ & _ & _ & _ & Hit).
  split; [exact Hr|].
  destruct (Hit _ eq_refl) as (it' & Hf & _ & He & _). exists it'. split; assumption.
Defined.

End EndProps.

Module EarlyFacts.

Lemma sameDest_cleanup E mp key w : destFs (snd (cleanup E mp key w)) = destFs w.
Proof.
  apply (keeps_cleanup E sameDest); unfold sameDest.
  - reflexivity.
  - intros w1 w2 w3 H12 H23. congruence.
  - intros x x' _ _ H. exact H.
  - reflexivity.
  - reflexivity.
Qed.

Lemma mkdir_fails E path e w :
  mkdirFault E path = Some e ->
  mkdir E path w = (Throw e, turn E (emit (EvMkdir path) w)).
Proof. intros H. unfold mkdir, await. rewrite bind_modify, H. reflexivity. Qed.

Lemma own_turn_any E w : ownEvents (trace (turn E w)) = ownEvents (trace w).
Proof. apply (own_turn E false). discriminate. Qed.

Lemma quiet_turn_queue E w :
  (forall n, sched E n = []) ->
  queue (turn E w) = queue w.
Proof. intros Hq. rewrite (quiet_turn E Hq). reflexivity. Qed.

(** The listing of line 365 fails, or lists nothing. *)
Lemma mount_not_accessible E mp w :
  contentsFault E <> None \/ mountTree E = [] ->
  tryCatch
    (await E (modify (emit (EvReaddir mp)) ;;
              match contentsFault E with
              | Some e => throw e
              | None => ret tt
              end) ;;
     if bool_decide (length (mountTree E) = 0%nat)
     then throw (JsError "No files found in mounted directory")
     else ret true)
    (fun _ => ret false) w
  = (Ret false, turn E (emit (EvReaddir mp) w)).
Proof.
  intros H. unfold tryCatch, bind, await, modify.
  destruct (contentsFault E) as [e|]; [reflexivity|].
  destruct H as [H|H]; [congruence|]. rewrite H. reflexivity.
Qed.

End EarlyFacts.

Import EarlyFacts.

Module EarlyProps.

(** Property X14. When the download directory cannot be created,
    [startDownload] resolves with [success = false] and no final state; the
    [mkdir] is the only step it takes (no disk-space check result is used, no
    process is started), and a queued item is set to Error with progress 0
    and a message of at most 500 characters: 'Failed to create directory: '
    followed by the message of the error, or 'Failed to create directory '
    followed by the path when what was thrown is not an [Error]. *)
Theorem mkdir_failure_is_reported E item w e :
  let key := releaseName item in
  let root := join E (downloadPath item) key in
  configured w = true ->
  Js.truthy (rclonePath E) = true ->
  mkdirFault E root = Some e ->
  let run := startDownload E item w in
  fst run = Ret failed /\
  ownEvents (trace (snd run)) = (ownEvents (trace w) ++ [EvMkdir root])%list /\
  destFs (snd run) = destFs w /\
  exists msg,
    (String.length msg <= 500)%nat /\
    (forall m, e = JsError m ->
               msg = Js.substring0 500 ("Failed to create directory: " +:+ m)) /\
    (forall t, e = Thrown t ->
               msg = Js.substring0 500 ("Failed to create directory " +:+ root)) /\
    (forall it', findItem key (queue (snd run)) = Some it' ->
                 status it' = Error /\ error it' = Some msg /\ progress it' = Js.Num 0).
Proof.
  intros key root Hc Hr Hm run. subst run. unfold startDownload.
  rewrite bind_gets, Hc. simpl. rewrite Hr. simpl.
  rewrite bind_modify. fold key root.
  set (w0 := setDownloadPath E item w).
  assert (Hcr : tryCatch (mkdir E root ;; ret None) (fun e => ret (Some e)) w0
                = (Ret (Some e), turn E (emit (EvMkdir root) w0))).
  { unfold tryCatch, bind. rewrite (mkdir_fails E root e w0 Hm). reflexivity. }
  rewrite (bind_ret _ _ _ _ _ Hcr). cbv iota beta.
  set (w1 := turn E (emit (EvMkdir root) w0)).
  set (msg := Js.substring0 500 _).
  unfold setStatus. rewrite bind_modify. simpl fst. simpl snd.
  split; [reflexivity|]. split.
  { rewrite own_updateItemStatus. subst w1. rewrite own_turn_any, own_emit by reflexivity.
    reflexivity. }
  split.
  { destruct (untouched_updateItemStatus key Error (Js.Num 0) (Some msg) None None None w1)
      as (_ & _ & Hd & _).
    rewrite Hd. subst w1. rewrite sameDest_turn. reflexivity. }
  exists msg. split; [apply length_substring|].
  split; [intros m ->; reflexivity|]. split; [intros t ->; reflexivity|].
  intros it'. rewrite findItem_updateItemStatus.
  intros H. apply fmap_Some in H as (itU & _ & ->). repeat split.
Qed.

(** [Game-A] is started on a disk that refuses the directory. *)
Lemma mkdir_failure_is_reported_witness :
  let run := startDownload readOnlyDisk (gameA Queued None) (idle None) in
  fst run = Ret failed /\
  ownEvents (trace (snd run)) = [EvMkdir "/dl/Game-A"].
Proof.
  intros run.
  destruct (mkdir_failure_is_reported readOnlyDisk (gameA Queued None) (idle None)
              (JsError "EACCES: permission denied, mkdir '/dl/Game-A'")
              eq_refl eq_refl eq_refl)
    as (Hr & Ho & _).
  split; [exact Hr|exact Ho].
Defined.

(** Property X15. When the listing of the mounted root fails or is empty,
    the attempt ends there: it resolves with [success = false] and no final
    state after one listing and one teardown; no file is enumerated, stat'ed
    or opened, the destination files are untouched, and when nobody else runs
    meanwhile a queued item is left in Error with the message 'Failed to
    access mounted directory'. *)
Theorem inaccessible_mount_ends_attempt E item root mp proc w :
  let key := releaseName item in
  contentsFault E <> None \/ mountTree E = [] ->
  let run := downloadFromMount E item root mp proc w in
  fst run = Ret failed /\
  ownEvents (trace (snd run))
  = (ownEvents (trace w) ++ [EvReaddir mp] ++ cleanupEvents E mp)%list /\
  destFs (snd run) = destFs w /\
  ((forall n, sched E n = []) ->
   forall it, findItem key (queue w) = Some it ->
   exists it', findItem key (queue (snd run)) = Some it' /\
               status it' = Error /\
               error it' = Some "Failed to access mounted directory").
Proof.
  intros key Hbad run. subst run. unfold downloadFromMount. fold key.
  rewrite (bind_ret _ _ _ _ _ (mount_not_accessible E mp w Hbad)).
  simpl. unfold setStatus. rewrite bind_modify.
  set (w1 := turn E (emit (EvReaddir mp) w)).
  set (w2 := updateItemStatus key Error (Js.Num 0)
               (Some "Failed to access mounted directory") None None None w1).
  rewrite (bind_run _ _ _ tt) by apply cleanup_run. simpl fst. simpl snd.
  split; [reflexivity|]. split.
  { rewrite (cleanup_own E false) by discriminate. subst w2.
    rewrite own_updateItemStatus. subst w1.
    rewrite own_turn_any, own_emit by reflexivity.
    unfold cleanupEvents. rewrite <- !app_assoc. reflexivity. }
  split.
  { rewrite sameDest_cleanup. subst w2.
    destruct (untouched_updateItemStatus key Error (Js.Num 0)
                (Some "Failed to access mounted directory") None None None w1)
      as (_ & _ & Hd & _).
    rewrite Hd. subst w1. rewrite sameDest_turn. reflexivity. }
  intros Hq it Hit.
  destruct (quiet_cleanup E mp (Some key) w2 Hq) as [Hqc _]. rewrite Hqc.
  subst w2. rewrite findItem_updateItemStatus. subst w1.
  rewrite (quiet_turn_queue E _ Hq). simpl queue. rewrite Hit. simpl.
  eexists. split; [reflexivity|]. split; reflexivity.
Qed.

(** The remote of [Game-A] is mounted and lists nothing. *)
Lemma inaccessible_mount_ends_attempt_witness :
  let run := downloadFromMount emptyRemote (gameA Downloading None) "/dl/Game-A" "/tmp/m" 0
               busy in
  fst run = Ret failed /\
  ownEvents (trace (snd run))
  = [EvReaddir "/tmp/m"; EvCleanup "/tmp/m"; EvExec "fusermount" ["-u"; "/tmp/m"];
     EvRmdir "/tmp/m"].
Proof.
  intros run.
  destruct (inaccessible_mount_ends_attempt emptyRemote (gameA Downloading None)
              "/dl/Game-A" "/tmp/m" 0%nat busy (or_intror eq_refl))
    as (Hr & Ho & _).
  split; [exact Hr|exact Ho].
Defined.

(** Property X16. When the copy loop finds, before a file, that the item is
    gone from the queue, is no longer Downloading, or that the token is
    cancelled, the attempt ends without a teardown: it resolves with
    [success = false] and the item as it is, drops its registry entry, and
    does nothing else: no file is touched, [cleanup] is not called, the
    mount process is not signalled and nothing is notified. *)
Theorem stopped_attempt_skips_teardown E key mp root ref ts st file rest tc w c :
  cells w !! ref = Some c ->
  tokenOf ref w = true \/
  (forall it, findItem key (queue w) = Some it -> status it <> Downloading) ->
  let run := (copyLoop E key mp root ref ts st (file :: rest) tc ;;
              completeAttempt E key mp ref) w in
  fst run = Ret (mkResult false false (findItem key (queue w))) /\
  trace (snd run) = trace w /\
  activeDownloads (snd run) = delete key (activeDownloads w) /\
  queue (snd run) = queue w /\
  destFs (snd run) = destFs w /\
  downloadCancelledOf ref (snd run) = true.
Proof.
  intros Hc Hstop run. subst run.
  assert (Hloop : copyLoop E key mp root ref ts st (file :: rest) tc w
                  = (Ret tt, markDownloadCancelled ref w)).
  { simpl. rewrite !bind_gets.
    destruct Hstop as [Ht|Hn].
    - rewrite Ht, orb_true_r. reflexivity.
    - destruct (findItem key (queue w)) as [it|] eqn:Hf; [|reflexivity].
      rewrite bool_decide_eq_true_2 by (apply Hn; reflexivity). reflexivity. }
  rewrite (bind_ret _ _ _ _ _ Hloop).
  assert (Hd : downloadCancelledOf ref (markDownloadCancelled ref w) = true).
  { unfold downloadCancelledOf, markDownloadCancelled. simpl.
    rewrite list_lookup_insert_eq; [reflexivity|]. apply lookup_lt_is_Some. eauto. }
  unfold completeAttempt. rewrite bind_gets, Hd.
  unfold unregister. rewrite bind_modify, bind_gets. simpl.
  repeat split. exact Hd.
Qed.

(** [Game-A] was paused by an edit of the queue while its first file was
    pending. *)
Lemma stopped_attempt_skips_teardown_witness :
  let w := setQueue [gameA Paused None] busy in
  let run := (copyLoop quietHost "Game-A" "/tmp/m" "/dl/Game-A" 0 14 0
                [mkFile "a.bin" 11] 0 ;;
              completeAttempt quietHost "Game-A" "/tmp/m" 0) w in
  trace (snd run) = [] /\ activeDownloads (snd run) !! "Game-A" = None.
Proof.
  intros w run.
  assert (Hn : forall it, findItem "Game-A" (queue w) = Some it -> status it <> Downloading).
  { intros it H. injection H as <-. discriminate. }
  destruct (stopped_attempt_skips_teardown quietHost "Game-A" "/tmp/m" "/dl/Game-A" 0%nat
              14 0 (mkFile "a.bin" 11) [] 0 w (mkCell false false) eq_refl
              (or_intror Hn))
    as (_ & Ht & Ha & _).
  split; [exact Ht|]. fold run in Ha |- *. rewrite Ha. reflexivity.
Defined.

End EarlyProps.

(* ===================================================================== *)
(** ** Enumeration and paths *)
(* ===================================================================== *)

Module PathFacts.

Lemma append_cons x (a b : string) : String x a +:+ b = String x (a +:+ b).
Proof. reflexivity. Qed.

Lemma append_nil_l (b : string) : "" +:+ b = b.
Proof. reflexivity. Qed.

Lemma append_assoc (a b c : string) : (a +:+ b) +:+ c = a +:+ (b +:+ c).
Proof.
  induction a as [|x a IH]; [reflexivity|]. rewrite !append_cons. f_equal. exact IH.
Qed.

Lemma append_nil_r (a : string) : a +:+ "" = a.
Proof. induction a as [|x a IH]; [reflexivity|]. rewrite append_cons. f_equal. exact IH. Qed.

Lemma length_append (a b : string) :
  String.length (a +:+ b) = (String.length a + String.length b)%nat.
Proof.
  induction a as [|x a IH]; [reflexivity|]. rewrite append_cons. simpl. f_equal. exact IH.
Qed.

Lemma prefix_append (p s : string) : String.prefix p (p +:+ s) = true.
Proof.
  induction p as [|x p IH]; [destruct s; reflexivity|].
  rewrite append_cons. simpl. destruct (Ascii.ascii_dec x x); [exact IH|congruence].
Qed.

Lemma prefix_append_l (p q s : string) :
  String.prefix (p +:+ q) s = true -> String.prefix p s = true.
Proof.
  revert s. induction p as [|x p IH]; intros s; [destruct s; reflexivity|].
  rewrite append_cons. destruct s as [|y s]; simpl; [discriminate|].
  destruct (Ascii.ascii_dec x y); [apply IH|discriminate].
Qed.

Lemma substring_full (s : string) : String.substring 0 (String.length s) s = s.
Proof. induction s as [|x s IH]; simpl; [reflexivity|]. f_equal. exact IH. Qed.

Lemma substring_skip (p s : string) :
  String.substring (String.length p) (String.length (p +:+ s) - String.length p) (p +:+ s)
  = s.
Proof.
  induction p as [|x p IH].
  - rewrite append_nil_l. simpl String.length. rewrite Nat.sub_0_r. apply substring_full.
  - rewrite append_cons. simpl. exact IH.
Qed.

Lemma replaceFirst_eq pat s :
  Js.replaceFirst pat s =
  if String.prefix pat s
  then String.substring (String.length pat) (String.length s - String.length pat) s
  else match s with
       | EmptyString => EmptyString
       | String c s' => String c (Js.replaceFirst pat s')
       end.
Proof. destruct s; reflexivity. Qed.

(** A pattern at the head of a string is the occurrence that is removed. *)
Lemma replaceFirst_prefix p s : Js.replaceFirst p (p +:+ s) = s.
Proof. rewrite replaceFirst_eq, prefix_append. apply substring_skip. Qed.

Lemma occurs_eq pat s :
  occurs pat s =
  String.prefix pat s || match s with
                         | EmptyString => false
                         | String _ s' => occurs pat s'
                         end.
Proof. destruct s; reflexivity. Qed.

Lemma replaceFirst_absent pat s : occurs pat s = false -> Js.replaceFirst pat s = s.
Proof.
  induction s as [|c s IH]; intros H; rewrite replaceFirst_eq; rewrite occurs_eq in H;
    apply orb_false_elim in H as [-> H]; [reflexivity|].
  rewrite IH by exact H. reflexivity.
Qed.

Lemma occurs_append_l p q s : occurs p s = false -> occurs (p +:+ q) s = false.
Proof.
  induction s as [|c s IH]; intros H; rewrite occurs_eq in H |- *;
    apply orb_false_elim in H as [Hp H]; apply orb_false_intro.
  - destruct (String.prefix (p +:+ q) "") eqn:Hx; [|reflexivity].
    apply prefix_append_l in Hx. congruence.
  - reflexivity.
  - destruct (String.prefix (p +:+ q) (String c s)) eqn:Hx; [|reflexivity].
    apply prefix_append_l in Hx. congruence.
  - apply IH, H.
Qed.

Lemma orS_same a b : (a = "" -> b = "") -> Js.orS a b = a.
Proof.
  intros H. unfold Js.orS. destruct (String.eqb a "") eqn:Ha; [|reflexivity].
  apply String.eqb_eq in Ha. subst a. apply H. reflexivity.
Qed.

Lemma orS_base a b : a <> "" -> Js.orS a b = a.
Proof.
  intros H. unfold Js.orS. destruct (String.eqb a "") eqn:Ha; [|reflexivity].
  apply String.eqb_eq in Ha. congruence.
Qed.

Lemma append_empty a b : a +:+ b = "" -> b = "".
Proof. destruct a; [auto|rewrite append_cons; discriminate]. Qed.

Lemma map_flat_map {A B C} (g : B -> C) (f : A -> list B) (l : list A) :
  map g (flat_map f l) = flat_map (fun x => map g (f x)) l.
Proof.
  induction l as [|x l IH]; simpl; [reflexivity|]. rewrite map_app, IH. reflexivity.
Qed.

Lemma flat_map_ext_Forall {A B} (f g : A -> list B) (l : list A) :
  Forall (fun x => f x = g x) l -> flat_map f l = flat_map g l.
Proof. induction 1 as [|x l Hx _ IH]; simpl; [reflexivity|]. rewrite Hx, IH. reflexivity. Qed.

Lemma In_flat_map_intro {A B} (f : A -> list B) (l : list A) x y :
  In x l -> In y (f x) -> In y (flat_map f l).
Proof. intros Hx Hy. apply in_flat_map. exists x. split; assumption. Qed.

(** The sizes: one descriptor for each file of the tree, in listing
    order. *)
Lemma scanEntry_sizes E d : forall dir base,
  map fileSize (scanEntry E dir base d)
  = map (fun p => Z.of_nat (length p.2)) (entryFiles E dir d).
Proof.
  induction d as [name content|name sub IH] using Dirent_deep_ind; intros dir base.
  - reflexivity.
  - simpl. rewrite !map_flat_map. apply flat_map_ext_Forall.
    eapply Forall_impl; [exact IH|]. intros d Hd. apply Hd.
Qed.

Section Posix.
Variable E : Env.
Hypothesis posix : posixJoin E.
Variable mp : string.
Hypothesis mp_nonempty : mp <> "".

Lemma join_under D pre name :
  D +:+ "/" = mp +:+ "/" +:+ pre ->
  join E D name = (mp +:+ "/") +:+ (pre +:+ name).
Proof.
  intros HD. rewrite posix, <- append_assoc, HD, !append_assoc. reflexivity.
Qed.

Lemma join_under_dir D pre name :
  D +:+ "/" = mp +:+ "/" +:+ pre ->
  join E D name +:+ "/" = mp +:+ "/" +:+ (pre +:+ name +:+ "/").
Proof.
  intros HD. rewrite (join_under D pre name HD), !append_assoc. reflexivity.
Qed.

(** Under the mount point, the descriptor of a file carries the path of the
    file relative to the mount point. *)
Lemma scanEntry_relative d : forall D pre,
  D +:+ "/" = mp +:+ "/" +:+ pre ->
  Forall (fun f => occurs mp f.1 = false) (relEntry pre d) ->
  map relativePath (scanEntry E D mp d) = map fst (relEntry pre d).
Proof.
  induction d as [name content|name sub IH] using Dirent_deep_ind; intros D pre HD Hrel.
  - simpl. f_equal. rewrite (join_under D pre name HD), replaceFirst_prefix.
    simpl in Hrel. apply Forall_inv in Hrel. simpl in Hrel.
    rewrite (replaceFirst_absent (mp +:+ backslash)) by (apply occurs_append_l, Hrel).
    rewrite (replaceFirst_absent mp) by exact Hrel.
    apply orS_same. apply append_empty.
  - simpl. simpl in Hrel. rewrite (orS_base mp) by exact mp_nonempty.
    rewrite !map_flat_map. apply flat_map_ext_Forall.
    rewrite Forall_forall in IH. rewrite Forall_forall in Hrel.
    apply Forall_forall. intros d Hd.
    apply IH; [exact Hd|apply join_under_dir, HD|].
    apply Forall_forall. intros rel Hin. apply Hrel.
    apply list_elem_of_In. apply (In_flat_map_intro _ _ d).
    + apply list_elem_of_In, Hd.
    + apply list_elem_of_In, Hin.
Qed.

Lemma entryFiles_paths d : forall D pre,
  D +:+ "/" = mp +:+ "/" +:+ pre ->
  entryFiles E D d = map (fun f => (join E mp f.1, f.2)) (relEntry pre d).
Proof.
  induction d as [name content|name sub IH] using Dirent_deep_ind; intros D pre HD.
  - simpl. f_equal. rewrite (join_under D pre name HD), posix, append_assoc. reflexivity.
  - simpl. rewrite !map_flat_map. apply flat_map_ext_Forall.
    rewrite Forall_forall in IH. apply Forall_forall. intros d Hd.
    apply IH; [exact Hd|apply join_under_dir, HD].
Qed.

Lemma root_under : mp +:+ "/" = mp +:+ "/" +:+ "".
Proof. rewrite append_nil_r. reflexivity. Qed.

Lemma enumerated_relative tree :
  Forall (fun f => occurs mp f.1 = false) (relFiles tree) ->
  map relativePath (getFilesRecursively E mp None tree) = relPaths tree.
Proof.
  intros Hrel. unfold getFilesRecursively, relPaths, relFiles in *.
  assert (Hbase : default mp (Js.or None (Some mp)) = mp) by reflexivity.
  rewrite Hbase, !map_flat_map. apply flat_map_ext_Forall.
  rewrite Forall_forall in Hrel. apply Forall_forall. intros d Hd.
  apply scanEntry_relative; [apply root_under|].
  apply Forall_forall. intros rel Hin. apply Hrel.
  apply list_elem_of_In. apply (In_flat_map_intro _ _ d).
  - apply list_elem_of_In, Hd.
  - apply list_elem_of_In, Hin.
Qed.

Lemma mounted_files tree :
  flat_map (entryFiles E mp) tree = map (fun f => (join E mp f.1, f.2)) (relFiles tree).
Proof.
  unfold relFiles. rewrite map_flat_map. apply flat_map_ext_Forall.
  apply Forall_forall. intros d _. apply entryFiles_paths, root_under.
Qed.

Lemma mounted_paths tree :
  map fst (flat_map (entryFiles E mp) tree) = map (fun rel => join E mp rel) (relPaths tree).
Proof. rewrite mounted_files. unfold relPaths. rewrite !map_map. reflexivity. Qed.

End Posix.

Lemma absent_Forall mp (l : list (string * list byte)) :
  forallb (fun rel => negb (occurs mp rel)) (map fst l) = true ->
  Forall (fun f => occurs mp f.1 = false) l.
Proof.
  intros H. apply Forall_forall. intros f Hin.
  rewrite forallb_forall in H. apply negb_true_iff, H.
  apply in_map, list_elem_of_In, Hin.
Qed.

Lemma keepChar_underscore : keepChar "_"%char = false.
Proof. reflexivity. Qed.

End PathFacts.

Import PathFacts.

Module PathProps.

(** Property X17. [getFilesRecursively] lists exactly the files of the tree:
    one descriptor for each file at any depth, none for a directory, in
    listing order, each with the size of its file; so the total the progress
    is computed against is the number of bytes of the tree. *)
Theorem enumeration_lists_every_file E dir baseDir entries :
  let files := getFilesRecursively E dir baseDir entries in
  let tree := flat_map (entryFiles E dir) entries in
  map fileSize files = map (fun p => Z.of_nat (length p.2)) tree /\
  length files = length tree /\
  fold_left (fun acc f => acc + fileSize f) files 0
  = Z.of_nat (length (concat (map snd tree))).
Proof.
  intros files tree.
  assert (Hs : map fileSize files = map (fun p => Z.of_nat (length p.2)) tree).
  { subst files tree. unfold getFilesRecursively. rewrite !map_flat_map.
    apply flat_map_ext_Forall, Forall_forall. intros d _. apply scanEntry_sizes. }
  split; [exact Hs|]. split.
  { rewrite <- (length_map fileSize files), Hs, length_map. reflexivity. }
  assert (Hfold : forall l acc,
            fold_left (fun a f => a + fileSize f) l acc
            = acc + fold_right Z.add 0 (map fileSize l)).
  { induction l as [|f l IH]; intros acc; simpl; [lia|]. rewrite IH. lia. }
  rewrite Hfold, Hs. clear. induction tree as [|[p c] t IH]; simpl; [reflexivity|].
  rewrite length_app. simpl in IH. lia.
Qed.

(** Property X18. On a host whose [path.join] puts a [/] between directory
    and segment, for a mount point that is not empty and does not occur in
    the relative path of any file of the mounted tree: the [relativePath] of
    each descriptor is the path of its file relative to the mount point, and
    joining the mount point to it gives back the path of the file in the
    mount, so the copy opens the file that was enumerated. *)
Theorem enumeration_round_trips_paths E mp tree :
  posixJoin E ->
  mp <> "" ->
  forallb (fun rel => negb (occurs mp rel)) (relPaths tree) = true ->
  let files := getFilesRecursively E mp None tree in
  map relativePath files = relPaths tree /\
  map (fun f => join E mp (relativePath f)) files
  = map fst (flat_map (entryFiles E mp) tree).
Proof.
  intros Hposix Hmp Habs files.
  assert (Hrel : map relativePath files = relPaths tree).
  { apply (enumerated_relative E Hposix mp Hmp), absent_Forall, Habs. }
  split; [exact Hrel|].
  rewrite (mounted_paths E Hposix mp), <- Hrel, map_map. reflexivity.
Qed.

(** The tree of [Game-A], mounted at [/tmp/m]. *)
Lemma enumeration_round_trips_paths_witness :
  map relativePath (getFilesRecursively quietHost "/tmp/m" None gameTree)
  = ["a.bin"; "sub/b.bin"].
Proof.
  apply (enumeration_round_trips_paths quietHost "/tmp/m" gameTree
           (fun a b => eq_refl) ltac:(discriminate) eq_refl).
Defined.

(** Property X19. The mount point name is built from a sanitized release
    name (line 252): sanitizing keeps the length, leaves letters, digits and
    [-] as they are, turns every other character into [_], and so is
    idempotent; a name made of letters, digits and [-] is unchanged. *)
Theorem sanitize_is_safe s :
  String.length (sanitize s) = String.length s /\
  forallb safeChar (list_ascii_of_string (sanitize s)) = true /\
  sanitize (sanitize s) = sanitize s /\
  (forallb keepChar (list_ascii_of_string s) = true -> sanitize s = s).
Proof.
  induction s as [|c s (IHl & IHs & IHi & IHk)].
  - repeat split.
  - simpl. split; [f_equal; exact IHl|]. split; [|split].
    + rewrite IHs, andb_true_r. unfold safeChar.
      destruct (keepChar c) eqn:Hc; [rewrite Hc; reflexivity|reflexivity].
    + f_equal; [|exact IHi]. destruct (keepChar c) eqn:Hc; [rewrite Hc; reflexivity|].
      reflexivity.
    + intros H. apply andb_prop in H as [Hc Hs]. rewrite Hc. f_equal. apply IHk, Hs.
Qed.

End PathProps.

(* ===================================================================== *)
(** ** The copy of a file *)
(* ===================================================================== *)

Module StreamFacts.



Section Faulty.
Variable E : Env.
Hypothesis nobody_else : forall n, sched E n = [].
Variables src dest : string.
Variable so : Z.
Variable onP : Z -> M unit.
Variable ref : nat.
Variable e : Err.
Hypothesis onP_queue_only :
  forall p w, fst (onP p w) = Ret tt /\
              destFs (snd (onP p w)) = destFs w /\ cells (snd (onP p w)) = cells w.
Hypothesis writes_ok : forall i, writeFault E dest i = None.


End Faulty.

End StreamFacts.

Import StreamFacts.

Module StreamProps.

(** Property X20. Resuming completes a file: when the destination holds the
    first [n] bytes of the source (or does not exist), nobody cancels and no
    stream fails, the copy of the file appends the rest; afterwards the
    destination has exactly the content of the source, and the count the copy
    returns is the number of bytes that were missing. *)
Theorem resumed_copy_completes_file E key mp root ref ts st tc file w content n :
  let src := join E mp (relativePath file) in
  let dest := join E root (relativePath file) in
  (forall k, sched E k = []) ->
  (forall i, readFault E src i = None) ->
  (forall i, writeFault E dest i = None) ->
  tokenOf ref w = false ->
  readSource E src w = Some content ->
  (n <= length content)%nat ->
  destFs w !! dest = Some (take n content) \/ (n = 0%nat /\ destFs w !! dest = None) ->
  let run := copyOne E key mp root ref ts st tc file w in
  fst run = Ret (Z.of_nat (length content - n)) /\
  destFs (snd run) !! dest = Some content.
Proof.
  intros src dest Hq Hrf Hwf Htok Hsrc Hn Hdest run.
  destruct (copyOne_resumes E key mp root ref ts st tc file w content Hq Hrf Hwf Htok Hsrc)
    as [H1 H2].
  fold dest in H1, H2. fold run in H1, H2.
  assert (Hex : default [] (destFs w !! dest) = take n content).
  { destruct Hdest as [->|[-> ->]]; reflexivity. }
  rewrite Hex in H1, H2. rewrite length_take, Nat.min_l in H1, H2 by exact Hn.
  rewrite take_drop in H2. rewrite length_drop in H1. split; assumption.
Qed.

(** The first four bytes of [a.bin] are at the destination. *)
Lemma resumed_copy_completes_file_witness :
  let w := setDestFs {[ "/dl/Game-A/a.bin" := list_byte_of_string "hell" ]}
             (setMounts ["/tmp/m"] busy) in
  let run := copyOne quietHost "Game-A" "/tmp/m" "/dl/Game-A" 0 14 0 0
               (mkFile "a.bin" 11) w in
  fst run = Ret 7 /\
  destFs (snd run) !! "/dl/Game-A/a.bin" = Some (list_byte_of_string "hello world").
Proof.
  intros w run.
  apply (resumed_copy_completes_file quietHost "Game-A" "/tmp/m" "/dl/Game-A" 0%nat 14 0 0
           (mkFile "a.bin" 11) w (list_byte_of_string "hello world") 4%nat
           (fun _ => eq_refl) (fun _ => eq_refl) (fun _ => eq_refl) eq_refl eq_refl
           ltac:(simpl; lia) (or_introl eq_refl)).
Defined.



End StreamProps.

(* ===================================================================== *)
(** ** A download nobody disturbs *)
(* ===================================================================== *)

Module QuietFacts.

Lemma still_refl w : still w w.
Proof. repeat split. Qed.

Lemma still_trans w1 w2 w3 : still w1 w2 -> still w2 w3 -> still w1 w3.
Proof.
  intros (A1 & A2 & A3 & A4 & A5 & A6) (B1 & B2 & B3 & B4 & B5 & B6).
  repeat split; congruence.
Qed.

Lemma still_emit e w : still w (emit e w).
Proof. repeat split. Qed.

Lemma still_calm key dest w w' : still w w' -> calm key dest w w'.
Proof.
  intros (A1 & A2 & A3 & A4 & A5 & A6). repeat split; try assumption.
  - intros p _. rewrite A4. reflexivity.
  - unfold downloading. rewrite A5. auto.
Qed.

Lemma steady_refl key w : steady key w w.
Proof. repeat split. auto. Qed.

Lemma steady_trans key w1 w2 w3 : steady key w1 w2 -> steady key w2 w3 -> steady key w1 w3.
Proof.
  intros (A1 & A2 & A3 & A4 & A5) (B1 & B2 & B3 & B4 & B5).
  repeat split; try congruence. auto.
Qed.

Lemma still_steady key w w' : still w w' -> steady key w w'.
Proof.
  intros (A1 & A2 & A3 & A4 & A5 & A6). repeat split; try assumption.
  unfold downloading. rewrite A5. auto.
Qed.

Lemma steady_calm key dest w w' : steady key w w' -> calm key dest w w'.
Proof.
  intros (A1 & A2 & A3 & A4 & A5). repeat split; try assumption.
  intros p _. rewrite A4. reflexivity.
Qed.

Lemma steady_progress key prog err sp et ex w :
  steady key w (updateItemStatus key Downloading prog err sp et ex w).
Proof.
  destruct (untouched_updateItemStatus key Downloading prog err sp et ex w)
    as (Ha & Hc & Hd & Hm & _).
  repeat split; try assumption.
  intros (it & Hit & _). unfold downloading.
  rewrite findItem_updateItemStatus, Hit. simpl. eexists. split; reflexivity.
Qed.

Lemma calm_refl key dest w : calm key dest w w.
Proof. apply still_calm, still_refl. Qed.

Lemma calm_trans key dest w1 w2 w3 :
  calm key dest w1 w2 -> calm key dest w2 w3 -> calm key dest w1 w3.
Proof.
  intros (A1 & A2 & A3 & A4 & A5) (B1 & B2 & B3 & B4 & B5).
  repeat split; try congruence.
  - intros p Hp. rewrite B4, A4 by exact Hp. reflexivity.
  - auto.
Qed.

Lemma calm_progress key dest prog err sp et ex w :
  calm key dest w (updateItemStatus key Downloading prog err sp et ex w).
Proof. apply steady_calm, steady_progress. Qed.

Lemma calm_append key dest chunk w : calm key dest w (appendDest dest chunk w).
Proof.
  repeat split; [|auto]. intros p Hp. simpl. apply lookup_insert_ne. congruence.
Qed.

Lemma calm_open key dest flag w : calm key dest w (openDest dest flag w).
Proof.
  repeat split; try (destruct flag; reflexivity); [|destruct flag; auto].
  intros p Hp. destruct flag; simpl; apply lookup_insert_ne; congruence.
Qed.

Section Quiet.
Variable E : Env.
Hypothesis nobody_else : forall n, sched E n = [].

Lemma still_turn w : still w (turn E w).
Proof. rewrite (quiet_turn E nobody_else). repeat split. Qed.

Lemma keeps_still_emit e : keeps still (modify (emit e)).
Proof. intros w. apply still_emit. Qed.

Lemma keeps_still_await {A} (m : M A) : keeps still m -> keeps still (await E m).
Proof.
  intros Hm w. unfold await. specialize (Hm w).
  destruct (m w) as [[a|e|] w1]; simpl in *; [| |exact Hm];
    (eapply still_trans; [exact Hm|apply still_turn]).
Qed.

Lemma still_mkdir path : keeps still (mkdir E path).
Proof.
  unfold mkdir. apply keeps_still_await.
  apply (keeps_bind still still_trans); [apply keeps_still_emit|]. intros _.
  destruct (mkdirFault E path); intros w; apply still_refl.
Qed.

Lemma still_statDest dest : keeps still (statDest E dest).
Proof.
  unfold statDest. apply keeps_still_await.
  apply (keeps_bind still still_trans); [apply keeps_still_emit|]. intros _.
  intros w; apply still_refl.
Qed.

Lemma still_pollMount mp n : forall i, keeps still (pollMount E mp i n).
Proof.
  induction n as [|n IH]; intros i; simpl; [intros w; apply still_refl|].
  apply (keeps_bind still still_trans); [apply keeps_still_await, keeps_still_emit|].
  intros _. apply (keeps_bind still still_trans).
  - apply keeps_still_await. apply (keeps_bind still still_trans); [apply keeps_still_emit|].
    intros _ w. apply still_refl.
  - intros testRead. destruct (listingReady testRead); [intros w; apply still_refl|apply IH].
Qed.

Lemma still_cleanup mp key : keeps still (cleanup E mp key).
Proof.
  unfold cleanup. apply (keeps_bind still still_trans); [apply keeps_still_emit|]. intros _.
  apply (keeps_bind still still_trans).
  { intros w. simpl. destruct (Js.truthy key); [|apply still_refl].
    destruct (activeDownloads w !! default "" key) as [ctl|]; [|apply still_refl].
    destruct (mountProcess ctl); [apply still_emit|apply still_refl]. }
  intros _. apply (keeps_bind still still_trans).
  { destruct (platform E); try (apply keeps_still_await, keeps_still_emit).
    intros w; apply still_refl. }
  intros _. apply keeps_still_await, keeps_still_emit.
Qed.

Lemma still_alreadyCopied root files : forall tc, keeps still (alreadyCopied E root files tc).
Proof.
  induction files as [|file rest IH]; intros tc; simpl; [intros w; apply still_refl|].
  apply (keeps_bind still still_trans); [apply still_statDest|]. intros s. apply IH.
Qed.

Lemma alreadyCopied_returns root files : forall tc w,
  exists n, fst (alreadyCopied E root files tc w) = Ret n.
Proof.
  induction files as [|file rest IH]; intros tc w; simpl; [eexists; reflexivity|].
  rewrite (bind_ret _ _ _ _ _ (statDest_run E _ w)). apply IH.
Qed.

Section OneFile.
Variables key dest : string.

Let R := calm key dest.

Lemma calm_pump src so tc ts st ref chunks : forall idx copied,
  keeps R (pump E src dest so (onProgress E key tc ts so st) ref chunks idx copied).
Proof.
  induction chunks as [|chunk rest IH]; intros idx copied; simpl.
  - apply (keeps_bind R (calm_trans key dest)).
    { intros w. apply still_calm, still_emit. }
    intros _. apply (keeps_bind R (calm_trans key dest)).
    { intros w. apply still_calm, still_turn. }
    intros _ w. apply calm_refl.
  - destruct (readFault E src idx).
    { apply (keeps_bind R (calm_trans key dest)).
      - intros w. apply still_calm, still_emit.
      - intros _ w. apply calm_refl. }
    apply (keeps_bind R (calm_trans key dest)); [intros w; apply calm_refl|].
    intros cancelled. destruct cancelled.
    { apply (keeps_bind R (calm_trans key dest)).
      { intros w. apply still_calm, still_emit. }
      intros _. apply (keeps_bind R (calm_trans key dest)).
      { intros w. apply still_calm, still_emit. }
      intros _ w. apply calm_refl. }
    apply (keeps_bind R (calm_trans key dest)).
    { intros w. unfold onProgress. simpl. apply calm_progress. }
    intros _. destruct (writeFault E dest idx).
    { apply (keeps_bind R (calm_trans key dest)).
      - intros w. apply still_calm, still_emit.
      - intros _ w. apply calm_refl. }
    apply (keeps_bind R (calm_trans key dest)).
    { intros w. apply calm_append. }
    intros _. apply (keeps_bind R (calm_trans key dest)).
    { intros w. apply still_calm, still_turn. }
    intros _. apply IH.
Qed.

End OneFile.

Lemma calm_copyOne key mp root ref ts st tc file :
  keeps (calm key (join E root (relativePath file)))
        (copyOne E key mp root ref ts st tc file).
Proof.
  set (dest := join E root (relativePath file)).
  unfold copyOne. fold dest.
  apply (keeps_bind _ (calm_trans key dest)).
  { intros w. apply still_calm, still_statDest. }
  intros s. unfold copyFileWithProgress.
  apply (keeps_bind _ (calm_trans key dest)).
  { intros w. apply still_calm, still_emit. }
  intros _. apply (keeps_bind _ (calm_trans key dest)).
  { intros w. apply still_calm, still_emit. }
  intros _. apply (keeps_bind _ (calm_trans key dest)).
  { intros w. apply calm_open. }
  intros _. apply (keeps_bind _ (calm_trans key dest)).
  { intros w. apply still_calm, still_turn. }
  intros _. apply (keeps_bind _ (calm_trans key dest)); [intros w; apply calm_refl|].
  intros source. destruct source.
  - apply calm_pump.
  - apply (keeps_bind _ (calm_trans key dest)).
    + intros w. apply still_calm, still_emit.
    + intros _ w. apply calm_refl.
Qed.

Lemma tokenOf_cells r w w' : cells w' = cells w -> tokenOf r w' = tokenOf r w.
Proof. intros H. unfold tokenOf. rewrite H. reflexivity. Qed.

Lemma readSource_mounts p w w' : mounts w' = mounts w -> readSource E p w' = readSource E p w.
Proof. intros H. unfold readSource. rewrite H. reflexivity. Qed.

(** The copy loop on a quiet, faultless host: every file ends with the
    content of its source. *)
Lemma copyLoop_completes key mp root ref ts st :
  faultless E ->
  forall (fcs : list (FileDescriptor * list byte)) tc w,
    NoDup (map (fun fc => join E root (relativePath fc.1)) fcs) ->
    Forall (fun fc =>
              readSource E (join E mp (relativePath fc.1)) w = Some fc.2 /\
              exists k, fc.2 = (default [] (destFs w !! join E root (relativePath fc.1)) ++ k)%list)
           fcs ->
    tokenOf ref w = false ->
    downloading key w ->
    let run := copyLoop E key mp root ref ts st (map fst fcs) tc w in
    fst run = Ret tt /\
    cells (snd run) = cells w /\
    activeDownloads (snd run) = activeDownloads w /\
    downloading key (snd run) /\
    Forall (fun fc => destFs (snd run) !! join E root (relativePath fc.1) = Some fc.2) fcs /\
    (forall p, ~ In p (map (fun fc => join E root (relativePath fc.1)) fcs) ->
               destFs (snd run) !! p = destFs w !! p).
Proof.
  intros (Hmk & _ & Hrf & Hwf).
  induction fcs as [|[file content] fcs IH]; intros tc w Hnd Hall Htok Hdl run.
  - subst run. simpl. repeat split; [exact Hdl|constructor].
  - subst run. simpl map. cbn [copyLoop]. rewrite !bind_gets, Htok.
    destruct Hdl as (it & Hit & Hst). rewrite Hit, Hst.
    rewrite bool_decide_eq_false_2 by (intros H; apply H; reflexivity).
    change (false || false) with false. cbv iota.
    set (dest := join E root (relativePath file)).
    set (src := join E mp (relativePath file)).
    rewrite (bind_ret _ _ _ _ _ (mkdir_world E _ w (Hmk _))).
    set (w1 := turn E (emit _ w)).
    assert (S1 : still w w1).
    { subst w1. eapply still_trans; [apply still_emit|apply still_turn]. }
    destruct S1 as (C1 & A1 & M1 & D1 & Q1 & _).
    apply Forall_cons in Hall as [[Hsrc (k & Hk)] Hall]. simpl in Hsrc, Hk.
    fold src in Hsrc. fold dest in Hk.
    assert (Htok1 : tokenOf ref w1 = false) by (rewrite (tokenOf_cells _ _ _ C1); exact Htok).
    assert (Hsrc1 : readSource E src w1 = Some content).
    { rewrite (readSource_mounts _ _ _ M1). exact Hsrc. }
    destruct (copyOne_resumes E key mp root ref ts st tc file w1 content
                nobody_else (Hrf _) (Hwf _) Htok1 Hsrc1) as [Hr Hd].
    fold dest in Hr, Hd. rewrite D1 in Hr, Hd.
    assert (Hdrop : drop (length (default [] (destFs w !! dest))) content = k).
    { rewrite Hk. rewrite drop_app_length. reflexivity. }
    rewrite Hdrop in Hr, Hd. rewrite <- Hk in Hd.
    pose proof (calm_copyOne key mp root ref ts st tc file w1) as (C2 & A2 & M2 & D2 & Q2).
    fold dest in D2.
    set (w2 := snd (copyOne E key mp root ref ts st tc file w1)) in *.
    rewrite (bind_run _ _ _ _ Hr). fold w2. rewrite bind_gets.
    assert (Htok2 : tokenOf ref w2 = false).
    { rewrite (tokenOf_cells _ _ _ C2). exact Htok1. }
    rewrite Htok2.
    rewrite map_cons in Hnd. apply NoDup_cons in Hnd as [Hnotin Hnd].
    cbn [fst] in Hnotin. fold dest in Hnotin. rewrite list_elem_of_In in Hnotin.
    assert (Hdl2 : downloading key w2).
    { apply Q2. exists it. rewrite Q1. split; assumption. }
    assert (Hall2 : Forall (fun fc =>
              readSource E (join E mp (relativePath fc.1)) w2 = Some fc.2 /\
              exists k, fc.2 = (default [] (destFs w2 !! join E root (relativePath fc.1)) ++ k)%list)
           fcs).
    { rewrite Forall_forall in Hall. apply Forall_forall. intros fc Hin.
      destruct (Hall fc Hin) as (Hs & Hp). split.
      - rewrite (readSource_mounts _ w1 w2 M2), (readSource_mounts _ w w1 M1). exact Hs.
      - rewrite D2, D1; [exact Hp|]. intros Heq. apply Hnotin. rewrite <- Heq.
        apply (in_map (fun fc => join E root (relativePath fc.1))).
        apply list_elem_of_In, Hin. }
    destruct (IH (tc + Z.of_nat (length k)) w2 Hnd Hall2 Htok2 Hdl2)
      as (R1 & R2 & R3 & R4 & R5 & R6).
    split; [exact R1|]. split; [congruence|]. split; [congruence|]. split; [exact R4|].
    split.
    + constructor; [|exact R5]. cbn [fst snd]. fold dest. rewrite R6; [exact Hd|].
      exact Hnotin.
    + intros p Hp. cbn [map fst] in Hp. fold dest in Hp.
      rewrite R6 by (intros Hin; apply Hp; right; exact Hin).
      rewrite D2 by (intros ->; apply Hp; left; reflexivity).
      rewrite D1. reflexivity.
Qed.

End Quiet.

End QuietFacts.

Import QuietFacts.

Module WholeFacts.

Lemma map_fst_combine {A B} (a : list A) : forall b : list B,
  length a = length b -> map fst (combine a b) = a.
Proof.
  induction a as [|x a IH]; intros [|y b] H; simpl in *; try reflexivity; try lia.
  f_equal. apply IH. lia.
Qed.

Lemma combine_paired {A} (g : A -> string) (l : list (string * list byte)) :
  forall a : list A,
    map g a = map fst l ->
    Forall (fun fc => In (g fc.1, fc.2) l) (combine a (map snd l)).
Proof.
  induction l as [|[p c] l IH]; intros [|x a] H; simpl in *; try constructor;
    try discriminate.
  - simpl. left. injection H as -> _. reflexivity.
  - injection H as _ H. eapply Forall_impl; [apply IH, H|].
    intros fc Hin. right. exact Hin.
Qed.

Lemma combine_covers {A} (g : A -> string) (l : list (string * list byte)) :
  forall (a : list A) rel c,
    map g a = map fst l ->
    In (rel, c) l ->
    exists fc, In fc (combine a (map snd l)) /\ g fc.1 = rel /\ fc.2 = c.
Proof.
  induction l as [|[p c0] l IH]; intros [|x a] rel c H Hin; simpl in *;
    try contradiction; try discriminate.
  injection H as Hx H. destruct Hin as [Heq|Hin].
  - injection Heq as <- <-. exists (x, c0). repeat split; [left; reflexivity|exact Hx].
  - destruct (IH a rel c H Hin) as (fc & Hfc & Hg & Hc).
    exists fc. repeat split; [right; exact Hfc|exact Hg|exact Hc].
Qed.

Lemma distinct_NoDup l : distinct l = true -> NoDup l.
Proof.
  induction l as [|x l IH]; simpl; intros H; [constructor|].
  apply andb_prop in H as [Hx Hl]. constructor; [|apply IH, Hl].
  intros Hin. apply negb_true_iff in Hx. apply list_elem_of_In in Hin.
  assert (existsb (String.eqb x) l = true); [|congruence].
  apply existsb_exists. exists x. split; [exact Hin|apply String.eqb_refl].
Qed.

Lemma NoDup_map_inj {A B} (f : A -> B) (l : list A) :
  (forall x y, f x = f y -> x = y) -> NoDup l -> NoDup (map f l).
Proof.
  intros Hinj. induction 1 as [|x l Hx Hl IH]; simpl; constructor; [|exact IH].
  intros Hin. apply list_elem_of_In, in_map_iff in Hin as (y & Hy & Hin).
  apply Hinj in Hy. subst y. apply Hx, list_elem_of_In, Hin.
Qed.

Lemma assoc_found (l : list (string * list byte)) p c :
  NoDup (map fst l) -> In (p, c) l -> assoc p l = Some c.
Proof.
  induction l as [|[p0 c0] l IH]; simpl; intros Hnd Hin; [contradiction|].
  apply NoDup_cons in Hnd as [Hnotin Hnd].
  destruct Hin as [Heq|Hin].
  - injection Heq as -> ->. rewrite String.eqb_refl. reflexivity.
  - destruct (String.eqb p0 p) eqn:Hp; [|apply IH; assumption].
    apply String.eqb_eq in Hp. subst p0. exfalso. apply Hnotin.
    apply list_elem_of_In. apply (in_map fst l (p, c)), Hin.
Qed.

Lemma append_inj_l (a x y : string) : a +:+ x = a +:+ y -> x = y.
Proof.
  induction a as [|c a IH]; [auto|]. rewrite !append_cons. intros H.
  injection H as H. apply IH, H.
Qed.

Lemma posix_join_inj E d a b : posixJoin E -> join E d a = join E d b -> a = b.
Proof.
  intros Hp. rewrite !Hp. intros H. apply append_inj_l in H. apply append_inj_l in H.
  exact H.
Qed.

Section Whole.
Variable E : Env.
Hypothesis nobody_else : forall n, sched E n = [].
Hypothesis no_faults : faultless E.
Hypothesis posix : posixJoin E.

Lemma mount_accessible mp w :
  mountTree E <> [] ->
  tryCatch
    (await E (modify (emit (EvReaddir mp)) ;;
              match contentsFault E with
              | Some e => throw e
              | None => ret tt
              end) ;;
     if bool_decide (length (mountTree E) = 0%nat)
     then throw (JsError "No files found in mounted directory")
     else ret true)
    (fun _ => ret false) w
  = (Ret true, turn E (emit (EvReaddir mp) w)).
Proof.
  intros Hne. destruct no_faults as (_ & Hc & _).
  unfold tryCatch, bind, await, modify. rewrite Hc.
  rewrite bool_decide_eq_false_2; [reflexivity|].
  destruct (mountTree E); [congruence|discriminate].
Qed.

Lemma completeAttempt_succeeds key mp ref w it :
  downloadCancelledOf ref w = false ->
  findItem key (queue w) = Some it ->
  status it = Downloading ->
  fst (completeAttempt E key mp ref w) = Ret (mkResult true true (Some it)) /\
  activeDownloads (snd (completeAttempt E key mp ref w)) !! key = None /\
  destFs (snd (completeAttempt E key mp ref w)) = destFs w.
Proof.
  intros Hd Hit Hst. unfold completeAttempt.
  rewrite bind_gets, Hd, bind_gets, Hit, Hst.
  rewrite bool_decide_eq_false_2 by (intros H; apply H; reflexivity).
  unfold unregister, clearPid. rewrite !bind_modify.
  rewrite (bind_run _ _ _ tt) by apply cleanup_run.
  match goal with |- context [cleanup E mp (Some key) ?x] =>
    set (wx := x);
    destruct (still_cleanup E nobody_else mp (Some key) wx) as (_ & Ha & _ & Hf & _) end.
  unfold ret. cbn [fst snd]. split; [reflexivity|].
  rewrite Ha, Hf. subst wx. simpl. split; [apply lookup_delete_eq|reflexivity].
Qed.

(** From the listing of the mounted root to the result, on a quiet,
    faultless host. *)
Lemma downloadFromMount_completes item root mp proc w :
  let key := releaseName item in
  mountTree E <> [] ->
  mounts w = [mp] ->
  mp <> "" ->
  forallb (fun rel => negb (occurs mp rel)) (relPaths (mountTree E)) = true ->
  distinct (relPaths (mountTree E)) = true ->
  downloading key w ->
  (forall rel c, In (rel, c) (relFiles (mountTree E)) ->
     exists k, c = (default [] (destFs w !! join E root rel) ++ k)%list) ->
  let run := downloadFromMount E item root mp proc w in
  (exists it, fst run = Ret (mkResult true true (Some it)) /\ status it = Downloading) /\
  (forall rel c, In (rel, c) (relFiles (mountTree E)) ->
     destFs (snd run) !! join E root rel = Some c) /\
  activeDownloads (snd run) !! key = None.
Proof.
  intros key Hne Hm Hmp Habs Hdis Hdl Hpre run. subst run.
  set (tree := mountTree E) in *.
  unfold downloadFromMount. fold key. fold tree.
  rewrite (bind_ret _ _ _ _ _ (mount_accessible mp w Hne)).
  change (negb true) with false. cbv iota.
  set (w1 := turn E (emit (EvReaddir mp) w)).
  assert (S1 : still w w1).
  { subst w1. eapply still_trans; [apply still_emit|apply still_turn, nobody_else]. }
  set (files := getFilesRecursively E mp None tree).
  assert (Hawait : await E (ret files) w1 = (Ret files, turn E w1)) by reflexivity.
  rewrite (bind_ret _ _ _ _ _ Hawait).
  set (w2 := turn E w1).
  assert (S2 : still w w2).
  { eapply still_trans; [exact S1|apply still_turn, nobody_else]. }
  destruct (alreadyCopied_returns E root files 0 w2) as (tc0 & Htc).
  rewrite (bind_run _ _ _ _ Htc).
  set (w3 := snd (alreadyCopied E root files 0 w2)).
  assert (S3 : still w w3).
  { eapply still_trans; [exact S2|apply (still_alreadyCopied E nobody_else)]. }
  set (total := fold_left _ files 0).
  set (w4 := snd ((if 0 <? tc0
                   then setStatus key Downloading (Js.roundPercent tc0 total) None
                   else ret tt) w3)).
  assert (Hst4 : (if 0 <? tc0
                  then setStatus key Downloading (Js.roundPercent tc0 total) None
                  else ret tt) w3 = (Ret tt, w4)).
  { subst w4. destruct (0 <? tc0); reflexivity. }
  rewrite (bind_ret _ _ _ _ _ Hst4).
  assert (S4 : steady key w w4).
  { eapply steady_trans; [apply still_steady, S3|].
    subst w4. destruct (0 <? tc0); [apply steady_progress|apply steady_refl]. }
  unfold dateNow. rewrite bind_gets.
  set (startTime := now E (clock w4)).
  set (ref := length (cells w4)).
  set (w5 := setActive (<[key := mkController ref (Some proc)]> (activeDownloads w4))
               (setCells (cells w4 ++ [mkCell false false]) w4)).
  assert (Hreg : registerController key proc w4 = (Ret ref, w5)) by reflexivity.
  rewrite (bind_ret _ _ _ _ _ Hreg).
  destruct S4 as (C4 & A4 & M4 & D4 & Q4).
  assert (Hcell : cells w5 !! ref = Some (mkCell false false)).
  { subst w5 ref. simpl. rewrite lookup_app_r by lia.
    rewrite Nat.sub_diag. reflexivity. }
  assert (Htok5 : tokenOf ref w5 = false).
  { unfold tokenOf. rewrite Hcell. reflexivity. }
  assert (Hdl5 : downloading key w5).
  { destruct (Q4 Hdl) as (it & Hit & Hs). exists it. split; assumption. }
  (* the files, paired with the contents of their sources *)
  assert (Hrel : map relativePath files = relPaths tree).
  { apply (enumerated_relative E posix mp Hmp), absent_Forall, Habs. }
  set (fcs := combine files (map snd (relFiles tree))).
  assert (Hfst : map fst fcs = files).
  { subst fcs. apply map_fst_combine.
    rewrite length_map, <- (length_map relativePath files), Hrel.
    unfold relPaths. rewrite length_map. reflexivity. }
  assert (Hpair : Forall (fun fc => In (relativePath fc.1, fc.2) (relFiles tree)) fcs).
  { subst fcs. apply combine_paired. exact Hrel. }
  assert (Hnd : NoDup (relPaths tree)) by apply distinct_NoDup, Hdis.
  assert (Hnd_dest : NoDup (map (fun fc => join E root (relativePath fc.1)) fcs)).
  { assert (Heq : map (fun fc => join E root (relativePath fc.1)) fcs
                  = map (join E root) (relPaths tree)).
    { rewrite <- Hrel, <- Hfst, !map_map. reflexivity. }
    rewrite Heq. apply NoDup_map_inj; [|exact Hnd].
    intros x y. apply posix_join_inj, posix. }
  assert (Hsrc : forall rel c, In (rel, c) (relFiles tree) ->
                   readSource E (join E mp rel) w5 = Some c).
  { intros rel c Hin. unfold readSource.
    assert (Hm5 : mounts w5 = [mp]) by (subst w5; simpl; congruence).
    rewrite Hm5. simpl. rewrite app_nil_r. unfold mountFiles. fold tree.
    rewrite (mounted_files E posix mp). apply assoc_found.
    - rewrite map_map. simpl.
      change (NoDup (map (fun f : string * list byte => join E mp f.1) (relFiles tree))).
      assert (Heq : map (fun f : string * list byte => join E mp f.1) (relFiles tree)
                    = map (join E mp) (relPaths tree)).
      { unfold relPaths. rewrite map_map. reflexivity. }
      rewrite Heq. apply NoDup_map_inj; [|exact Hnd].
      intros x y. apply posix_join_inj, posix.
    - apply (in_map (fun f : string * list byte => (join E mp f.1, f.2))
                    (relFiles tree) (rel, c)), Hin. }
  assert (Hall : Forall (fun fc =>
            readSource E (join E mp (relativePath fc.1)) w5 = Some fc.2 /\
            exists k, fc.2 = (default [] (destFs w5 !! join E root (relativePath fc.1)) ++ k)%list)
          fcs).
  { eapply Forall_impl; [exact Hpair|]. intros fc Hin. split.
    - apply Hsrc, Hin.
    - assert (Hd5 : destFs w5 = destFs w) by (subst w5; simpl; congruence).
      rewrite Hd5. apply (Hpre _ _ Hin). }
  destruct (copyLoop_completes E nobody_else key mp root ref total startTime no_faults
              fcs tc0 w5 Hnd_dest Hall Htok5 Hdl5) as (R1 & R2 & R3 & R4 & R5 & R6).
  rewrite Hfst in R1, R2, R3, R4, R5, R6.
  rewrite (bind_run _ _ _ _ R1).
  set (w6 := snd (copyLoop E key mp root ref total startTime files tc0 w5)) in *.
  assert (Hd6 : downloadCancelledOf ref w6 = false).
  { unfold downloadCancelledOf. rewrite R2, Hcell. reflexivity. }
  destruct R4 as (it & Hit & Hs).
  destruct (completeAttempt_succeeds key mp ref w6 it Hd6 Hit Hs) as (F1 & F2 & F3).
  split; [exists it; split; assumption|]. split; [|exact F2].
  intros rel c Hin. rewrite F3.
  destruct (combine_covers relativePath (relFiles tree) files rel c Hrel Hin)
    as (fc & Hfc & <- & <-). fold fcs in Hfc.
  rewrite Forall_forall in R5. apply R5. apply list_elem_of_In, Hfc.
Qed.

End Whole.

(** The whole attempt on a quiet, faultless host. *)
Lemma startMountBasedDownload_completes E item mc w it k names :
  let key := releaseName item in
  let root := join E (downloadPath item) key in
  let mp := mountPointFor E key (now E (clock w)) in
  (forall n, sched E n = []) ->
  faultless E ->
  posixJoin E ->
  configured w = true ->
  Js.truthy (rclonePath E) = true ->
  diskSpacePreflight E item = None ->
  (k < 10)%nat ->
  (forall j, (j < k)%nat -> readyPoll E j = None) ->
  readyPoll E k = Some names ->
  mountTree E <> [] ->
  forallb (fun rel => negb (occurs mp rel)) (relPaths (mountTree E)) = true ->
  distinct (relPaths (mountTree E)) = true ->
  mounts w = [] ->
  findItem key (queue w) = Some it ->
  (forall rel c, In (rel, c) (relFiles (mountTree E)) ->
     exists rest, c = (default [] (destFs w !! join E root rel) ++ rest)%list) ->
  let run := startMountBasedDownload E item mc w in
  (exists fin, fst run = Ret (mkResult true true (Some fin)) /\ status fin = Downloading) /\
  (forall rel c, In (rel, c) (relFiles (mountTree E)) ->
     destFs (snd run) !! join E root rel = Some c) /\
  activeDownloads (snd run) !! key = None.
Proof.
  intros key root mp Hq Hfl Hposix Hc Hr Hsp Hk Hn Hs Hne Habs Hdis Hm Hit Hpre run.
  subst run.
  pose proof Hfl as (Hmk & _).
  rewrite (startMountBasedDownload_attempt E item Hr mc w Hc). fold key root mp.
  set (w0 := setDownloadPath E item w).
  assert (Hbody :
    (exists fin, fst (attemptBody E item mc root mp w0)
                 = Ret (mkResult true true (Some fin)) /\ status fin = Downloading) /\
    (forall rel c, In (rel, c) (relFiles (mountTree E)) ->
       destFs (snd (attemptBody E item mc root mp w0)) !! join E root rel = Some c) /\
    activeDownloads (snd (attemptBody E item mc root mp w0)) !! key = None);
    [|destruct Hbody as ((fin & Hfin & Hst) & Hfiles & Hreg);
      rewrite (tryCatch_run _ _ _ _ Hfin); cbn [fst snd];
      split; [exists fin; split; [reflexivity|exact Hst]|]; split; assumption].
  rewrite (attemptBody_at_preflight E item mc root mp (Hmk _) (Hmk _)), Hsp.
  set (w1 := atPreflight E root mp w0).
  assert (S1 : still w0 w1).
  { subst w1. unfold atPreflight.
    eapply still_trans; [apply (still_mkdir E Hq)|].
    eapply still_trans; [apply (still_mkdir E Hq)|].
    apply (keeps_still_await E Hq). intros x. apply still_refl. }
  unfold mountAndDownload, setStatus. fold key. rewrite bind_modify, bind_gets.
  set (w2 := updateItemStatus key Downloading (Js.Num 0) None None None None w1).
  set (args := mountArgs E item mc mp w2).
  set (w3 := setMounts (mounts w2 ++ [mp])
               (setNextProc (S (nextProc w2)) (emit (EvSpawnMount (nextProc w2) args) w2))).
  change (bind (spawnMount args mp) ?f w2) with (f (nextProc w2) w3).
  destruct (pollMount_ready E false ltac:(discriminate) mp 10 0%nat k names w3 Hk)
    as [Hready _].
  { intros j Hj. apply Hn. lia. }
  { exact Hs. }
  set (wT := snd (pollMount E mp 0 10 w3)) in *.
  assert (ST : still w3 wT) by apply (still_pollMount E Hq).
  (* what the steps before the listing left *)
  assert (H0 : cells w0 = cells w /\ activeDownloads w0 = activeDownloads w /\
               mounts w0 = mounts w /\ destFs w0 = destFs w).
  { subst w0. unfold setDownloadPath, updateItem. simpl. repeat split. }
  destruct H0 as (_ & _ & M0 & D0).
  destruct S1 as (_ & _ & M1 & D1 & Q1 & _).
  destruct (untouched_updateItemStatus key Downloading (Js.Num 0) None None None None w1)
    as (_ & _ & D2 & M2 & _). fold w2 in D2, M2.
  destruct ST as (_ & _ & MT & DT & QT & _).
  assert (HmT : mounts wT = [mp]).
  { rewrite MT. subst w3. simpl. rewrite M2, M1, M0, Hm. reflexivity. }
  assert (HdT : destFs wT = destFs w).
  { rewrite DT. subst w3. simpl. rewrite D2, D1, D0. reflexivity. }
  assert (HqT : downloading key wT).
  { unfold downloading. rewrite QT. subst w3. simpl queue. subst w2.
    rewrite findItem_updateItemStatus, Q1. subst w0.
    unfold setDownloadPath, updateItem. simpl queue. fold key.
    rewrite findItem_updateQueue, Hit. simpl. eexists. split; reflexivity. }
  assert (Hmp : mp <> "").
  { subst mp. unfold mountPointFor. rewrite Hposix. intros H.
    apply append_empty in H. discriminate. }
  assert (HpreT : forall rel c, In (rel, c) (relFiles (mountTree E)) ->
            exists rest, c = (default [] (destFs wT !! join E root rel) ++ rest)%list).
  { intros rel c Hin. rewrite HdT. apply (Hpre rel c Hin). }
  rewrite (bind_run _ _ _ _ Hready). fold wT. change (negb true) with false. cbv iota.
  apply (downloadFromMount_completes E Hq Hfl Hposix item root mp (nextProc w2) wT
           Hne HmT Hmp Habs Hdis HqT HpreT).
Qed.

End WholeFacts.

Import WholeFacts.

Module WholeProps.

(** Property X22. A download nobody disturbs copies every file. On a host
    where no file-system operation fails and [path.join] puts a [/] between
    directory and segment, with a configuration, rclone, enough disk space
    and a mount that answers one of the ten polls: if the mounted tree is not
    empty, its files have distinct relative paths in which the mount point
    does not occur, the item is queued, no other mount is served, and what is
    at each destination is a prefix of its source (nothing, or the bytes an
    interrupted attempt left), then [startMountBasedDownload], and [resumeDownload] likewise, resolves with
    [success] and [startExtraction] true and the item Downloading; every file
    of the tree is at its relative path under the download directory with
    exactly the content of its source; and the registry entry is gone. *)
Theorem quiet_download_copies_every_file E item mc w it k names :
  let key := releaseName item in
  let root := join E (downloadPath item) key in
  let mp := mountPointFor E key (now E (clock w)) in
  (forall n, sched E n = []) ->
  faultless E ->
  posixJoin E ->
  configured w = true ->
  Js.truthy (rclonePath E) = true ->
  diskSpacePreflight E item = None ->
  (k < 10)%nat ->
  (forall j, (j < k)%nat -> readyPoll E j = None) ->
  readyPoll E k = Some names ->
  mountTree E <> [] ->
  forallb (fun rel => negb (occurs mp rel)) (relPaths (mountTree E)) = true ->
  distinct (relPaths (mountTree E)) = true ->
  mounts w = [] ->
  findItem key (queue w) = Some it ->
  (forall rel c, In (rel, c) (relFiles (mountTree E)) ->
     exists rest, c = (default [] (destFs w !! join E root rel) ++ rest)%list) ->
  forall run,
    run = startMountBasedDownload E item mc w \/ run = resumeDownload E item w ->
    (exists fin, fst run = Ret (mkResult true true (Some fin)) /\ status fin = Downloading) /\
    (forall rel c, In (rel, c) (relFiles (mountTree E)) ->
       destFs (snd run) !! join E root rel = Some c) /\
    activeDownloads (snd run) !! key = None.
Proof.
  intros key root mp Hq Hfl Hposix Hc Hr Hsp Hk Hn Hs Hne Habs Hdis Hm Hit Hpre run Hrun.
  destruct Hrun as [->| ->].
  - apply (startMountBasedDownload_completes E item mc w it k names Hq Hfl Hposix Hc Hr Hsp
             Hk Hn Hs Hne Habs Hdis Hm Hit Hpre).
  - unfold resumeDownload, setStatus. rewrite bind_modify. fold key.
    set (w' := updateItemStatus key Downloading (progress item) None None None None w).
    destruct (untouched_updateItemStatus key Downloading (progress item) None None None None w)
      as (_ & _ & Hd & Hm' & Hv). fold w' in Hd, Hm', Hv.
    assert (Hclock : clock w' = clock w).
    { subst w'. unfold updateItemStatus, updateItem.
      destruct (updateItemOk key (queue w)); reflexivity. }
    assert (Hit' : exists it', findItem key (queue w') = Some it').
    { subst w'. rewrite findItem_updateItemStatus, Hit. simpl. eexists. reflexivity. }
    destruct Hit' as (it' & Hit').
    assert (Hc' : configured w' = true).
    { unfold configured. rewrite Hv. exact Hc. }
    apply (startMountBasedDownload_completes E item None w' it' k names Hq Hfl Hposix Hc' Hr
             Hsp Hk Hn Hs Hne).
    + rewrite Hclock. exact Habs.
    + exact Hdis.
    + rewrite Hm'. exact Hm.
    + exact Hit'.
    + intros rel c Hin. rewrite Hd. apply (Hpre rel c Hin).
Qed.

(** [Game-A] is downloaded from scratch on a quiet host whose mount is
    ready at the first poll. *)
Lemma quiet_download_copies_every_file_witness :
  let run := startMountBasedDownload quietHost (gameA Queued None) None (idle None) in
  destFs (snd run) !! "/dl/Game-A/a.bin" = Some (list_byte_of_string "hello world") /\
  destFs (snd run) !! "/dl/Game-A/sub/b.bin" = Some (list_byte_of_string "xyz") /\
  activeDownloads (snd run) !! "Game-A" = None.
Proof.
  intros run.
  assert (Hfl : faultless quietHost) by (repeat split).
  assert (Hpre : forall rel c, In (rel, c) (relFiles (mountTree quietHost)) ->
            exists rest,
              c = (default [] (destFs (idle None)
                                 !! join quietHost
                                      (join quietHost (downloadPath (gameA Queued None))
                                         (releaseName (gameA Queued None))) rel)
                   ++ rest)%list).
  { intros rel c _. exists c. reflexivity. }
  destruct (quiet_download_copies_every_file quietHost (gameA Queued None) None (idle None)
              (gameA Queued None) 0%nat [] (fun _ => eq_refl) Hfl (fun _ _ => eq_refl)
              eq_refl eq_refl eq_refl ltac:(lia) ltac:(intros j Hj; lia) eq_refl
              ltac:(discriminate) eq_refl eq_refl eq_refl eq_refl Hpre run (or_introl eq_refl))
    as (_ & Hfiles & Hreg).
  split; [|split; [|exact Hreg]].
  - apply (Hfiles "a.bin"). left. reflexivity.
  - apply (Hfiles "sub/b.bin"). right. left. reflexivity.
Defined.

End WholeProps.

(* ===================================================================== *)
(** ** The choice of the endpoint *)
(* ===================================================================== *)

Module MirrorProps.

(** Property X23. Once its checks have passed, [startDownload] makes exactly
    one attempt and returns what that attempt returns: with the
    configuration of the active mirror when the mirror has a config file path
    and a remote name, with the public endpoint otherwise. A mirror attempt
    that fails is not repeated on the public endpoint: the fallback of the
    [catch] clause is never taken, because [startMountBasedDownload] does not
    reject. *)
Theorem startDownload_makes_one_attempt E item w :
  let key := releaseName item in
  configured w = true ->
  Js.truthy (rclonePath E) = true ->
  (forall path, mkdirFault E path = None) ->
  diskSpacePreflight E item = None ->
  startDownload E item w
  = startMountBasedDownload E item (chosenMirror E)
      (turn E (updateItemStatus key Downloading (Js.Num 0) None None None None
                 (atStartPreflight E item w))).
Proof.
  intros key Hc Hr Hmk Hsp.
  rewrite (startDownload_at_preflight E item Hr Hmk w Hc), Hsp.
  unfold viaMirrorOrPublic, setStatus. fold key. rewrite bind_modify.
  set (w1 := updateItemStatus key Downloading (Js.Num 0) None None None None _).
  assert (Ha : await E (ret tt) w1 = (Ret tt, turn E w1)) by reflexivity.
  rewrite (bind_ret _ _ _ _ _ Ha).
  set (w2 := turn E w1). unfold chosenMirror.
  destruct (activeMirror E) as [name|]; [|reflexivity].
  destruct (Js.truthy (activeMirrorConfigPath E) && Js.truthy (activeMirrorRemoteName E));
    [|reflexivity].
  set (mc := Some (default "" (activeMirrorConfigPath E),
                   default "" (activeMirrorRemoteName E))).
  pose proof (noThrow_startMountBasedDownload E item mc w2) as Hno.
  unfold bind, tryCatch.
  destruct (startMountBasedDownload E item mc w2) as [[r|e|] x]; [reflexivity| |reflexivity].
  exfalso. apply (Hno e). reflexivity.
Qed.

(** The mount of the mirror never becomes ready: the attempt fails, and no
    second mount process is started. *)
Lemma startDownload_makes_one_attempt_witness :
  let run := startDownload mirrorHost (gameA Queued None) (idle None) in
  success <$> (match fst run with Ret r => Some r | _ => None end) = Some false /\
  countEv isSpawn (trace (snd run)) = 1%nat.
Proof.
  intros run. subst run.
  rewrite (startDownload_makes_one_attempt mirrorHost (gameA Queued None) (idle None)
             eq_refl eq_refl (fun _ => eq_refl) eq_refl).
  split; vm_compute; reflexivity.
Defined.

End MirrorProps.

(* ===================================================================== *)
(** ** Single steps of an attempt *)
(* ===================================================================== *)

Module StepFacts.

Lemma mounts_cancelDownload key fs msg w : mounts (cancelDownload key fs msg w) = mounts w.
Proof.
  unfold cancelDownload, stopController, updateItem.
  destruct (activeDownloads w !! key) as [ctl|]; [destruct (mountProcess ctl)|];
    simpl; destruct (findItem key (queue w)); simpl;
    try destruct (updateItemOk _ _); reflexivity.
Qed.

Lemma mounts_runActions l : forall w, mounts (runActions l w) = mounts w.
Proof.
  induction l as [|a l IH]; intros w; [reflexivity|].
  change (runActions (a :: l) w) with (runActions l (runAction a w)). rewrite IH.
  destruct a as [k f m|k|k u|k]; simpl.
  - apply mounts_cancelDownload.
  - apply untouched_pauseDownload.
  - reflexivity.
  - reflexivity.
Qed.

Lemma mounts_turn E w : mounts (turn E w) = mounts w.
Proof. unfold turn. rewrite mounts_runActions. reflexivity. Qed.

Lemma token_turn E ref w : tokenOf ref w = true -> tokenOf ref (turn E w) = true.
Proof.
  apply cellsGrow_token.
  apply (R_turn E cellsGrow cellsGrow_refl cellsGrow_trans cellsGrow_inert
           cellsGrow_delete cellsGrow_cancel).
Qed.

Lemma chunksOf_cons E (l : list byte) :
  l <> [] -> exists chunk rest, chunksOf E (length l) l = chunk :: rest.
Proof. destruct l as [|b l]; [congruence|]. intros _. simpl. eauto. Qed.

End StepFacts.

Import StepFacts.

Module StepProps.



(** Property X26. A copy that starts after the token was cancelled never
    settles: when the token is cancelled as [copyFileWithProgress] is called
    and the source has bytes past the offset, both streams are opened, and at
    the first chunk both are destroyed without a byte being written; neither
    ['finish'] nor ['error'] follows, so the promise stays pending, whatever
    the other actors do. *)
Theorem cancelled_copy_never_settles E src dest so onP ref w content :
  tokenOf ref w = true ->
  readSource E src w = Some content ->
  (Z.to_nat so < length content)%nat ->
  readFault E src 0 = None ->
  let run := copyFileWithProgress E src dest so onP ref w in
  fst run = Pending /\
  ownEvents (trace (snd run))
  = (ownEvents (trace w)
       ++ [EvOpenRead src so; EvOpenWrite dest (openFlag so);
           EvDestroyRead src; EvDestroyWrite dest])%list /\
  destFs (snd run) = destFs (openDest dest (openFlag so) w).
Proof.
  intros Htok Hsrc Hlen Hrf run. subst run.
  unfold copyFileWithProgress. do 4 rewrite bind_modify. rewrite bind_gets.
  set (w1 := openDest dest (openFlag so)
               (emit (EvOpenWrite dest (openFlag so)) (emit (EvOpenRead src so) w))).
  set (w2 := turn E w1).
  assert (Hm : readSource E src w2 = Some content).
  { unfold readSource. subst w2. rewrite mounts_turn. subst w1.
    unfold openDest. destruct (openFlag so); exact Hsrc. }
  rewrite Hm.
  assert (Ht2 : tokenOf ref w2 = true).
  { subst w2. apply token_turn. subst w1. unfold openDest.
    destruct (openFlag so); exact Htok. }
  destruct (chunksOf_cons E (drop (Z.to_nat so) content)) as (chunk & rest & Hch).
  { intros H. apply (f_equal length) in H. rewrite length_drop in H. simpl in H. lia. }
  cbv zeta. rewrite Hch. cbn [pump]. rewrite Hrf, bind_gets, Ht2, !bind_modify.
  unfold pending. cbn [fst snd]. split; [reflexivity|]. split.
  - rewrite !own_emit by reflexivity. subst w2. rewrite own_turn_any. subst w1.
    assert (Ho : forall fl x, trace (openDest dest fl x) = trace x)
      by (intros [] x; reflexivity).
    rewrite Ho, !own_emit by reflexivity. rewrite <- !app_assoc. reflexivity.
  - simpl destFs. subst w2. rewrite sameDest_turn. subst w1.
    unfold openDest. destruct (openFlag so); reflexivity.
Qed.

(** The cancel of [Game-A] came while the directory of [a.bin] was being
    made. *)
Lemma cancelled_copy_never_settles_witness :
  let w := runCancel 0 (setMounts ["/tmp/m"] busy) in
  fst (copyFileWithProgress quietHost "/tmp/m/a.bin" "/dl/Game-A/a.bin" 0
         (fun _ => ret tt) 0 w) = Pending.
Proof.
  intros w.
  apply (cancelled_copy_never_settles quietHost "/tmp/m/a.bin" "/dl/Game-A/a.bin" 0
           (fun _ => ret tt) 0%nat w (list_byte_of_string "hello world")
           eq_refl eq_refl ltac:(simpl; lia) eq_refl).
Defined.

End StepProps.
